(** * Outreach engine: campaign registry, workflow driver, approval loop
      and PII gate, embedded from the Python sources.

    Python values are modelled dynamically ([pyval]); a Python [str] is a
    list of Unicode code points.  Dictionaries keep their insertion order
    and are association lists, except the registry's own tables, which are
    finite maps.  Exceptions are values of [exn]. *)

From Stdlib Require Import ZArith NArith List Ascii String Floats Lia.
From stdpp Require Import base option list gmap fin_maps.

Open Scope Z_scope.

Set Warnings "-register-all,-clear-no-such-hyp".

(** ** Python data *)

Abbreviation pystr := (list N).

(** A source literal, as the code points of its (ASCII) characters. *)
Definition py (s : string) : pystr := N_of_ascii <$> list_ascii_of_string s.
Arguments py : simpl never.

Inductive pyval :=
| VNone
| VBool (b : bool)
| VInt (z : Z)
| VFloat (f : float)
| VStr (s : pystr)
| VList (l : list pyval)
| VDict (kvs : list (pystr * pyval)).

Abbreviation pydict := (list (pystr * pyval)).

Inductive exn :=
| KeyError (k : pystr)
| TypeError
| AttributeError
| EOFError
| RaisedError (text : pystr).

(** Results of code that may raise. *)
#[export] Instance exn_ret : MRet (sum exn) := λ A x, inr x.

#[export] Instance exn_bind : MBind (sum exn) := λ A B f m,
  match m with
  | inr x => f x
  | inl e => inl e
  end.

(** [bool(v)] *)
Definition truthy (v : pyval) : bool :=
  match v with
  | VNone => false
  | VBool b => b
  | VInt z => negb (z =? 0)
  | VFloat f => negb (PrimFloat.eqb f 0%float)
  | VStr s => match s with [] => false | _ => true end
  | VList l => match l with [] => false | _ => true end
  | VDict kvs => match kvs with [] => false | _ => true end
  end.

(** [d.get(k)] on a dict; [None] stands for a missing key. *)
Fixpoint dict_get {V} (k : pystr) (d : list (pystr * V)) : option V :=
  match d with
  | [] => None
  | (k', v) :: d' => if decide (k' = k) then Some v else dict_get k d'
  end.

(** [d[k] = v]: overwrite in place, or append a new key. *)
Fixpoint dict_set {V} (k : pystr) (v : V) (d : list (pystr * V)) : list (pystr * V) :=
  match d with
  | [] => [(k, v)]
  | (k', v') :: d' =>
      if decide (k' = k) then (k, v) :: d' else (k', v') :: dict_set k v d'
  end.

Definition dict_keys {V} (d : list (pystr * V)) : list pystr := d.*1.

(** [k in d] *)
Definition dict_has {V} (k : pystr) (d : list (pystr * V)) : bool :=
  bool_decide (k ∈ dict_keys d).

(** [payload.get(k)], with Python's [None] for a missing key. *)
Definition get_or_none (k : pystr) (d : pydict) : pyval :=
  default VNone (dict_get k d).

(** [v[k]] *)
Definition subscript (v : pyval) (k : pystr) : exn + pyval :=
  match v with
  | VDict kvs => match dict_get k kvs with
                 | Some x => inr x
                 | None => inl (KeyError k)
                 end
  | _ => inl TypeError
  end.

(** [v.get(k, dflt)]: only dicts have the method. *)
Definition method_get (v : pyval) (k : pystr) (dflt : pyval) : exn + pyval :=
  match v with
  | VDict kvs => inr (default dflt (dict_get k kvs))
  | _ => inl AttributeError
  end.

(** [for x in v]: the items a loop over [v] visits. *)
Definition iterate (v : pyval) : exn + list pyval :=
  match v with
  | VList l => inr l
  | VStr s => inr ((λ c, VStr [c]) <$> s)
  | VDict kvs => inr ((λ kv, VStr kv.1) <$> kvs)
  | _ => inl TypeError
  end.

(** [x in names] for a list of strings [names]. *)
Definition in_strs (x : pyval) (names : list pystr) : bool :=
  match x with
  | VStr s => bool_decide (s ∈ names)
  | _ => false
  end.

(** The ASCII part of the Unicode tables: digits, letters, [str.isspace],
    the word characters of [\w], [str.lower] and [str.capitalize]. *)
Definition ascii_digit (c : N) : bool := ((48 <=? c) && (c <=? 57))%N.
Definition ascii_upper_case (c : N) : bool := ((65 <=? c) && (c <=? 90))%N.
Definition ascii_lower_case (c : N) : bool := ((97 <=? c) && (c <=? 122))%N.
Definition ascii_space (c : N) : bool :=
  ((c =? 32) || ((9 <=? c) && (c <=? 13)) || ((28 <=? c) && (c <=? 31)))%N.
Definition ascii_word (c : N) : bool :=
  ascii_digit c || ascii_upper_case c || ascii_lower_case c || (c =? 95)%N.
Definition ascii_lower (s : pystr) : pystr :=
  (λ c, if ascii_upper_case c then (c + 32)%N else c) <$> s.
Definition ascii_capitalize (s : pystr) : pystr :=
  match s with
  | [] => []
  | c :: s' => (if ascii_lower_case c then (c - 32)%N else c) :: ascii_lower s'
  end.

(** ** Campaign registry and event bus ([app/api/state_manager.py]) *)

Module StateManager.

(** [datetime.utcnow()] readings are instants on an integer clock. *)
Abbreviation Time := Z.

Record StageEntry := {
  se_status : pystr;
  se_message : pystr;
  se_timestamp : option Time;
}.

Record Campaign := {
  c_id : pystr;
  c_status : pyval;
  c_current_stage : pystr;
  c_input : pyval;
  c_state : pydict;
  c_created_at : Time;
  c_stages : gmap pystr StageEntry;
  c_error : option pyval;
}.

Record Event := {
  ev_type : pystr;
  ev_stage : pystr;
  ev_status : pystr;
  ev_message : pystr;
  ev_timestamp : Time;
}.

(** The manager object.  An [asyncio.Queue] is an object with identity: it
    is a handle into [queues], which holds everything that was put into each
    queue, in the order of the puts (what a reader has taken out already is
    a prefix of it).  [tasks] is the event loop's ready list: the broadcasts
    that [asyncio.create_task] scheduled and that have not run yet; the
    loop starts them in the order they were scheduled. *)
Record SM := {
  campaigns : gmap pystr Campaign;
  event_queues : gmap pystr (list nat);
  queues : gmap nat (list Event);
  next_queue : nat;
  tasks : list (pystr * Event);
}.

(** [StateManager()] *)
Definition init : SM :=
  {| campaigns := ∅; event_queues := ∅; queues := ∅; next_queue := 0%nat;
     tasks := [] |}.

Definition pending_entry : StageEntry :=
  {| se_status := py "pending"; se_message := py ""; se_timestamp := None |}.

(** The keys of the ["stages"] literal of [create_campaign]. *)
Definition pipeline_stages : list pystr :=
  [py "ingestion"; py "persona"; py "drafting"; py "scoring";
   py "approval"; py "execution"; py "persistence"].

Definition initial_stages : gmap pystr StageEntry :=
  list_to_map ((λ s, (s, pending_entry)) <$> pipeline_stages).

(** [create_campaign]; [uuid] is the text of [uuid.uuid4()]. *)
Definition create_campaign (uuid : pystr) (now : Time) (input_data : pyval)
    (sm : SM) : pystr * SM :=
  let campaign :=
    {| c_id := uuid; c_status := VStr (py "created");
       c_current_stage := py "pending"; c_input := input_data;
       c_state := []; c_created_at := now; c_stages := initial_stages;
       c_error := None |} in
  (uuid,
   {| campaigns := <[uuid := campaign]> (campaigns sm);
      event_queues := <[uuid := []]> (event_queues sm);
      queues := queues sm; next_queue := next_queue sm; tasks := tasks sm |}).

Definition get_campaign (campaign_id : pystr) (sm : SM) : option Campaign :=
  campaigns sm !! campaign_id.

Definition set_stage (stage : pystr) (e : StageEntry) (c : Campaign) : Campaign :=
  {| c_id := c_id c; c_status := c_status c; c_current_stage := stage;
     c_input := c_input c; c_state := c_state c;
     c_created_at := c_created_at c;
     c_stages := <[stage := e]> (c_stages c); c_error := c_error c |}.

(** [update_stage]; the two instants are its two clock readings. *)
Definition update_stage (t_entry t_event : Time)
    (campaign_id stage status message : pystr) (sm : SM) : SM :=
  match campaigns sm !! campaign_id with
  | Some c =>
      let entry := {| se_status := status; se_message := message;
                      se_timestamp := Some t_entry |} in
      let event := {| ev_type := py "stage_update"; ev_stage := stage;
                      ev_status := status; ev_message := message;
                      ev_timestamp := t_event |} in
      {| campaigns := <[campaign_id := set_stage stage entry c]> (campaigns sm);
         event_queues := event_queues sm;
         queues := queues sm; next_queue := next_queue sm;
         tasks := tasks sm ++ [(campaign_id, event)] |}
  | None => sm
  end.

Definition set_state (state : pydict) (c : Campaign) : Campaign :=
  {| c_id := c_id c;
     c_status := default (VStr (py "running")) (dict_get (py "status") state);
     c_current_stage := c_current_stage c;
     c_input := c_input c; c_state := state;
     c_created_at := c_created_at c;
     c_stages := c_stages c; c_error := c_error c |}.

(** [update_state] *)
Definition update_state (campaign_id : pystr) (state : pydict) (sm : SM) : SM :=
  match campaigns sm !! campaign_id with
  | Some c =>
      {| campaigns := <[campaign_id := set_state state c]> (campaigns sm);
         event_queues := event_queues sm;
         queues := queues sm; next_queue := next_queue sm;
         tasks := tasks sm |}
  | None => sm
  end.

(** What has been put into queue [q]. *)
Definition queue_items (q : nat) (sm : SM) : list Event :=
  default [] (queues sm !! q).

(** [queue.put(event)] on an unbounded queue: it enqueues at once. *)
Definition queue_put (event : Event) (qs : gmap nat (list Event)) (q : nat)
    : gmap nat (list Event) :=
  <[q := default [] (qs !! q) ++ [event]]> qs.

(** [_broadcast_event] *)
Definition _broadcast_event (campaign_id : pystr) (event : Event) (sm : SM) : SM :=
  match event_queues sm !! campaign_id with
  | Some handles =>
      {| campaigns := campaigns sm; event_queues := event_queues sm;
         queues := foldl (queue_put event) (queues sm) handles;
         next_queue := next_queue sm; tasks := tasks sm |}
  | None => sm
  end.

(** [subscribe] *)
Definition subscribe (campaign_id : pystr) (sm : SM) : nat * SM :=
  let q := next_queue sm in
  (q,
   {| campaigns := campaigns sm;
      event_queues :=
        <[campaign_id := default [] (event_queues sm !! campaign_id) ++ [q]]>
          (event_queues sm);
      queues := <[q := []]> (queues sm);
      next_queue := S q; tasks := tasks sm |}).

(** [list.remove(x)]: drop the first occurrence. *)
Fixpoint list_remove (x : nat) (l : list nat) : list nat :=
  match l with
  | [] => []
  | y :: l' => if decide (y = x) then l' else y :: list_remove x l'
  end.

(** [unsubscribe] *)
Definition unsubscribe (campaign_id : pystr) (q : nat) (sm : SM) : SM :=
  match event_queues sm !! campaign_id with
  | Some handles =>
      {| campaigns := campaigns sm;
         event_queues := <[campaign_id := list_remove q handles]> (event_queues sm);
         queues := queues sm; next_queue := next_queue sm; tasks := tasks sm |}
  | None => sm
  end.

(** One turn of the event loop: the oldest scheduled broadcast runs. *)
Definition run_task (sm : SM) : SM :=
  match tasks sm with
  | [] => sm
  | (campaign_id, event) :: rest =>
      _broadcast_event campaign_id event
        {| campaigns := campaigns sm; event_queues := event_queues sm;
           queues := queues sm; next_queue := next_queue sm; tasks := rest |}
  end.

(** The subscribers of a campaign: [self.event_queues[campaign_id]]. *)
Definition handles (campaign_id : pystr) (sm : SM) : list nat :=
  default [] (event_queues sm !! campaign_id).

(** The events of the scheduled broadcasts of one campaign, oldest first. *)
Fixpoint pending (campaign_id : pystr) (ts : list (pystr * Event)) : list Event :=
  match ts with
  | [] => []
  | (c, e) :: ts' =>
      if decide (c = campaign_id) then e :: pending campaign_id ts'
      else pending campaign_id ts'
  end.

(** What the manager's callers and the event loop do, one at a time. *)
Inductive Op :=
| OpCreate (uuid : pystr) (now : Time) (input_data : pyval)
| OpUpdateStage (t_entry t_event : Time) (campaign_id stage status message : pystr)
| OpUpdateState (campaign_id : pystr) (state : pydict)
| OpSubscribe (campaign_id : pystr)
| OpUnsubscribe (campaign_id : pystr) (q : nat)
| OpRunTask.

Definition step (o : Op) (sm : SM) : SM :=
  match o with
  | OpCreate uuid now input_data => (create_campaign uuid now input_data sm).2
  | OpUpdateStage t_entry t_event campaign_id stage status message =>
      update_stage t_entry t_event campaign_id stage status message sm
  | OpUpdateState campaign_id state => update_state campaign_id state sm
  | OpSubscribe campaign_id => (subscribe campaign_id sm).2
  | OpUnsubscribe campaign_id q => unsubscribe campaign_id q sm
  | OpRunTask => run_task sm
  end.

Fixpoint run (ops : list Op) (sm : SM) : SM :=
  match ops with
  | [] => sm
  | o :: ops' => run ops' (step o sm)
  end.

(** The events that [o], done in [sm], publishes for [campaign_id]. *)
Definition publishes (campaign_id : pystr) (o : Op) (sm : SM) : list Event :=
  match o with
  | OpUpdateStage t_entry t_event c stage status message =>
      if decide (c = campaign_id) then
        match campaigns sm !! c with
        | Some _ => [ {| ev_type := py "stage_update"; ev_stage := stage;
                         ev_status := status; ev_message := message;
                         ev_timestamp := t_event |} ]
        | None => []
        end
      else []
  | _ => []
  end.

(** The events published for [campaign_id] over a run, in publish order. *)
Fixpoint published (campaign_id : pystr) (ops : list Op) (sm : SM) : list Event :=
  match ops with
  | [] => []
  | o :: ops' => publishes campaign_id o sm ++ published campaign_id ops' (step o sm)
  end.

(** What a run maintains: for every campaign the published events are the
    delivered ones followed by the scheduled ones, every subscribed queue
    holds a run of the published events that ends where the scheduled ones
    begin, and a queue is subscribed once, to one campaign. *)
Record Ordered (pub : pystr → list Event) (sm : SM) : Prop := {
  ord_split : ∀ c, ∃ delivered, pub c = delivered ++ pending c (tasks sm);
  ord_queue : ∀ c q, q ∈ handles c sm →
    ∃ before, pub c = before ++ queue_items q sm ++ pending c (tasks sm);
  ord_alloc : ∀ c q, q ∈ handles c sm → (q < next_queue sm)%nat;
  ord_nodup : ∀ c, NoDup (handles c sm);
  ord_owner : ∀ c c' q, q ∈ handles c sm → q ∈ handles c' sm → c = c';
}.

(** A sample run: a campaign with one subscriber from the start and one
    that joins between two broadcasts. *)
Definition sample_ops : list Op :=
  [ OpCreate (py "c-1") 0 VNone;
    OpSubscribe (py "c-1");
    OpUpdateStage 1 2 (py "c-1") (py "ingestion") (py "running") (py "Processing ingestion...");
    OpUpdateStage 3 4 (py "c-1") (py "ingestion") (py "completed") (py "Ingestion completed");
    OpRunTask;
    OpSubscribe (py "c-1");
    OpRunTask ].

(** The operations [ops] leave the subscription of [q] to [campaign_id]
    alone: none unsubscribes it, none creates the campaign anew. *)
Definition keeps_subscription (campaign_id : pystr) (q : nat) (ops : list Op) : bool :=
  forallb (λ o, match o with
                | OpUnsubscribe c q' =>
                    negb (bool_decide (c = campaign_id) && bool_decide (q' = q))
                | OpCreate uuid _ _ => negb (bool_decide (uuid = campaign_id))
                | _ => true
                end) ops.

(** None of [ops] creates [campaign_id]. *)
Definition no_create (campaign_id : pystr) (ops : list Op) : bool :=
  forallb (λ o, match o with
                | OpCreate uuid _ _ => negb (bool_decide (uuid = campaign_id))
                | _ => true
                end) ops.

(** What an observer keeps of a stage table: status and message of each
    stage; and what one event tells it. *)
Definition stage_view (c : Campaign) : gmap pystr (pystr * pystr) :=
  (λ e, (se_status e, se_message e)) <$> c_stages c.

Definition apply_event (view : gmap pystr (pystr * pystr)) (e : Event)
    : gmap pystr (pystr * pystr) :=
  <[ev_stage e := (ev_status e, ev_message e)]> view.

(** Every record is stored under its own identifier and keeps an entry
    for each of the seven pipeline stages. *)
Definition well_kept (sm : SM) : Prop :=
  ∀ k c, campaigns sm !! k = Some c →
    c_id c = k ∧ ∀ s, s ∈ pipeline_stages → is_Some (c_stages c !! s).

(** A second sample run: the subscriber leaves after the first broadcast. *)
Definition sample_ops_leave : list Op :=
  [ OpCreate (py "c-1") 0 VNone;
    OpSubscribe (py "c-1");
    OpUpdateStage 1 2 (py "c-1") (py "ingestion") (py "running") (py "Processing ingestion...");
    OpRunTask ].

Definition sample_ops_after : list Op :=
  [ OpUpdateStage 3 4 (py "c-1") (py "ingestion") (py "completed") (py "Ingestion completed");
    OpRunTask;
    OpSubscribe (py "c-1");
    OpUpdateStage 5 6 (py "c-1") (py "persona") (py "running") (py "Processing persona...");
    OpRunTask ].

End StateManager.

(** ** Workflow driver ([app/api/workflow_runner.py]) *)

Module WorkflowRunner.
Import StateManager.

(** What [graph.astream] yields: a dict from node name to that node's
    state; the stream ends normally or by raising. *)
Abbreviation GraphEvent := (list (pystr * pydict)).

Record Stream := {
  yielded : list GraphEvent;
  raised : option pystr;
}.

(** The driver's local variables, with the registry and the number of
    [update_stage] calls made so far (which indexes the clock readings). *)
Record Driver := {
  d_sm : SM;
  d_calls : nat;
  d_drafting : bool;
}.

Inductive Exit :=
| Paused
| Completed
| Failed
| Crashed (e : exn).

Definition stage_map : list (pystr * pystr) :=
  [(py "ingestion", py "ingestion");
   (py "persona", py "persona");
   (py "draft_email", py "drafting");
   (py "draft_sms", py "drafting");
   (py "draft_linkedin", py "drafting");
   (py "draft_instagram", py "drafting");
   (py "scoring", py "scoring");
   (py "approval", py "approval");
   (py "execution", py "execution");
   (py "persistence", py "persistence")].

(** [stage_map.get(node_name, node_name)] *)
Definition stage_of (node_name : pystr) : pystr :=
  default node_name (dict_get node_name stage_map).

(** The stage and status of the reports that a stretch of the driver's
    work scheduled: those in [d'] beyond the ones in [d]. *)
Definition new_tasks (d d' : Driver) : list (pystr * Event) :=
  drop (length (tasks (d_sm d))) (tasks (d_sm d')).

Definition reports (d d' : Driver) : list (pystr * pystr) :=
  (λ t, (ev_stage t.2, ev_status t.2)) <$> new_tasks d d'.

(** The nodes of the events that carry the key "draft_instagram". *)
Definition completions (events : list GraphEvent) : nat :=
  sum_list ((λ event : GraphEvent,
               if dict_has (py "draft_instagram") event then length event else 0%nat)
            <$> events).

(** The events that carry the key "draft_instagram". *)
Definition instagram_events (events : list GraphEvent) : nat :=
  sum_list ((λ event : GraphEvent,
               if dict_has (py "draft_instagram") event then 1%nat else 0%nat)
            <$> events).

(** Every event is the result of one node. *)
Definition one_node_each (events : list GraphEvent) : Prop :=
  Forall (λ event : GraphEvent, length event = 1%nat) events.

(** Every node of the events is one of the four draft nodes. *)
Definition drafting_only (events : list GraphEvent) : Prop :=
  Forall (Forall (λ kv : pystr * pydict, stage_of kv.1 = py "drafting")) events.

(** A stretch of the driver's work from [d] to [d']: the campaign stays in
    the registry and the reports with the stages and statuses [l] were
    scheduled, in this order. *)
Definition advances (cid : pystr) (d d' : Driver) (l : list (pystr * pystr)) : Prop :=
  is_Some (campaigns (d_sm d') !! cid) ∧
  ∃ new, tasks (d_sm d') = tasks (d_sm d) ++ new ∧
         Forall (λ t, t.1 = cid) new ∧
         (λ t, (ev_stage t.2, ev_status t.2)) <$> new = l.

(** Every "running" report of a stretch of work names the stage of one of
    the given nodes. *)
Definition running_of (nodes : list (pystr * pydict)) (l : list (pystr * pystr)) : Prop :=
  ∀ stage, (stage, py "running") ∈ l → ∃ kv, kv ∈ nodes ∧ stage = stage_of kv.1.

(** A node that is reported like a linear stage: it is no draft node, and
    it is not the approval node with drafts to approve. *)
Definition linear_node (kv : pystr * pydict) : bool :=
  negb (bool_decide (stage_of kv.1 = py "drafting"))
  && negb (bool_decide (kv.1 = py "approval")
           && truthy (get_or_none (py "drafts") kv.2)).

(** The two reports of a linear node. *)
Definition linear_reports (kv : pystr * pydict) : list (pystr * pystr) :=
  [(stage_of kv.1, py "running"); (stage_of kv.1, py "completed")].

(** The status that [update_state] derives from a node's state. *)
Definition status_of (kv : pystr * pydict) : pyval :=
  default (VStr (py "running")) (dict_get (py "status") kv.2).

Section Driver.

(** Clock readings, [str.capitalize] and the compiled graph are the
    driver's environment. *)
Variable utcnow : nat → Time.
Variable capitalize : pystr → pystr.
Variable astream : pydict → Stream.

(** [state_manager.update_stage(...)] with the next two clock readings. *)
Definition report (campaign_id stage status message : pystr) (d : Driver) : Driver :=
  {| d_sm := update_stage (utcnow (2 * d_calls d)) (utcnow (2 * d_calls d + 1))
               campaign_id stage status message (d_sm d);
     d_calls := S (d_calls d);
     d_drafting := d_drafting d |}.

Definition set_drafting (b : bool) (d : Driver) : Driver :=
  {| d_sm := d_sm d; d_calls := d_calls d; d_drafting := b |}.

Definition store_state (campaign_id : pystr) (node_state : pydict) (d : Driver) : Driver :=
  {| d_sm := update_state campaign_id node_state (d_sm d);
     d_calls := d_calls d; d_drafting := d_drafting d |}.

(** The "running" report of one node. *)
Definition mark_running (campaign_id stage : pystr) (d : Driver) : Driver :=
  if decide (stage = py "drafting") then
    if d_drafting d then d
    else set_drafting true
           (report campaign_id (py "drafting") (py "running")
              (py "Generating personalized drafts for all channels...") d)
  else
    report campaign_id stage (py "running")
      (py "Processing " ++ stage ++ py "...") (set_drafting false d).

(** The "completed" report of one node of [event]. *)
Definition mark_completed (campaign_id stage : pystr) (event : GraphEvent)
    (d : Driver) : Driver :=
  if bool_decide (stage ≠ py "drafting")
     || (bool_decide (stage = py "drafting")
         && dict_has (py "draft_instagram") event)
  then report campaign_id stage (py "completed")
         (capitalize stage ++ py " completed") d
  else d.

(** The body of [for node_name, node_state in event.items()]; the flag
    tells whether the function returned at the approval interrupt. *)
Fixpoint process_nodes (campaign_id : pystr) (event : GraphEvent)
    (items : list (pystr * pydict)) (d : Driver) : bool * Driver :=
  match items with
  | [] => (false, d)
  | (node_name, node_state) :: items' =>
      let stage := stage_of node_name in
      let d1 := mark_running campaign_id stage d in
      let d2 := store_state campaign_id node_state d1 in
      if bool_decide (node_name = py "approval")
         && truthy (get_or_none (py "drafts") node_state)
      then (true,
            report campaign_id (py "approval") (py "waiting")
              (py "Waiting for user approval...") d2)
      else process_nodes campaign_id event items'
             (mark_completed campaign_id stage event d2)
  end.

(** The body of [async for event in graph.astream(initial_state)]. *)
Fixpoint process_events (campaign_id : pystr) (events : list GraphEvent)
    (d : Driver) : bool * Driver :=
  match events with
  | [] => (false, d)
  | event :: events' =>
      match process_nodes campaign_id event event d with
      | (true, d') => (true, d')
      | (false, d') => process_events campaign_id events' d'
      end
  end.

Definition set_status (status : pyval) (c : Campaign) : Campaign :=
  {| c_id := c_id c; c_status := status;
     c_current_stage := c_current_stage c;
     c_input := c_input c; c_state := c_state c;
     c_created_at := c_created_at c;
     c_stages := c_stages c; c_error := c_error c |}.

Definition set_error (text : pyval) (c : Campaign) : Campaign :=
  {| c_id := c_id c; c_status := c_status c;
     c_current_stage := c_current_stage c;
     c_input := c_input c; c_state := c_state c;
     c_created_at := c_created_at c;
     c_stages := c_stages c; c_error := Some text |}.

(** A write through the record that [get_campaign] handed out: the record
    is the registry's own object. *)
Definition modify_campaign (campaign_id : pystr) (f : Campaign → Campaign)
    (d : Driver) : Driver :=
  {| d_sm := {| campaigns := alter f campaign_id (campaigns (d_sm d));
               event_queues := event_queues (d_sm d);
               queues := queues (d_sm d);
               next_queue := next_queue (d_sm d);
               tasks := tasks (d_sm d) |};
     d_calls := d_calls d; d_drafting := d_drafting d |}.

(** The "Final update" block. *)
Definition final_update (campaign_id : pystr) (d : Driver) : Driver :=
  match get_campaign campaign_id (d_sm d) with
  | Some campaign =>
      match dict_get (py "status") (c_state campaign) with
      | Some (VStr s) =>
          if decide (s = py "persisted") then
            modify_campaign campaign_id (set_status (VStr (py "completed")))
              (report campaign_id (py "persistence") (py "completed")
                 (py "Campaign completed successfully") d)
          else d
      | _ => d
      end
  | None => d
  end.

(** The [except Exception as exc] block; [text] is [str(exc)]. *)
Definition handle_failure (campaign_id text : pystr) (d : Driver) : Exit * Driver :=
  match get_campaign campaign_id (d_sm d) with
  | None => (Crashed TypeError, d)
  | Some campaign =>
      (Failed,
       modify_campaign campaign_id
         (λ c, set_error (VStr text) (set_status (VStr (py "failed")) c))
         (report campaign_id (c_current_stage campaign) (py "failed") text d))
  end.

(** The driver, run on the events of [stream]. *)
Definition drive (campaign_id : pystr) (stream : Stream) (d : Driver) : Exit * Driver :=
  match process_events campaign_id (yielded stream) d with
  | (true, d') => (Paused, d')
  | (false, d') =>
      match raised stream with
      | Some text => handle_failure campaign_id text d'
      | None => (Completed, final_update campaign_id d')
      end
  end.

(** [run_campaign_workflow] *)
Definition run_campaign_workflow (campaign_id raw_input : pystr) (sm : SM) : Exit * SM :=
  let initial_state := [(py "raw_input", VStr raw_input)] in
  let '(exit, d) :=
    drive campaign_id (astream initial_state)
      {| d_sm := sm; d_calls := 0; d_drafting := false |} in
  (exit, d_sm d).

End Driver.

(** Sample runs: a campaign just created, a clock that ticks once per
    reading, and the four draft nodes yielded one per event or all in one
    event. *)
Definition sample_clock (n : nat) : Time := Z.of_nat n.

Definition sample_driver : Driver :=
  {| d_sm := (create_campaign (py "c-1") 0 VNone init).2;
     d_calls := 0; d_drafting := false |}.

Definition sample_state : pydict := [(py "company", VStr (py "Acme"))].

Definition one_per_event : list GraphEvent :=
  [ [(py "draft_email", sample_state)];
    [(py "draft_sms", sample_state)];
    [(py "draft_linkedin", sample_state)];
    [(py "draft_instagram", sample_state)] ].

Definition all_in_one : GraphEvent :=
  [ (py "draft_email", sample_state);
    (py "draft_sms", sample_state);
    (py "draft_linkedin", sample_state);
    (py "draft_instagram", sample_state) ].

(** The run up to the approval interrupt, and a run to its end. *)
Definition sample_drafts : pydict :=
  [(py "drafts", VList [VDict [(py "channel", VStr (py "email"));
                               (py "body", VStr (py "Dear team"))]])].

Definition linear_events : list GraphEvent :=
  [ [(py "ingestion", sample_state)]; [(py "persona", sample_state)] ].

Definition persisted_events : list GraphEvent :=
  [ [(py "execution", sample_state)];
    [(py "persistence", [(py "status", VStr (py "persisted"))])] ].

(** The ingestion node yields; the persona node then raises an exception
    without text. *)
Definition persona_fails : Stream :=
  {| yielded := [ [(py "ingestion", sample_state)] ];
     raised := Some (py "") |}.

End WorkflowRunner.

(** ** The approval endpoint ([app/api/main.py]) *)

Module Api.
Import StateManager.

(** [HTTPException(status_code=..., detail=...)] *)
Record HTTPException := {
  status_code : nat;
  detail : pystr;
}.

(** The request body: three lists of channel names, each empty when the
    body leaves it out. *)
Record ApprovalRequest := {
  approved : list pystr;
  regen : list pystr;
  skipped : list pystr;
}.

Definition strs (l : list pystr) : pyval := VList (VStr <$> l).

(** [approve_drafts], as it leaves the registry.  The code writes the
    three keys into the dict that the record holds, in place, and hands the
    same dict to [update_state]; what the record holds afterwards is the
    dict with the three keys set.  Whoever else holds that dict sees the
    keys as well: the registry alone does not tell, and nothing below is
    about it. *)
Definition approve_drafts (campaign_id : pystr) (request : ApprovalRequest) (sm : SM)
    : (HTTPException + pydict) * SM :=
  match get_campaign campaign_id sm with
  | None => (inl {| status_code := 404; detail := py "Campaign not found" |}, sm)
  | Some campaign =>
      let state := c_state campaign in
      let state := dict_set (py "approved_channels") (strs (approved request)) state in
      let state := dict_set (py "regen_channels") (strs (regen request)) state in
      let state := dict_set (py "__resume__")
                     (VDict [(py "approved", strs (approved request));
                             (py "regen", strs (regen request))]) state in
      (inr [(py "status", VStr (py "ok"));
            (py "approved", strs (approved request));
            (py "regen", strs (regen request))],
       update_state campaign_id state sm)
  end.

(** The keys that the endpoint writes. *)
Definition approval_keys : list pystr :=
  [py "approved_channels"; py "regen_channels"; py "__resume__"].

(** A sample request, and a registry in which a run has failed. *)
Definition sample_request : ApprovalRequest :=
  {| approved := [py "email"]; regen := [py "sms"]; skipped := [py "linkedin"] |}.

End Api.

(** ** Approval and regeneration loop of the CLI ([main.py]) *)

Module Main.

(** What the loop does to its surroundings, in order: the calls of the
    scoring agent, of [input], of the draft generator for a channel, of the
    execution and persistence agents, and the two notices of the regen
    branch, "Max regen rounds reached" and "REGENERATING ... (round n/3)". *)
Inductive Action :=
| Scored
| Prompted
| RegenSkipped
| Regenerating (regen_round : nat)
| Generated (channel : pyval)
| Executed
| Persisted.

Definition is_scored (a : Action) : bool :=
  match a with Scored => true | _ => false end.

Definition is_regenerating (a : Action) : bool :=
  match a with Regenerating _ => true | _ => false end.

(** How many of the actions [l] satisfy [p]. *)
Definition count (p : Action → bool) (l : list Action) : nat :=
  sum_list_with (λ a, if p a then 1%nat else 0%nat) l.

(** The surroundings: the outside world (terminal, models, channels) and
    the record of the calls made into it. *)
Record Env (World : Type) := {
  world : World;
  log : list Action;
}.
Arguments world {World} _.
Arguments log {World} _.

(** Computations that act on the surroundings and may raise. *)
Definition M (World A : Type) : Type := Env World → (exn + A) * Env World.

#[export] Instance M_ret {World} : MRet (M World) := λ A x e, (inr x, e).

#[export] Instance M_bind {World} : MBind (M World) := λ A B f m e,
  match m e with
  | (inr x, e') => f x e'
  | (inl err, e') => (inl err, e')
  end.

Definition lift {World A} (r : exn + A) : M World A := λ e, (r, e).

Definition record {World} (a : Action) : M World () := λ e,
  (inr (), {| world := world e; log := log e ++ [a] |}).

(** A call into the world. *)
Definition call {World A} (f : World → (exn + A) * World) : M World A := λ e,
  let '(r, w) := f (world e) in (r, {| world := w; log := log e |}).

(** [for x in xs: ys.append(f(x))] *)
Fixpoint for_each {World A B} (f : A → M World B) (xs : list A) : M World (list B) :=
  match xs with
  | [] => mret []
  | x :: xs' => y ← f x; ys ← for_each f xs'; mret (y :: ys)
  end.

Definition MAX_REGEN : nat := 3.

(** [m] adds to the log at most [a] scoring passes and [b] regeneration
    rounds, whatever it returns. *)
Definition emits {World A} (a b : nat) (m : M World A) : Prop :=
  ∀ e, ∃ new, log (m e).2 = log e ++ new ∧
              (count is_scored new ≤ a)%nat ∧
              (count is_regenerating new ≤ b)%nat.

(** [m] adds to the log only actions that satisfy [P]. *)
Definition only {World A} (P : Action → Prop) (m : M World A) : Prop :=
  ∀ e, ∃ new, log (m e).2 = log e ++ new ∧ Forall P new.

Definition is_send (a : Action) : bool :=
  match a with Executed | Persisted => true | _ => false end.

(** The channels of the drafts [ds] that are named in [regen], in the
    order of the drafts. *)
Definition regen_channels (regen : list pystr) (ds : list pyval) : list pyval :=
  omap (λ d, match subscript d (py "channel") with
             | inr ch => if in_strs ch regen then Some ch else None
             | inl _ => None
             end) ds.

Section Loop.

Variable World : Type.

(** The agents and the terminal. *)
Variable scoring_node : pydict → World → (exn + pydict) * World.
Variable execution_node : pydict → World → (exn + pydict) * World.
Variable persistence_node : pydict → World → (exn + pydict) * World.
Variable _generate_draft : pyval → pydict → World → (exn + pyval) * World.
Variable input : World → (exn + pystr) * World.

(** [str.isspace] of a character and [str.lower]. *)
Variable is_space : N → bool.
Variable lower : pystr → pystr.

(** [s.strip()] *)
Fixpoint lstrip (s : pystr) : pystr :=
  match s with
  | c :: s' => if is_space c then lstrip s' else s
  | [] => []
  end.
Definition strip (s : pystr) : pystr := reverse (lstrip (reverse (lstrip s))).

(** [s.split()]; [cur] is the token being read, backwards. *)
Fixpoint split_from (cur : pystr) (s : pystr) : list pystr :=
  match s with
  | [] => match cur with [] => [] | _ => [reverse cur] end
  | c :: s' =>
      if is_space c then
        match cur with
        | [] => split_from [] s'
        | _ => reverse cur :: split_from [] s'
        end
      else split_from (c :: cur) s'
  end.
Definition split (s : pystr) : list pystr := split_from [] s.

Definition eq_sign : N := N_of_ascii "=".

(** [token.split("=", 1)] of a token that contains ["="]. *)
Fixpoint split_eq (token : pystr) : option (pystr * pystr) :=
  match token with
  | [] => None
  | c :: t =>
      if decide (c = eq_sign) then Some ([], t)
      else '(a, b) ← split_eq t; Some (c :: a, b)
  end.

(** The parsing loop: one token's effect on [approved] and [regen]. *)
Definition parse_token (acc : list pystr * list pystr) (token : pystr)
    : list pystr * list pystr :=
  match split_eq token with
  | None => acc
  | Some (ch, choice) =>
      let ch := lower (strip ch) in
      let choice := lower (strip choice) in
      if decide (choice = py "approve") then (acc.1 ++ [ch], acc.2)
      else if decide (choice = py "regen") then (acc.1, acc.2 ++ [ch])
      else acc
  end.

Definition parse_decision (raw : pystr) : list pystr * list pystr :=
  foldl parse_token ([], []) (split raw).

Definition is_str (v : pyval) : exn + () :=
  match v with VStr _ => inr () | _ => inl AttributeError end.

(** [print_drafts]: only whether it raises is kept of it. *)
Definition print_draft (d : pyval) : exn + () :=
  _ ← method_get d (py "score") VNone;
  ch ← subscript d (py "channel");
  _ ← is_str ch;
  body ← subscript d (py "body");
  is_str body.

Definition print_drafts (drafts : pyval) : exn + () :=
  ds ← iterate drafts;
  _ ← mapM print_draft ds;
  inr ().

(** [{**d, "approved": (d["channel"] in approved)}] *)
Definition mark_draft (approved : list pystr) (d : pyval) : exn + pyval :=
  match d with
  | VDict kvs =>
      match dict_get (py "channel") kvs with
      | Some ch => inr (VDict (dict_set (py "approved") (VBool (in_strs ch approved)) kvs))
      | None => inl (KeyError (py "channel"))
      end
  | _ => inl TypeError
  end.

Definition mark_approved (approved : list pystr) (drafts : pyval) : exn + list pyval :=
  ds ← iterate drafts; mapM (mark_draft approved) ds.

(** One draft of the regeneration pass. *)
Definition regen_draft (regen : list pystr) (state : pydict) (d : pyval)
    : M World pyval :=
  ch ← lift (subscript d (py "channel"));
  if in_strs ch regen then
    _ ← record (Generated ch);
    call (_generate_draft ch state)
  else mret d.

Definition str_list (l : list pystr) : pyval := VList (VStr <$> l).

(** The first half of a pass of the [while True] body: scoring, the
    display of the drafts, the prompt, and the marking of the approved
    drafts.  It hands on the [regen] list and the new state. *)
Definition decision (state : pydict) : M World (list pystr * pydict) :=
  _ ← record Scored;
  state ← call (scoring_node state);
  let drafts := default (VList []) (dict_get (py "drafts") state) in
  _ ← lift (print_drafts drafts);
  _ ← record Prompted;
  raw ← call input;
  let '(approved, regen) := parse_decision (strip raw) in
  updated_drafts ← lift (mark_approved approved drafts);
  mret (regen,
        dict_set (py "approved_channels") (str_list approved)
          (dict_set (py "drafts") (VList updated_drafts) state)).

(** The second half, from [if regen:].  [inl] loops back to scoring with
    the new round count, [inr] leaves the loop. *)
Definition regeneration (regen_round : nat) (regen : list pystr) (state : pydict)
    : M World (nat * pydict + pydict) :=
  match regen return M World (nat * pydict + pydict) with
  | [] => mret (inr state)
  | _ :: _ =>
      let regen_round := S regen_round in
      if decide (MAX_REGEN < regen_round)%nat then
        _ ← record RegenSkipped;
        mret (inr state)
      else
        _ ← record (Regenerating regen_round);
        cur ← lift (subscript (VDict state) (py "drafts"));
        ds ← lift (iterate cur);
        new_drafts ← for_each (regen_draft regen state) ds;
        mret (inl (regen_round, dict_set (py "drafts") (VList new_drafts) state))
  end.

(** One pass of the [while True] body. *)
Definition round (regen_round : nat) (state : pydict)
    : M World (nat * pydict + pydict) :=
  d ← decision state;
  regeneration regen_round d.1 d.2.

(** The [while True] loop; [None] when [fuel] passes do not end it. *)
Fixpoint approval_rounds (fuel : nat) (regen_round : nat) (state : pydict)
    : M World (option pydict) :=
  match fuel with
  | O => mret None
  | S fuel' =>
      r ← round regen_round state;
      match r with
      | inl (regen_round', state') => approval_rounds fuel' regen_round' state'
      | inr state' => mret (Some state')
      end
  end.

(** The printing of the execution results: whether it raises. *)
Definition print_result (r : pyval) : exn + () :=
  _ ← method_get r (py "status") (VStr (py "unknown"));
  ch ← method_get r (py "channel") (VStr (py "?"));
  is_str ch.

Definition print_results (state : pydict) : exn + () :=
  rs ← iterate (default (VList []) (dict_get (py "execution_results") state));
  _ ← mapM print_result rs;
  inr ().

(** [run_approval_loop] *)
Definition run_approval_loop (fuel : nat) (state : pydict) : M World (option pydict) :=
  r ← approval_rounds fuel 0 state;
  match r with
  | None => mret None
  | Some state =>
      _ ← record Executed;
      state ← call (execution_node state);
      _ ← lift (print_results state);
      _ ← record Persisted;
      state ← call (persistence_node state);
      mret (Some state)
  end.

End Loop.



(** A sample world: the lines still to be typed at the prompt.  The
    agents hand the state back as it is; the generator writes a new draft
    for the channel. *)
Definition sample_input (w : list pystr) : (exn + pystr) * list pystr :=
  match w with
  | [] => (inl EOFError, [])
  | line :: w' => (inr line, w')
  end.

Definition sample_node (state : pydict) (w : list pystr) : (exn + pydict) * list pystr :=
  (inr state, w).

Definition sample_draft (channel : pyval) (body : pystr) : pyval :=
  VDict [(py "channel", channel); (py "subject", VNone); (py "body", VStr body);
         (py "score", VNone); (py "approved", VBool false); (py "sent", VBool false)].

Definition sample_generate (channel : pyval) (state : pydict) (w : list pystr)
    : (exn + pyval) * list pystr :=
  (inr (sample_draft channel (py "a new draft")), w).

Definition sample_state : pydict :=
  [(py "company", VStr (py "Acme"));
   (py "drafts", VList [sample_draft (VStr (py "email")) (py "Dear team");
                        sample_draft (VStr (py "sms")) (py "Hi")])].

(** Two rounds at the prompt: the e-mail draft is approved and the SMS
    draft sent back; then only the new SMS draft is approved. *)
Definition sample_env : Env (list pystr) :=
  {| world := [py "email=approve sms=regen"; py "sms=approve"]; log := [] |}.






Definition sample_regeneration (regen_round : nat) (regen : list pystr) (state : pydict)
    : M (list pystr) (nat * pydict + pydict) :=
  regeneration (list pystr) sample_generate regen_round regen state.

Definition sample_loop (fuel : nat) (state : pydict) : M (list pystr) (option pydict) :=
  run_approval_loop (list pystr) sample_node sample_node sample_node
    sample_generate sample_input ascii_space ascii_lower fuel state.

End Main.

(** ** PII gate ([app/utils/sanitizer.py]) *)

Module Sanitizer.

(** *** The two patterns, and how [re] matches them

    Both patterns are a sequence of character classes, each repeated
    greedily between a lower and an optional upper bound. *)
Record Item := {
  cls : N → bool;
  lo : nat;
  hi : option nat;
}.

Abbreviation Pattern := (list Item).

Definition chr (a : ascii) : N := N_of_ascii a.
Definition is_chr (a : ascii) (c : N) : bool := bool_decide (c = chr a).

(** How many leading characters of [s] a repetition of [cls] can take. *)
Fixpoint run_length (cls : N → bool) (cap : option nat) (s : pystr) : nat :=
  match s with
  | [] => 0
  | c :: s' =>
      if cls c then
        match cap with
        | Some O => 0
        | Some (S k) => S (run_length cls (Some k) s')
        | None => S (run_length cls None s')
        end
      else 0
  end.

(** Greedy repetition with backtracking: try [k] repetitions, then
    [k - 1], down to [lo]; [rest] matches what follows.  The result is the
    length of the match. *)
Fixpoint backtrack (lo : nat) (rest : pystr → option nat) (s : pystr) (k : nat)
    : option nat :=
  match (if (lo <=? k)%nat then (λ m, (k + m)%nat) <$> rest (drop k s) else None) with
  | Some n => Some n
  | None =>
      match k with
      | O => None
      | S k' => backtrack lo rest s k'
      end
  end.

(** [pattern.match(s)]: the length of the match at the start of [s]. *)
Fixpoint match_at (r : Pattern) (s : pystr) : option nat :=
  match r with
  | [] => Some 0%nat
  | it :: r' => backtrack (lo it) (match_at r') s (run_length (cls it) (hi it) s)
  end.

(** [pattern.sub(repl, s)], scanning from the left; [skip] characters
    of [s] still belong to the match just replaced. *)
Fixpoint sub_from (r : Pattern) (repl : pystr) (skip : nat) (s : pystr) : pystr :=
  match s with
  | [] => match skip, match_at r [] with
          | O, Some _ => repl
          | _, _ => []
          end
  | c :: s' =>
      match skip with
      | S k => sub_from r repl k s'
      | O =>
          match match_at r s with
          | Some (S len) => repl ++ sub_from r repl len s'
          | Some O => repl ++ c :: sub_from r repl 0 s'
          | None => c :: sub_from r repl 0 s'
          end
      end
  end.

Definition re_sub (r : Pattern) (repl s : pystr) : pystr := sub_from r repl 0 s.

(** The strings a pattern matches in full. *)
Inductive matches : Pattern → pystr → Prop :=
| matches_nil : matches [] []
| matches_cons it r m1 m2 :
    Forall (λ c, cls it c = true) m1 →
    (lo it ≤ length m1)%nat →
    (∀ h, hi it = Some h → (length m1 ≤ h)%nat) →
    matches r m2 →
    matches (it :: r) (m1 ++ m2).

(** No substring of [s] is matched by [r]. *)
Definition no_match (r : Pattern) (s : pystr) : Prop :=
  ∀ pre m post, s = pre ++ m ++ post → ¬ matches r m.

(** A character that is no digit, space or word character and none of
    the punctuation of the patterns is outside both of them. *)
Definition plain (c : N) : bool :=
  ((c <? 128)%N && negb (ascii_digit c) && negb (ascii_space c)
   && negb (ascii_word c)
   && negb (bool_decide (c ∈ chr <$> ["+"; "-"; "("; ")"; "."; "@"]%char)))%bool.

(** Wherever in [s] the pattern [r] finds no match at the position, no
    match of [r'] starts at the position either. *)
Definition clean_where_unmatched (r r' : Pattern) (s : pystr) : Prop :=
  ∀ pre t, s = pre ++ t → match_at r t = None →
    ∀ m rest, t = m ++ rest → ¬ matches r' m.

(** [out] is [s] with some pieces that [r] matches replaced by [repl];
    every other character is kept, in place. *)
Inductive replaced (r : Pattern) (repl : pystr) : pystr → pystr → Prop :=
| replaced_nil : replaced r repl [] []
| replaced_keep c s out :
    replaced r repl s out → replaced r repl (c :: s) (c :: out)
| replaced_match m s out :
    matches r m → replaced r repl s out → replaced r repl (m ++ s) (repl ++ out).

Section Gate.

(** The Unicode tables behind [\d], [\s] and [\w], and [str()],
    [str.lower]. *)
Variable is_digit : N → bool.
Variable is_space : N → bool.
Variable is_word : N → bool.
Variable to_str : pyval → pystr.
Variable lower : pystr → pystr.

Definition exactly (a : ascii) : Item := {| cls := is_chr a; lo := 1; hi := Some 1%nat |}.

Definition phone_class (c : N) : bool :=
  is_digit c || is_space c || is_chr "-" c || is_chr "(" c || is_chr ")" c.
Definition local_class (c : N) : bool :=
  is_word c || is_chr "." c || is_chr "-" c || is_chr "+" c.
Definition domain_class (c : N) : bool :=
  is_word c || is_chr "." c || is_chr "-" c.

(** [(\+?\d[\d\s\-\(\)]{7,}\d)] *)
Definition _PHONE_RE : Pattern :=
  [ {| cls := is_chr "+"; lo := 0; hi := Some 1%nat |};
    {| cls := is_digit; lo := 1; hi := Some 1%nat |};
    {| cls := phone_class; lo := 7; hi := None |};
    {| cls := is_digit; lo := 1; hi := Some 1%nat |} ].

(** [[\w.\-+]+@[\w.\-]+\.\w{2,}] *)
Definition _EMAIL_RE : Pattern :=
  [ {| cls := local_class; lo := 1; hi := None |};
    exactly "@";
    {| cls := domain_class; lo := 1; hi := None |};
    exactly ".";
    {| cls := is_word; lo := 2; hi := None |} ].

Definition _scrub_text (text : pystr) : pystr :=
  let text := re_sub _PHONE_RE (py "[REDACTED-PHONE]") text in
  let text := re_sub _EMAIL_RE (py "[REDACTED-EMAIL]") text in
  text.

(** Neither pattern matches a substring of [s]. *)
Definition clean (s : pystr) : Prop := no_match _PHONE_RE s ∧ no_match _EMAIL_RE s.

(** [_scrub_text(v)]: [re] raises on anything but a string. *)
Definition scrub (v : pyval) : exn + pyval :=
  match v with
  | VStr s => inr (VStr (_scrub_text s))
  | _ => inl TypeError
  end.

(** The scalar fields: [safe[key] = _scrub_text(str(val))] when [val]. *)
Definition keep_scrubbed (payload : pydict) (safe : pydict) (key : pystr) : pydict :=
  let val := get_or_none key payload in
  if truthy val then dict_set key (VStr (_scrub_text (to_str val))) safe else safe.

Definition allowed_link_keys : list pystr :=
  [py "linkedin"; py "company_site"; py "twitter"; py "github";
   py "portfolio"; py "blog"; py "website"].

Definition is_string (v : pyval) : bool :=
  match v with VStr _ => true | _ => false end.

(** [x or dflt] *)
Definition or_else (x dflt : pyval) : pyval := if truthy x then x else dflt.

(** [raw_links.items()] *)
Definition items (v : pyval) : exn + pydict :=
  match v with
  | VDict kvs => inr kvs
  | _ => inl AttributeError
  end.

(** The dict comprehension over the links. *)
Definition keep_link (acc : pydict) (kv : pystr * pyval) : pydict :=
  if bool_decide (lower kv.1 ∈ allowed_link_keys) && is_string kv.2
  then dict_set kv.1 kv.2 acc else acc.

(** One entry of [safe_drafts]. *)
Definition safe_draft (d : pyval) : exn + pyval :=
  channel ← method_get d (py "channel") (VStr (py "unknown"));
  subj ← method_get d (py "subject") VNone;
  subject ← (if truthy subj then s ← subscript d (py "subject"); scrub s
             else inr VNone);
  b ← method_get d (py "body") (VStr (py ""));
  body ← scrub b;
  score ← method_get d (py "score") VNone;
  approved ← method_get d (py "approved") (VBool false);
  sent ← method_get d (py "sent") (VBool false);
  inr (VDict [(py "channel", channel); (py "subject", subject);
              (py "body", body); (py "score", score);
              (py "approved", approved); (py "sent", sent)]).

(** [sanitize_for_storage] *)
Definition sanitize_for_storage (payload : pydict) : exn + pydict :=
  let safe := foldl (keep_scrubbed payload) []
                [py "company"; py "role"; py "industry"] in
  raw_links ← items (or_else (get_or_none (py "links") payload) (VDict []));
  let safe := dict_set (py "links") (VDict (foldl keep_link [] raw_links)) safe in
  let safe :=
    if truthy (get_or_none (py "tone_json") payload)
    then dict_set (py "tone_json") (get_or_none (py "tone_json") payload) safe
    else safe in
  safe ← (if truthy (get_or_none (py "interests") payload)
          then xs ← iterate (get_or_none (py "interests") payload);
               inr (dict_set (py "interests") (VList ((λ i, VStr (to_str i)) <$> xs)) safe)
          else inr safe);
  let safe := keep_scrubbed payload safe (py "recent_activity") in
  let safe := keep_scrubbed payload safe (py "communication_style") in
  raw_drafts ← iterate (or_else (get_or_none (py "drafts") payload) (VList []));
  safe_drafts ← mapM safe_draft raw_drafts;
  inr (dict_set (py "drafts") (VList safe_drafts) safe).

End Gate.

(** The keys that the gate may store. *)
Definition stored_keys : list pystr :=
  [py "company"; py "role"; py "industry"; py "links"; py "tone_json";
   py "interests"; py "recent_activity"; py "communication_style"; py "drafts"].

Definition keys_in (d : pydict) : Prop := ∀ k, k ∈ dict_keys d → k ∈ stored_keys.

(** The free-text fields, which the gate scrubs. *)
Definition scrubbed_keys : list pystr :=
  [py "company"; py "role"; py "industry"; py "recent_activity";
   py "communication_style"].

(** The condition of the dict comprehension over the links. *)
Definition public_link (lower : pystr → pystr) (kv : pystr * pyval) : bool :=
  bool_decide (lower kv.1 ∈ allowed_link_keys) && is_string kv.2.

(** The payloads on which the gate does not raise: the links, when there
    are any, are a dict; the interests, when there are any, can be iterated
    over; the drafts, when there are any, are a list of dicts whose subject
    is empty or a string and whose body, when there is one, is a string. *)
Definition draft_ok (d : pyval) : bool :=
  match d with
  | VDict kvs =>
      match dict_get (py "subject") kvs with
      | Some v => negb (truthy v) || is_string v
      | None => true
      end
      && match dict_get (py "body") kvs with
         | Some v => is_string v
         | None => true
         end
  | _ => false
  end.

Definition payload_ok (payload : pydict) : bool :=
  (negb (truthy (get_or_none (py "links") payload))
   || match get_or_none (py "links") payload with VDict _ => true | _ => false end)
  && (negb (truthy (get_or_none (py "interests") payload))
      || match iterate (get_or_none (py "interests") payload) with
         | inr _ => true
         | inl _ => false
         end)
  && (negb (truthy (get_or_none (py "drafts") payload))
      || match get_or_none (py "drafts") payload with
         | VList ds => forallb draft_ok ds
         | _ => false
         end).

(** The drafts and the links of a payload. *)
Definition input_drafts (payload : pydict) : list pyval :=
  match get_or_none (py "drafts") payload with
  | VList ds => ds
  | _ => []
  end.

Definition input_links (payload : pydict) : pydict :=
  match get_or_none (py "links") payload with
  | VDict kvs => kvs
  | _ => []
  end.

(** A sample payload: a phone number and an address in a draft, a link
    that is kept and one that is not, and a key that is not stored. *)
Definition sample_payload : pydict :=
  [ (py "company", VStr (py "Acme"));
    (py "target_identifier", VStr (py "jo@acme.io"));
    (py "links", VDict [(py "LinkedIn", VStr (py "https://linkedin.com/in/jo"));
                        (py "home", VStr (py "https://jo.example"))]);
    (py "drafts",
     VList [ VDict [(py "channel", VStr (py "email"));
                    (py "subject", VStr (py "Hello"));
                    (py "body", VStr (py "Call +1 (555) 123-4567 or jo@acme.io"))];
             VDict [(py "channel", VStr (py "sms")); (py "body", VStr (py "Hi"))] ]) ].

(** A payload with contact details in its tone and its interests. *)
Definition sample_profile_payload : pydict :=
  [ (py "tone_json", VDict [(py "contact", VStr (py "jo@acme.io"))]);
    (py "interests", VList [VStr (py "calls at +1 (555) 123-4567")]) ].

(** A payload whose drafts are not a list of dicts. *)
Definition sample_bad_payload : pydict :=
  [ (py "company", VStr (py "Acme")); (py "drafts", VStr (py "Dear team")) ].

(** [str(val)], for the sample: the strings are themselves. *)
Definition sample_str (v : pyval) : pystr :=
  match v with
  | VStr s => s
  | _ => py "?"
  end.

End Sanitizer.

(** * Properties *)

(** ** Dictionaries *)

Lemma dict_get_set_eq {V} k (v : V) d : dict_get k (dict_set k v d) = Some v.
Proof.
  induction d as [|[k' v'] d IH]; simpl.
  - by rewrite decide_True.
  - destruct (decide (k' = k)) as [->|Hne]; simpl.
    + by rewrite decide_True.
    + by rewrite decide_False.
Qed.

Lemma dict_get_set_ne {V} k k' (v : V) d :
  k ≠ k' → dict_get k' (dict_set k v d) = dict_get k' d.
Proof.
  intros Hne. induction d as [|[k0 v0] d IH]; simpl.
  - by rewrite decide_False.
  - destruct (decide (k0 = k)) as [->|Hk0]; simpl.
    + by rewrite !decide_False.
    + destruct (decide (k0 = k')); [done | apply IH].
Qed.

Lemma dict_keys_set {V} k (v : V) d x :
  x ∈ dict_keys (dict_set k v d) ↔ x = k ∨ x ∈ dict_keys d.
Proof.
  unfold dict_keys. induction d as [|[k' v'] d IH]; simpl.
  - set_solver.
  - destruct (decide (k' = k)) as [->|Hne]; simpl.
    + set_solver.
    + rewrite !elem_of_cons, IH. naive_solver.
Qed.

Lemma dict_set_elem {V} k (v : V) d kv :
  kv ∈ dict_set k v d → kv = (k, v) ∨ kv ∈ d.
Proof.
  induction d as [|[k' v'] d IH]; simpl.
  - set_solver.
  - destruct (decide (k' = k)) as [->|Hne]; set_solver.
Qed.

Lemma mapM_inr {A B} (f : A → exn + B) l l' :
  mapM f l = inr l' → Forall2 (λ x y, f x = inr y) l l'.
Proof.
  revert l'. induction l as [|x l IH]; intros l'; simpl.
  - intros H. inversion H. constructor.
  - unfold mbind, exn_bind. destruct (f x) as [err|y] eqn:Hx; [done|].
    destruct (mapM f l) as [err|k]; [done|].
    intros H. inversion H; subst. constructor; [done | by apply IH].
Qed.

Lemma mapM_total {A B} (f : A → exn + B) (R : A → B → Prop) l :
  Forall (λ x, ∃ y, f x = inr y ∧ R x y) l →
  ∃ l', mapM f l = inr l' ∧ Forall2 R l l'.
Proof.
  induction 1 as [|x l (y & Hy & HR) _ (l' & Hl' & IH)]; simpl.
  - exists []. split; [done | constructor].
  - exists (y :: l'). unfold mbind, exn_bind in *. rewrite Hy, Hl'.
    split; [done | by constructor].
Qed.

Lemma mapM_inl {A B} (f : A → exn + B) l e :
  mapM f l = inl e → ∃ x, x ∈ l ∧ f x = inl e.
Proof.
  induction l as [|x l IH]; simpl; [done|].
  unfold mbind, exn_bind in *. destruct (f x) as [err|y] eqn:Hx.
  - intros [= ->]. exists x. split; [set_solver|done].
  - destruct (mapM f l) as [err|k]; [|done].
    intros [= ->]. destruct IH as (x' & Hin & Hx'); [done|].
    exists x'. split; [set_solver|done].
Qed.

Lemma dict_set_fresh {V} k (v : V) d :
  k ∉ dict_keys d → dict_set k v d = d ++ [(k, v)].
Proof.
  unfold dict_keys. induction d as [|[k' v'] d IH]; simpl; [done|].
  intros Hk. rewrite decide_False by set_solver. f_equal. apply IH. set_solver.
Qed.

(** ** The registry *)

Module StateManagerFacts.
Import StateManager.

Lemma initial_stages_lookup s :
  s ∈ pipeline_stages → initial_stages !! s = Some pending_entry.
Proof.
  intros Hs. unfold initial_stages.
  apply elem_of_list_to_map_1.
  - apply (bool_decide_unpack _). vm_compute. exact I.
  - apply list_elem_of_fmap. by exists s.
Qed.





(** C7.  For an identifier that is not in the registry [update_stage]
    changes nothing: no record, no subscription, no queue, and no broadcast
    is scheduled.  For one that is, the named stage entry becomes the new
    status and message, every other stage entry and every other field of
    the record but [current_stage] stay, [current_stage] becomes the stage,
    the other campaigns stay, and exactly one "stage_update" broadcast for
    this campaign is scheduled. *)
Theorem update_stage_spec t_entry t_event cid stage status message sm :
  let sm' := update_stage t_entry t_event cid stage status message sm in
  match campaigns sm !! cid with
  | None => sm' = sm
  | Some c =>
      (∃ c', campaigns sm' !! cid = Some c' ∧
             c_stages c' !! stage =
               Some {| se_status := status; se_message := message;
                       se_timestamp := Some t_entry |} ∧
             (∀ s, s ≠ stage → c_stages c' !! s = c_stages c !! s) ∧
             c_current_stage c' = stage ∧
             c_id c' = c_id c ∧ c_status c' = c_status c ∧
             c_input c' = c_input c ∧ c_state c' = c_state c ∧
             c_created_at c' = c_created_at c ∧ c_error c' = c_error c) ∧
      (∀ other, other ≠ cid → campaigns sm' !! other = campaigns sm !! other) ∧
      event_queues sm' = event_queues sm ∧
      queues sm' = queues sm ∧
      tasks sm' =
        tasks sm ++ [(cid, {| ev_type := py "stage_update"; ev_stage := stage;
                              ev_status := status; ev_message := message;
                              ev_timestamp := t_event |})]
  end.
Proof.
  unfold update_stage. destruct (campaigns sm !! cid) as [c|] eqn:Hc; simpl.
  - split_and!; try done.
    + eexists. split; [apply lookup_insert_eq|]. simpl. split_and!; try done.
      * apply lookup_insert_eq.
      * intros s Hs. by rewrite lookup_insert_ne.
    + intros other Hne. by rewrite lookup_insert_ne.
  - done.
Qed.

(** C3, as the code has it.  For an identifier in the registry
    [update_state] stores the new snapshot in place of the old one and sets
    the campaign's status to the snapshot's "status" entry when it has one,
    and to "running" when it has none. *)
Theorem update_state_spec cid state sm c :
  campaigns sm !! cid = Some c →
  ∃ c', campaigns (update_state cid state sm) !! cid = Some c' ∧
        c_state c' = state ∧
        c_status c' = match dict_get (py "status") state with
                      | Some v => v
                      | None => VStr (py "running")
                      end.
Proof.
  intros Hc. unfold update_state. rewrite Hc. simpl.
  eexists. split; [apply lookup_insert_eq|]. simpl. split; [done|].
  by destruct (dict_get (py "status") state).
Qed.

Lemma update_state_spec_witness :
  ∃ c', campaigns (update_state (py "c-1") [(py "status", VStr (py "persisted"))]
                     (create_campaign (py "c-1") 0 VNone init).2) !! py "c-1" = Some c' ∧
        c_state c' = [(py "status", VStr (py "persisted"))] ∧
        c_status c' = VStr (py "persisted").
Proof.
  eapply (update_state_spec (py "c-1") [(py "status", VStr (py "persisted"))]
            (create_campaign (py "c-1") 0 VNone init).2).
  reflexivity.
Defined.

(** C3, as the specification states it, fails: a campaign with status "created" and a
    snapshot without a "status" entry; the status does not stay, it
    becomes "running". *)
Lemma update_state_without_status_counterexample :
  let sm := (create_campaign (py "c-1") 0 VNone init).2 in
  let snapshot : pydict := [(py "company", VStr (py "Acme"))] in
  dict_get (py "status") snapshot = None ∧
  c_status <$> campaigns sm !! py "c-1" = Some (VStr (py "created")) ∧
  c_status <$> campaigns (update_state (py "c-1") snapshot sm) !! py "c-1"
    = Some (VStr (py "running")) ∧
  c_status <$> campaigns (update_state (py "c-1") snapshot sm) !! py "c-1"
    ≠ c_status <$> campaigns sm !! py "c-1".
Proof. vm_compute. split_and!; try reflexivity. discriminate. Qed.

(** *** Delivery order *)

Lemma pending_app cid ts1 ts2 :
  pending cid (ts1 ++ ts2) = pending cid ts1 ++ pending cid ts2.
Proof.
  induction ts1 as [|[c e] ts1 IH]; simpl; [done|].
  destruct (decide (c = cid)); simpl; by rewrite IH.
Qed.

Lemma list_remove_subseteq x l : list_remove x l ⊆ l.
Proof.
  induction l as [|y l IH]; simpl; [done|].
  destruct (decide (y = x)); set_solver.
Qed.

Lemma list_remove_NoDup x l : NoDup l → NoDup (list_remove x l).
Proof.
  induction 1 as [|y l Hy Hl IH]; simpl; [constructor|].
  destruct (decide (y = x)); [done|].
  constructor; [|done]. intros Hin. apply Hy. by apply list_remove_subseteq in Hin.
Qed.

Lemma puts_lookup_notin e hs qs q :
  q ∉ hs → foldl (queue_put e) qs hs !! q = qs !! q.
Proof.
  revert qs. induction hs as [|h hs IH]; intros qs Hq; simpl; [done|].
  rewrite IH by set_solver. unfold queue_put.
  apply lookup_insert_ne. set_solver.
Qed.

Lemma puts_lookup_in e hs qs q :
  NoDup hs → q ∈ hs →
  foldl (queue_put e) qs hs !! q = Some (default [] (qs !! q) ++ [e]).
Proof.
  revert qs. induction hs as [|h hs IH]; intros qs Hnd Hq; simpl.
  - by apply elem_of_nil in Hq.
  - apply NoDup_cons in Hnd as [Hh Hnd].
    apply elem_of_cons in Hq as [->|Hq].
    + rewrite puts_lookup_notin by done. unfold queue_put. apply lookup_insert_eq.
    + rewrite IH by done. unfold queue_put at 1.
      rewrite lookup_insert_ne; [done|]. intros ->. done.
Qed.

Lemma broadcast_queues cid e sm :
  queues (_broadcast_event cid e sm)
    = foldl (queue_put e) (queues sm) (handles cid sm) ∧
  event_queues (_broadcast_event cid e sm) = event_queues sm ∧
  tasks (_broadcast_event cid e sm) = tasks sm ∧
  next_queue (_broadcast_event cid e sm) = next_queue sm.
Proof.
  unfold _broadcast_event, handles.
  destruct (event_queues sm !! cid); simpl; done.
Qed.

Lemma Ordered_init : Ordered (λ _, []) init.
Proof.
  split; unfold handles; simpl; intros.
  - by exists [].
  - rewrite lookup_empty in H. by apply elem_of_nil in H.
  - rewrite lookup_empty in H. by apply elem_of_nil in H.
  - rewrite lookup_empty. constructor.
  - rewrite lookup_empty in H. by apply elem_of_nil in H.
Qed.

Lemma Ordered_ext pub pub' sm :
  (∀ c, pub' c = pub c) → Ordered pub sm → Ordered pub' sm.
Proof.
  intros Heq [H1 H2 H3 H4 H5]. split; try done.
  - intros c. rewrite Heq. apply H1.
  - intros c q Hq. rewrite Heq. by apply H2.
Qed.

Lemma Ordered_create pub sm uuid now input_data :
  Ordered pub sm → Ordered pub (create_campaign uuid now input_data sm).2.
Proof.
  intros [H1 H2 H3 H4 H5].
  assert (Hsub : ∀ c q,
    q ∈ handles c (create_campaign uuid now input_data sm).2 → q ∈ handles c sm).
  { intros c q. unfold handles. simpl.
    destruct (decide (uuid = c)) as [->|Hne].
    - rewrite lookup_insert_eq. simpl. intros Hq. by apply elem_of_nil in Hq.
    - by rewrite lookup_insert_ne. }
  split; simpl.
  - apply H1.
  - intros c q Hq. apply Hsub in Hq. by apply H2.
  - intros c q Hq. apply Hsub in Hq. by apply (H3 c).
  - intros c. unfold handles. simpl.
    destruct (decide (uuid = c)) as [->|Hne].
    + rewrite lookup_insert_eq. constructor.
    + rewrite lookup_insert_ne by done. apply H4.
  - intros c c' q Hq Hq'. apply Hsub in Hq, Hq'. by apply (H5 c c' q).
Qed.

Lemma Ordered_update_stage pub sm t1 t2 cid stage status message :
  Ordered pub sm →
  Ordered (λ c, pub c ++ publishes c (OpUpdateStage t1 t2 cid stage status message) sm)
    (update_stage t1 t2 cid stage status message sm).
Proof.
  intros [H1 H2 H3 H4 H5]. unfold update_stage, publishes.
  destruct (campaigns sm !! cid) as [c0|] eqn:Hc0.
  - split; unfold handles, queue_items in *; simpl.
    + intros c. destruct (H1 c) as [d Hd]. exists d.
      rewrite pending_app, Hd. simpl.
      destruct (decide (cid = c)); simpl; by rewrite <- ?app_assoc.
    + intros c q Hq. destruct (H2 c q Hq) as [b Hb]. exists b.
      rewrite pending_app, Hb. simpl.
      destruct (decide (cid = c)); simpl; by rewrite <- ?app_assoc.
    + done.
    + done.
    + done.
  - apply (Ordered_ext pub); [|by split].
    intros c. destruct (decide (cid = c)); by rewrite app_nil_r.
Qed.

Lemma Ordered_update_state pub sm cid state :
  Ordered pub sm → Ordered pub (update_state cid state sm).
Proof.
  intros H. unfold update_state. destruct (campaigns sm !! cid); [|done].
  destruct H as [H1 H2 H3 H4 H5]. by split.
Qed.

Lemma Ordered_subscribe pub sm cid :
  Ordered pub sm → Ordered pub (subscribe cid sm).2.
Proof.
  intros [H1 H2 H3 H4 H5].
  set (n := next_queue sm).
  assert (Hh : ∀ c q, q ∈ handles c (subscribe cid sm).2 →
                      q ∈ handles c sm ∨ (c = cid ∧ q = n)).
  { intros c q. unfold handles at 1. simpl.
    destruct (decide (cid = c)) as [->|Hne].
    - rewrite lookup_insert_eq. simpl. fold (handles c sm).
      rewrite elem_of_app, list_elem_of_singleton. naive_solver.
    - rewrite lookup_insert_ne by done. naive_solver. }
  assert (Hold : ∀ c q, q ∈ handles c sm → q ≠ n).
  { intros c q Hq. apply H3 in Hq. unfold n. lia. }
  split; simpl.
  - apply H1.
  - intros c q Hq. unfold queue_items. simpl. fold n.
    destruct (Hh c q Hq) as [Hq'|[-> ->]].
    + rewrite lookup_insert_ne by (apply not_eq_sym; by eapply Hold).
      by apply H2.
    + rewrite lookup_insert_eq. simpl. apply H1.
  - intros c q Hq. destruct (Hh c q Hq) as [Hq'|[-> ->]].
    + apply H3 in Hq'. lia.
    + unfold n. lia.
  - intros c. unfold handles. simpl.
    destruct (decide (cid = c)) as [->|Hne].
    + rewrite lookup_insert_eq. simpl. fold (handles c sm). fold n.
      apply NoDup_app. split_and!; [apply H4| |apply NoDup_singleton].
      intros q Hq Hn. apply list_elem_of_singleton in Hn. by eapply Hold.
    + rewrite lookup_insert_ne by done. apply H4.
  - intros c c' q Hq Hq'.
    destruct (Hh c q Hq) as [Hq1|[Hc Hn1]], (Hh c' q Hq') as [Hq2|[Hc' Hn2]].
    + by apply (H5 c c' q).
    + by apply Hold in Hq1.
    + by apply Hold in Hq2.
    + congruence.
Qed.

Lemma Ordered_unsubscribe pub sm cid q0 :
  Ordered pub sm → Ordered pub (unsubscribe cid q0 sm).
Proof.
  intros H. unfold unsubscribe.
  destruct (event_queues sm !! cid) as [hs|] eqn:Hhs; [|done].
  destruct H as [H1 H2 H3 H4 H5].
  assert (Hsub : ∀ c q,
    q ∈ default [] (<[cid := list_remove q0 hs]> (event_queues sm) !! c) →
    q ∈ handles c sm).
  { intros c q. unfold handles.
    destruct (decide (cid = c)) as [->|Hne].
    - rewrite lookup_insert_eq, Hhs. simpl. apply list_remove_subseteq.
    - by rewrite lookup_insert_ne. }
  split; unfold handles, queue_items; simpl.
  - apply H1.
  - intros c q Hq. apply Hsub in Hq. by apply H2.
  - intros c q Hq. apply Hsub in Hq. by apply (H3 c).
  - intros c. destruct (decide (cid = c)) as [->|Hne].
    + rewrite lookup_insert_eq. simpl. apply list_remove_NoDup.
      specialize (H4 c). unfold handles in H4. by rewrite Hhs in H4.
    + rewrite lookup_insert_ne by done. apply H4.
  - intros c c' q Hq Hq'. apply Hsub in Hq, Hq'. by apply (H5 c c' q).
Qed.

Lemma Ordered_run_task pub sm :
  Ordered pub sm → Ordered pub (run_task sm).
Proof.
  intros H. unfold run_task.
  destruct (tasks sm) as [|[c0 e] rest] eqn:Hts; [done|].
  destruct H as [H1 H2 H3 H4 H5].
  set (sm0 := {| campaigns := campaigns sm; event_queues := event_queues sm;
                 queues := queues sm; next_queue := next_queue sm;
                 tasks := rest |}).
  destruct (broadcast_queues c0 e sm0) as (Hq & Heq & Ht & Hn).
  assert (Hh : ∀ c, handles c (_broadcast_event c0 e sm0) = handles c sm).
  { intros c. unfold handles. by rewrite Heq. }
  split.
  - intros c. rewrite Ht. simpl. destruct (H1 c) as [d Hd].
    rewrite Hts in Hd. simpl in Hd.
    destruct (decide (c0 = c)).
    + exists (d ++ [e]). by rewrite <- app_assoc.
    + by exists d.
  - intros c q Hin. rewrite Hh in Hin. rewrite Ht. simpl.
    destruct (H2 c q Hin) as [b Hb]. rewrite Hts in Hb. simpl in Hb.
    exists b. unfold queue_items. rewrite Hq.
    change (handles c0 sm0) with (handles c0 sm).
    change (queues sm0) with (queues sm).
    destruct (decide (c0 = c)) as [->|Hne].
    + rewrite puts_lookup_in by (apply H4 || done). simpl.
      rewrite Hb. unfold queue_items. by rewrite <- !app_assoc.
    + rewrite puts_lookup_notin; [done|].
      intros Hin0. apply Hne. by apply (H5 c0 c q).
  - intros c q Hin. rewrite Hh in Hin. rewrite Hn. by apply (H3 c).
  - intros c. rewrite Hh. apply H4.
  - intros c c' q. rewrite !Hh. apply H5.
Qed.

Lemma Ordered_step pub sm o :
  Ordered pub sm → Ordered (λ c, pub c ++ publishes c o sm) (step o sm).
Proof.
  intros H. destruct o; simpl;
    try (apply (Ordered_ext pub); [intros c; apply app_nil_r|]).
  - by apply Ordered_create.
  - by apply Ordered_update_stage.
  - by apply Ordered_update_state.
  - by apply Ordered_subscribe.
  - by apply Ordered_unsubscribe.
  - by apply Ordered_run_task.
Qed.

Lemma Ordered_run ops pub sm :
  Ordered pub sm → Ordered (λ c, pub c ++ published c ops sm) (run ops sm).
Proof.
  revert pub sm. induction ops as [|o ops IH]; intros pub sm H; simpl.
  - apply (Ordered_ext pub); [intros c; apply app_nil_r | done].
  - apply (Ordered_ext (λ c, (pub c ++ publishes c o sm)
                              ++ published c ops (step o sm))).
    + intros c. by rewrite app_assoc.
    + apply IH. by apply Ordered_step.
Qed.

(** C8.  After any sequence of operations on a new manager, a queue
    subscribed to a campaign holds a contiguous run of the events published
    for that campaign, in publish order, and the events that follow that run
    are exactly those whose broadcast is still scheduled: nothing is
    delivered out of order, twice, or skipped.  Nothing is stated across
    campaigns. *)
Theorem delivery_in_publish_order ops cid q :
  q ∈ handles cid (run ops init) →
  ∃ before,
    published cid ops init
      = before ++ queue_items q (run ops init)
               ++ pending cid (tasks (run ops init)).
Proof.
  intros Hq.
  destruct (Ordered_run ops (λ _, []) init Ordered_init) as [_ H2 _ _ _].
  destruct (H2 cid q Hq) as [b Hb]. exists b. exact Hb.
Qed.

Lemma delivery_in_publish_order_witness :
  ∃ before,
    published (py "c-1") sample_ops init
      = before ++ queue_items 1 (run sample_ops init)
               ++ pending (py "c-1") (tasks (run sample_ops init)).
Proof.
  apply (delivery_in_publish_order sample_ops (py "c-1") 1%nat).
  apply (bool_decide_unpack _). vm_compute. exact I.
Defined.

(** In the sample run the first subscriber has both events, in publish
    order, and the late one has the second only. *)
Example sample_run_queues :
  ev_status <$> published (py "c-1") sample_ops init = [py "running"; py "completed"] ∧
  ev_status <$> queue_items 0 (run sample_ops init) = [py "running"; py "completed"] ∧
  ev_status <$> queue_items 1 (run sample_ops init) = [py "completed"].
Proof. vm_compute. done. Qed.

(** *** Subscriptions *)

Lemma list_remove_notin x (l : list nat) : x ∉ l → list_remove x l = l.
Proof.
  induction l as [|y l IH]; simpl; [done|]. intros Hx.
  destruct (decide (y = x)) as [->|Hne]; [set_solver|].
  f_equal. apply IH. set_solver.
Qed.

Lemma list_remove_last x (l : list nat) : x ∉ l → list_remove x (l ++ [x]) = l.
Proof.
  induction l as [|y l IH]; simpl; intros Hx.
  - by rewrite decide_True.
  - rewrite decide_False by set_solver. f_equal. apply IH. set_solver.
Qed.

Lemma list_remove_gone x (l : list nat) : NoDup l → x ∉ list_remove x l.
Proof.
  induction 1 as [|y l Hy Hl IH]; simpl; [set_solver|].
  destruct (decide (y = x)) as [->|Hne]; [done|]. set_solver.
Qed.

Lemma Ordered_reachable ops :
  Ordered (λ c, [] ++ published c ops init) (run ops init).
Proof. apply Ordered_run, Ordered_init. Qed.

(** Unsubscribing a queue that is not subscribed to the campaign, or from
    a campaign that has no subscriber list, changes nothing in the
    manager. *)
Theorem unsubscribe_absent cid q sm :
  q ∉ handles cid sm → unsubscribe cid q sm = sm.
Proof.
  unfold handles, unsubscribe. intros Hq.
  destruct (event_queues sm !! cid) as [hs|] eqn:Hhs; simpl in Hq; [|done].
  rewrite list_remove_notin by done. rewrite insert_id by done.
  by destruct sm.
Qed.

Lemma unsubscribe_absent_witness :
  unsubscribe (py "c-1") 7 (run sample_ops init) = run sample_ops init.
Proof.
  apply (unsubscribe_absent (py "c-1") 7%nat (run sample_ops init)).
  apply (bool_decide_unpack _). vm_compute. exact I.
Defined.

(** In every state the manager can reach, subscribing and then
    unsubscribing the queue just obtained restores every campaign's
    subscriber list. *)
Theorem subscribe_unsubscribe ops cid c :
  handles c (unsubscribe cid (subscribe cid (run ops init)).1
               (subscribe cid (run ops init)).2)
  = handles c (run ops init).
Proof.
  destruct (Ordered_reachable ops) as [_ _ Halloc _ _].
  set (sm := run ops init) in *.
  assert (Hfresh : next_queue sm ∉ handles cid sm).
  { intros Hin. apply Halloc in Hin. lia. }
  unfold unsubscribe, subscribe. cbn [fst snd event_queues].
  rewrite lookup_insert_eq. unfold handles at 1. cbn [event_queues].
  fold (handles cid sm). rewrite list_remove_last by done.
  rewrite insert_insert_eq.
  destruct (decide (cid = c)) as [->|Hne].
  - by rewrite lookup_insert_eq.
  - by rewrite lookup_insert_ne.
Qed.

(** A queue that no campaign's subscriber list holds, and that was
    handed out before, gets nothing any more. *)
Lemma detached_stays q sm o :
  (∀ c, q ∉ handles c sm) → (q < next_queue sm)%nat →
  (∀ c, q ∉ handles c (step o sm)) ∧ (q < next_queue (step o sm))%nat ∧
  queue_items q (step o sm) = queue_items q sm.
Proof.
  intros Hout Hlt. destruct o as [uuid now inp|t1 t2 c0 st sts msg|c0 state|c0|c0 q0|];
    simpl.
  - split_and!; [|done|done]. intros c. unfold handles. simpl.
    destruct (decide (uuid = c)) as [->|Hne].
    + rewrite lookup_insert_eq. set_solver.
    + rewrite lookup_insert_ne by done. apply Hout.
  - unfold update_stage. destruct (campaigns sm !! c0); by split_and!.
  - unfold update_state. destruct (campaigns sm !! c0); by split_and!.
  - split_and!.
    + intros c. unfold handles. simpl. destruct (decide (c0 = c)) as [->|Hne].
      * rewrite lookup_insert_eq. simpl. fold (handles c sm).
        rewrite elem_of_app, list_elem_of_singleton.
        intros [Hin| ->]; [by apply (Hout c) | lia].
      * rewrite lookup_insert_ne by done. apply Hout.
    + lia.
    + unfold queue_items. simpl. rewrite lookup_insert_ne by lia. done.
  - unfold unsubscribe. destruct (event_queues sm !! c0) as [hs|] eqn:Hhs;
      [|by split_and!].
    split_and!; [|done|done]. intros c. unfold handles. simpl.
    destruct (decide (c0 = c)) as [->|Hne].
    + rewrite lookup_insert_eq. simpl. intros Hin.
      apply list_remove_subseteq in Hin. apply (Hout c). unfold handles.
      by rewrite Hhs.
    + rewrite lookup_insert_ne by done. apply Hout.
  - unfold run_task. destruct (tasks sm) as [|[c0 e] rest]; [by split_and!|].
    set (sm0 := {| campaigns := campaigns sm; event_queues := event_queues sm;
                   queues := queues sm; next_queue := next_queue sm;
                   tasks := rest |}).
    destruct (broadcast_queues c0 e sm0) as (Hq & Heq & Ht & Hn).
    split_and!.
    + intros c. unfold handles. rewrite Heq. apply Hout.
    + by rewrite Hn.
    + unfold queue_items. rewrite Hq. rewrite puts_lookup_notin; [done|].
      apply (Hout c0).
Qed.

Lemma detached_run q ops sm :
  (∀ c, q ∉ handles c sm) → (q < next_queue sm)%nat →
  queue_items q (run ops sm) = queue_items q sm.
Proof.
  revert sm. induction ops as [|o ops IH]; intros sm Hout Hlt; simpl; [done|].
  destruct (detached_stays q sm o Hout Hlt) as (Hout' & Hlt' & Heq).
  rewrite IH by done. done.
Qed.

(** Once a subscriber of a campaign has unsubscribed, nothing the manager
    does afterwards puts an event into its queue. *)
Theorem unsubscribed_gets_nothing ops cid q ops' :
  q ∈ handles cid (run ops init) →
  queue_items q (run ops' (unsubscribe cid q (run ops init)))
  = queue_items q (run ops init).
Proof.
  intros Hq. destruct (Ordered_reachable ops) as [_ _ Halloc Hnodup Howner].
  set (sm := run ops init) in *.
  assert (Hhs : event_queues sm !! cid = Some (handles cid sm)).
  { unfold handles in *. destruct (event_queues sm !! cid); [done|].
    by apply elem_of_nil in Hq. }
  rewrite detached_run.
  - unfold unsubscribe. by rewrite Hhs.
  - intros c. unfold unsubscribe. rewrite Hhs. unfold handles at 1. simpl.
    destruct (decide (cid = c)) as [->|Hne].
    + rewrite lookup_insert_eq. simpl. apply list_remove_gone, Hnodup.
    + rewrite lookup_insert_ne by done. intros Hin. apply Hne.
      by apply (Howner cid c q).
  - unfold unsubscribe. rewrite Hhs. simpl. by apply (Halloc cid).
Qed.

Lemma unsubscribed_gets_nothing_witness :
  queue_items 0 (run sample_ops_after (unsubscribe (py "c-1") 0 (run sample_ops_leave init)))
  = queue_items 0 (run sample_ops_leave init).
Proof.
  apply (unsubscribed_gets_nothing sample_ops_leave (py "c-1") 0%nat sample_ops_after).
  apply (bool_decide_unpack _). vm_compute. exact I.
Defined.

(** *** Complete delivery *)

(** One operation that leaves the subscription alone: the queue stays
    subscribed, and what it holds together with what is still scheduled
    grows by exactly what the operation publishes. *)
Lemma step_delivers pub sm cid q o :
  Ordered pub sm → q ∈ handles cid sm → keeps_subscription cid q [o] = true →
  q ∈ handles cid (step o sm) ∧
  queue_items q (step o sm) ++ pending cid (tasks (step o sm))
  = (queue_items q sm ++ pending cid (tasks sm)) ++ publishes cid o sm.
Proof.
  intros [_ _ Halloc Hnodup Howner] Hq Hkeep. simpl in Hkeep.
  rewrite andb_true_r in Hkeep.
  destruct o as [uuid now inp|t1 t2 c0 st sts msg|c0 state|c0|c0 q0|]; simpl.
  - apply negb_true_iff, bool_decide_eq_false in Hkeep.
    rewrite app_nil_r. split; [|done].
    unfold handles. simpl. by rewrite lookup_insert_ne.
  - unfold update_stage. destruct (decide (c0 = cid)) as [->|Hne].
    + destruct (campaigns sm !! cid); simpl.
      * split; [done|]. rewrite pending_app. simpl. rewrite decide_True by done.
        by rewrite app_assoc.
      * by rewrite app_nil_r.
    + rewrite app_nil_r. destruct (campaigns sm !! c0); simpl; [|done].
      split; [done|]. rewrite pending_app. simpl. rewrite decide_False by done.
      by rewrite app_nil_r.
  - rewrite app_nil_r. unfold update_state. by destruct (campaigns sm !! c0).
  - rewrite app_nil_r. split.
    + unfold handles. simpl. destruct (decide (c0 = cid)) as [->|Hne].
      * rewrite lookup_insert_eq. simpl. fold (handles cid sm). set_solver.
      * by rewrite lookup_insert_ne.
    + unfold queue_items. simpl. rewrite lookup_insert_ne; [done|].
      apply Halloc in Hq. lia.
  - rewrite app_nil_r. unfold unsubscribe.
    destruct (event_queues sm !! c0) as [hs|] eqn:Hhs; [|done].
    split; [|done]. unfold handles. simpl.
    destruct (decide (c0 = cid)) as [->|Hne].
    + rewrite lookup_insert_eq. simpl.
      assert (q0 ≠ q) as Hq0.
      { intros ->. rewrite !bool_decide_eq_true_2 in Hkeep by done. done. }
      unfold handles in Hq. rewrite Hhs in Hq. simpl in Hq.
      clear -Hq Hq0. induction hs as [|y hs IH]; simpl; [done|].
      destruct (decide (y = q0)) as [->|Hy]; set_solver.
    + by rewrite lookup_insert_ne.
  - rewrite app_nil_r. unfold run_task.
    destruct (tasks sm) as [|[c0 e] rest] eqn:Hts; [by rewrite Hts|].
    set (sm0 := {| campaigns := campaigns sm; event_queues := event_queues sm;
                   queues := queues sm; next_queue := next_queue sm;
                   tasks := rest |}).
    destruct (broadcast_queues c0 e sm0) as (Hqs & Heq & Ht & Hn).
    split.
    + unfold handles. by rewrite Heq.
    + rewrite Ht. unfold queue_items. rewrite Hqs. simpl.
      change (handles c0 sm0) with (handles c0 sm).
      destruct (decide (c0 = cid)) as [->|Hne].
      * rewrite puts_lookup_in by (apply Hnodup || done). simpl.
        by rewrite <- app_assoc.
      * rewrite puts_lookup_notin; [done|].
        intros Hin. apply Hne. by apply (Howner c0 cid q).
Qed.

Lemma run_delivers ops : ∀ pub sm cid q,
  Ordered pub sm → q ∈ handles cid sm → keeps_subscription cid q ops = true →
  queue_items q (run ops sm) ++ pending cid (tasks (run ops sm))
  = (queue_items q sm ++ pending cid (tasks sm)) ++ published cid ops sm.
Proof.
  induction ops as [|o ops IH]; intros pub sm cid q Hord Hq Hkeep; simpl.
  - by rewrite app_nil_r.
  - simpl in Hkeep. apply andb_true_iff in Hkeep as [Ho Hops].
    destruct (step_delivers pub sm cid q o Hord Hq) as [Hq' Heq].
    { simpl. by rewrite Ho. }
    rewrite (IH _ (step o sm) cid q (Ordered_step pub sm o Hord) Hq' Hops).
    by rewrite Heq, app_assoc.
Qed.

(** While a queue stays subscribed to a campaign it loses nothing and gets
    nothing twice: what it holds, followed by the events whose broadcast is
    still scheduled, is what it held and what was scheduled before,
    followed by the events published since. *)
Theorem subscriber_misses_nothing ops cid q ops' :
  q ∈ handles cid (run ops init) →
  keeps_subscription cid q ops' = true →
  queue_items q (run ops' (run ops init))
    ++ pending cid (tasks (run ops' (run ops init)))
  = (queue_items q (run ops init) ++ pending cid (tasks (run ops init)))
    ++ published cid ops' (run ops init).
Proof.
  intros Hq Hkeep. eapply run_delivers; [apply Ordered_reachable|done|done].
Qed.

Lemma subscriber_misses_nothing_witness :
  queue_items 1 (run (drop 6 sample_ops) (run (take 6 sample_ops) init))
    ++ pending (py "c-1") (tasks (run (drop 6 sample_ops) (run (take 6 sample_ops) init)))
  = (queue_items 1 (run (take 6 sample_ops) init)
     ++ pending (py "c-1") (tasks (run (take 6 sample_ops) init)))
    ++ published (py "c-1") (drop 6 sample_ops) (run (take 6 sample_ops) init).
Proof.
  apply (subscriber_misses_nothing (take 6 sample_ops) (py "c-1") 1%nat
           (drop 6 sample_ops)).
  - apply (bool_decide_unpack _). vm_compute. exact I.
  - vm_compute. reflexivity.
Defined.

(** *** The registry over a run *)

Lemma well_kept_step o sm : well_kept sm → well_kept (step o sm).
Proof.
  intros Hsm. destruct o as [uuid now inp|t1 t2 c0 st sts msg|c0 state|c0|c0 q0|];
    simpl; try done.
  - intros k c. simpl. destruct (decide (uuid = k)) as [->|Hne].
    + rewrite lookup_insert_eq. intros [= <-]. simpl. split; [done|].
      intros s Hs. rewrite initial_stages_lookup by done. by eexists.
    + rewrite lookup_insert_ne by done. apply Hsm.
  - unfold update_stage. destruct (campaigns sm !! c0) as [c1|] eqn:Hc1; [|done].
    intros k c. simpl. destruct (decide (c0 = k)) as [->|Hne].
    + rewrite lookup_insert_eq. intros [= <-]. simpl.
      destruct (Hsm k c1 Hc1) as [Hid Hst]. split; [done|].
      intros s Hs. destruct (decide (st = s)) as [->|Hs'].
      * rewrite lookup_insert_eq. by eexists.
      * rewrite lookup_insert_ne by done. by apply Hst.
    + rewrite lookup_insert_ne by done. apply Hsm.
  - unfold update_state. destruct (campaigns sm !! c0) as [c1|] eqn:Hc1; [|done].
    intros k c. simpl. destruct (decide (c0 = k)) as [->|Hne].
    + rewrite lookup_insert_eq. intros [= <-]. simpl. by apply Hsm.
    + rewrite lookup_insert_ne by done. apply Hsm.
  - unfold unsubscribe. by destruct (event_queues sm !! c0).
  - unfold run_task. destruct (tasks sm) as [|[c0 e] rest]; [done|].
    unfold _broadcast_event. simpl. by destruct (event_queues sm !! c0).
Qed.

(** Whatever is done to a new manager, every campaign in it is stored
    under the identifier in its own record and has an entry for each of the
    seven pipeline stages: stage entries are overwritten, never removed. *)
Theorem registry_well_kept ops k c :
  campaigns (run ops init) !! k = Some c →
  c_id c = k ∧ ∀ s, s ∈ pipeline_stages → is_Some (c_stages c !! s).
Proof.
  assert (H : ∀ sm, well_kept sm → well_kept (run ops sm)).
  { induction ops as [|o ops IH]; intros sm Hsm; simpl; [done|].
    by apply IH, well_kept_step. }
  apply H. intros k' c'. unfold init. simpl. by rewrite lookup_empty.
Qed.

Lemma registry_well_kept_witness :
  ∃ c, campaigns (run sample_ops init) !! py "c-1" = Some c ∧
       c_id c = py "c-1" ∧
       ∀ s, s ∈ pipeline_stages → is_Some (c_stages c !! s).
Proof.
  eexists. split; [vm_compute; reflexivity|].
  apply (registry_well_kept sample_ops (py "c-1")).
  vm_compute. reflexivity.
Defined.

(** *** Replaying the events *)

Lemma last_default {A} (a : A) l1 l2 :
  default (default a (last l1)) (last l2) = default a (last (l1 ++ l2)).
Proof. rewrite last_app. by destruct (last l2). Qed.

Lemma replay_step o sm k c :
  campaigns sm !! k = Some c → no_create k [o] = true →
  ∃ c', campaigns (step o sm) !! k = Some c' ∧
        stage_view c' = foldl apply_event (stage_view c) (publishes k o sm) ∧
        c_current_stage c'
          = default (c_current_stage c) (ev_stage <$> last (publishes k o sm)) ∧
        c_input c' = c_input c ∧ c_created_at c' = c_created_at c.
Proof.
  intros Hc Hno. simpl in Hno. rewrite andb_true_r in Hno.
  destruct o as [uuid now inp|t1 t2 c0 st sts msg|c0 state|c0|c0 q0|]; simpl.
  - apply negb_true_iff, bool_decide_eq_false in Hno.
    exists c. by rewrite lookup_insert_ne.
  - unfold update_stage. destruct (decide (c0 = k)) as [->|Hne].
    + rewrite Hc. simpl. rewrite lookup_insert_eq. eexists. split; [done|].
      split_and!; try done.
      unfold stage_view, apply_event. simpl. by rewrite fmap_insert.
    + destruct (campaigns sm !! c0); simpl.
      * exists c. by rewrite lookup_insert_ne.
      * by exists c.
  - unfold update_state. destruct (decide (c0 = k)) as [->|Hne].
    + rewrite Hc. simpl. rewrite lookup_insert_eq. eexists. by split.
    + destruct (campaigns sm !! c0); simpl.
      * exists c. by rewrite lookup_insert_ne.
      * by exists c.
  - by exists c.
  - exists c. unfold unsubscribe. by destruct (event_queues sm !! c0).
  - exists c. unfold run_task. destruct (tasks sm) as [|[c0 e] rest]; [done|].
    unfold _broadcast_event. simpl. by destruct (event_queues sm !! c0).
Qed.

(** The published events tell an observer the stage table.  As long as a
    campaign is not created anew, it stays in the registry with its input
    and creation time; the status and message of every stage are what the
    campaign's published events, applied in order to the statuses and
    messages at the start, give; and [current_stage] is the stage of the
    last of these events. *)
Theorem events_replay_stage_table ops : ∀ sm k c,
  campaigns sm !! k = Some c → no_create k ops = true →
  ∃ c', campaigns (run ops sm) !! k = Some c' ∧
        stage_view c' = foldl apply_event (stage_view c) (published k ops sm) ∧
        c_current_stage c'
          = default (c_current_stage c) (ev_stage <$> last (published k ops sm)) ∧
        c_input c' = c_input c ∧ c_created_at c' = c_created_at c.
Proof.
  induction ops as [|o ops IH]; intros sm k c Hc Hno; simpl.
  - by exists c.
  - simpl in Hno. apply andb_true_iff in Hno as [Ho Hops].
    destruct (replay_step o sm k c Hc) as (c1 & Hc1 & Hv1 & Hs1 & Hi1 & Ht1).
    { simpl. by rewrite Ho. }
    destruct (IH (step o sm) k c1 Hc1 Hops) as (c' & Hc' & Hv & Hs & Hi & Ht).
    exists c'. split_and!; [done| | |congruence|congruence].
    + by rewrite foldl_app, <- Hv1.
    + rewrite Hs, Hs1, <- !fmap_last, fmap_app.
      apply last_default.
Qed.

Lemma events_replay_stage_table_witness :
  ∃ c', campaigns (run (drop 1 sample_ops) (run (take 1 sample_ops) init)) !! py "c-1"
          = Some c' ∧
        stage_view c'
          = foldl apply_event
              ((λ e, (se_status e, se_message e)) <$> initial_stages)
              (published (py "c-1") (drop 1 sample_ops) (run (take 1 sample_ops) init)) ∧
        c_current_stage c'
          = default (py "pending")
              (ev_stage <$> last (published (py "c-1") (drop 1 sample_ops)
                                    (run (take 1 sample_ops) init))) ∧
        c_input c' = VNone ∧ c_created_at c' = 0.
Proof.
  apply (events_replay_stage_table (drop 1 sample_ops) (run (take 1 sample_ops) init)
           (py "c-1")
           {| c_id := py "c-1"; c_status := VStr (py "created");
              c_current_stage := py "pending"; c_input := VNone; c_state := [];
              c_created_at := 0; c_stages := initial_stages; c_error := None |}).
  - vm_compute. reflexivity.
  - vm_compute. reflexivity.
Defined.

End StateManagerFacts.

(** ** The workflow driver *)

Module WorkflowRunnerFacts.
Import StateManager WorkflowRunner.

Section Facts.

Variable utcnow : nat → Time.
Variable capitalize : pystr → pystr.

Lemma advances_refl cid d :
  is_Some (campaigns (d_sm d) !! cid) → advances cid d d [].
Proof. intros H. split; [done|]. exists []. by rewrite app_nil_r. Qed.

Lemma advances_trans cid d1 d2 d3 l1 l2 :
  advances cid d1 d2 l1 → advances cid d2 d3 l2 → advances cid d1 d3 (l1 ++ l2).
Proof.
  intros [_ (n1 & H1 & F1 & P1)] [Hc (n2 & H2 & F2 & P2)]. split; [done|].
  exists (n1 ++ n2). split_and!.
  - by rewrite H2, H1, app_assoc.
  - by apply Forall_app.
  - by rewrite fmap_app, P1, P2.
Qed.

Lemma advances_eq cid d d' l l' : advances cid d d' l → l = l' → advances cid d d' l'.
Proof. by intros H <-. Qed.

Lemma advances_reports cid d d' l : advances cid d d' l → reports d d' = l.
Proof.
  intros [_ (new & Ht & _ & Hl)]. unfold reports, new_tasks.
  by rewrite Ht, drop_app_length.
Qed.

Lemma report_advances cid stage status message d :
  is_Some (campaigns (d_sm d) !! cid) →
  advances cid d (report utcnow cid stage status message d) [(stage, status)].
Proof.
  intros [c Hc]. unfold advances, report, update_stage. simpl. rewrite Hc. simpl.
  split.
  - rewrite lookup_insert_eq. by eexists.
  - eexists. split; [reflexivity|]. split; [|done].
    by apply Forall_singleton.
Qed.

Lemma report_drafting cid stage status message d :
  d_drafting (report utcnow cid stage status message d) = d_drafting d.
Proof. done. Qed.

Lemma store_state_advances cid node_state d :
  is_Some (campaigns (d_sm d) !! cid) →
  advances cid d (store_state cid node_state d) [].
Proof.
  intros [c Hc]. unfold advances, store_state, update_state. simpl. rewrite Hc. simpl.
  split.
  - rewrite lookup_insert_eq. by eexists.
  - exists []. by rewrite app_nil_r.
Qed.

Lemma stage_of_approval : stage_of (py "approval") ≠ py "drafting".
Proof. vm_compute. discriminate. Qed.

(** The nodes of one event, all of them draft nodes. *)
Lemma process_nodes_drafting cid event items d :
  is_Some (campaigns (d_sm d) !! cid) →
  Forall (λ kv : pystr * pydict, stage_of kv.1 = py "drafting") items →
  items ≠ [] →
  let r := process_nodes utcnow capitalize cid event items d in
  r.1 = false ∧ d_drafting r.2 = true ∧
  advances cid d r.2
    ((if d_drafting d then [] else [(py "drafting", py "running")])
     ++ replicate (if dict_has (py "draft_instagram") event then length items else 0%nat)
          (py "drafting", py "completed")).
Proof.
  revert d. induction items as [|[node st] items IH]; intros d Hc Hall Hne; [done|].
  apply Forall_cons in Hall as [Hnode Hall]. simpl in Hnode.
  cbn [process_nodes]. rewrite Hnode.
  assert (bool_decide (node = py "approval") = false) as ->.
  { apply bool_decide_eq_false. intros ->. by apply stage_of_approval. }
  cbn [andb].
  set (d1 := mark_running utcnow cid (py "drafting") d).
  assert (H1 : d_drafting d1 = true ∧
               advances cid d d1
                 (if d_drafting d then [] else [(py "drafting", py "running")])).
  { unfold d1, mark_running. rewrite decide_True by done.
    destruct (d_drafting d) eqn:Hd.
    - split; [done|]. by apply advances_refl.
    - split; [done|].
      destruct (report_advances cid (py "drafting") (py "running")
                  (py "Generating personalized drafts for all channels...") d Hc)
        as [Hc' Hn].
      split; [done|]. exact Hn. }
  destruct H1 as [Hd1 Ha1].
  set (d2 := store_state cid st d1).
  assert (Ha2 : advances cid d1 d2 []) by (apply store_state_advances, Ha1).
  assert (Hd2 : d_drafting d2 = true) by done.
  set (d3 := mark_completed utcnow capitalize cid (py "drafting") event d2).
  assert (H3 : d_drafting d3 = true ∧
               advances cid d2 d3
                 (if dict_has (py "draft_instagram") event
                  then [(py "drafting", py "completed")] else [])).
  { unfold d3, mark_completed.
    rewrite bool_decide_eq_false_2 by (intros H; by apply H).
    rewrite bool_decide_eq_true_2 by done. cbn [orb andb].
    destruct (dict_has (py "draft_instagram") event).
    - split; [done|]. apply report_advances, Ha2.
    - split; [done|]. apply advances_refl, Ha2. }
  destruct H3 as [Hd3 Ha3].
  pose proof (advances_trans _ _ _ _ _ _ Ha1
                (advances_trans _ _ _ _ _ _ Ha2 Ha3)) as Ha.
  destruct items as [|it items].
  - cbn [process_nodes]. split_and!; [done|done|].
    eapply advances_eq; [exact Ha|].
    destruct (dict_has (py "draft_instagram") event); reflexivity.
  - destruct (IH d3) as (Hr1 & Hr2 & Hr3); [apply Ha3|done|done|].
    split_and!; [done|done|].
    eapply advances_eq; [exact (advances_trans _ _ _ _ _ _ Ha Hr3)|].
    rewrite Hd3.
    destruct (dict_has (py "draft_instagram") event); simpl.
    + by rewrite <- app_assoc.
    + by rewrite !app_nil_r.
Qed.

Lemma completions_cons (event : GraphEvent) events :
  completions (event :: events)
  = ((if dict_has (py "draft_instagram") event then length event else 0) + completions events)%nat.
Proof. done. Qed.

Lemma completions_cons_nil events : completions ([] :: events) = completions events.
Proof.
  rewrite completions_cons.
  by destruct (dict_has (py "draft_instagram") ([] : GraphEvent)).
Qed.

Lemma process_events_drafting cid events d :
  is_Some (campaigns (d_sm d) !! cid) →
  drafting_only events →
  let r := process_events utcnow capitalize cid events d in
  r.1 = false ∧
  ∃ l, advances cid d r.2 l ∧
       (d_drafting d = true →
          d_drafting r.2 = true ∧
          l = replicate (completions events) (py "drafting", py "completed")) ∧
       (d_drafting d = false →
          (Forall (λ event, event = []) events ∧ l = [] ∧ d_drafting r.2 = false) ∨
          (Exists (λ event, event ≠ []) events ∧ d_drafting r.2 = true ∧
           l = (py "drafting", py "running")
               :: replicate (completions events) (py "drafting", py "completed"))).
Proof.
  revert d. induction events as [|event events IH]; intros d Hc Hall.
  - simpl. split; [done|]. exists []. split_and!.
    + by apply advances_refl.
    + done.
    + intros Hd. left. by split_and!.
  - apply Forall_cons in Hall as [Hev Hall].
    destruct event as [|kv event'].
    + cbn [process_events process_nodes].
      destruct (IH d Hc Hall) as (Hr & l & Ha & Ht & Hf).
      split; [done|]. exists l. split_and!; [done| |].
      * intros Hd. destruct (Ht Hd) as [? ->]. split; [done|].
        by rewrite completions_cons_nil.
      * intros Hd. destruct (Hf Hd) as [(Hnil & -> & Hd')|(Hex & Hd' & ->)].
        -- left. split_and!; [by constructor|done|done].
        -- right. split_and!; [by apply Exists_cons_tl|done|].
           by rewrite completions_cons_nil.
    + destruct (process_nodes_drafting cid (kv :: event') (kv :: event') d Hc Hev)
        as (Hr1 & Hd1 & Ha1); [done|].
      cbn [process_events].
      destruct (process_nodes utcnow capitalize cid (kv :: event') (kv :: event') d)
        as [b d1] eqn:Hpn.
      simpl in Hr1, Hd1, Ha1. subst b.
      destruct (IH d1 (proj1 Ha1) Hall) as (Hr & l & Ha & Ht & _).
      destruct (Ht Hd1) as [Hd2 ->].
      split; [done|]. eexists. split; [exact (advances_trans _ _ _ _ _ _ Ha1 Ha)|].
      assert (Hcount : ∀ A (x : A),
        replicate (if dict_has (py "draft_instagram") (kv :: event')
                   then length (kv :: event') else 0%nat) x
        ++ replicate (completions events) x
        = replicate (completions ((kv :: event') :: events)) x).
      { intros A x. by rewrite completions_cons, replicate_add. }
      split.
      * intros Hd. split; [done|]. rewrite Hd. simpl. apply (Hcount _).
      * intros Hd. right. split_and!; [by apply Exists_cons_hd|done|].
        rewrite Hd. simpl. f_equal. apply (Hcount _).
Qed.

(** The reports of a stretch of draft nodes, however the nodes are
    grouped into events. *)
Lemma drafting_reports_grouped cid events d :
  is_Some (campaigns (d_sm d) !! cid) →
  d_drafting d = false →
  drafting_only events →
  Exists (λ event, event ≠ []) events →
  (process_events utcnow capitalize cid events d).1 = false ∧
  reports d (process_events utcnow capitalize cid events d).2
    = (py "drafting", py "running")
      :: replicate (completions events) (py "drafting", py "completed").
Proof.
  intros Hc Hd Hall Hex.
  destruct (process_events_drafting cid events d Hc Hall) as (Hr & l & Ha & _ & Hf).
  split; [done|]. rewrite (advances_reports _ _ _ _ Ha).
  destruct (Hf Hd) as [(Hnil & _)|(_ & _ & ->)]; [|done].
  exfalso. apply Exists_exists in Hex as (event & Hin & Hne).
  rewrite Forall_forall in Hnil. by apply Hne, Hnil.
Qed.

Lemma completions_one_node_each events :
  one_node_each events → completions events = instagram_events events.
Proof.
  induction 1 as [|event events Hone _ IH]; [done|].
  rewrite completions_cons, IH. unfold instagram_events at 2.
  rewrite fmap_cons. simpl. rewrite Hone. done.
Qed.

(** C4, as the code has it.  When the draft nodes yield one per event,
    for a campaign in the registry and starting with no drafting report
    open, the driver never pauses and schedules exactly one "running"
    report for the stage "drafting", first of all, followed by one
    "completed" report for that stage for every event of the node
    "draft_instagram", and by nothing else: the completion is tied to that
    node name. *)
Theorem drafting_reports cid events d :
  is_Some (campaigns (d_sm d) !! cid) →
  d_drafting d = false →
  drafting_only events →
  one_node_each events →
  events ≠ [] →
  (process_events utcnow capitalize cid events d).1 = false ∧
  reports d (process_events utcnow capitalize cid events d).2
    = (py "drafting", py "running")
      :: replicate (instagram_events events) (py "drafting", py "completed").
Proof.
  intros Hc Hd Hall Hone Hne.
  rewrite <- (completions_one_node_each events Hone).
  apply drafting_reports_grouped; try done.
  destruct events as [|event events]; [done|].
  apply Exists_cons_hd. apply Forall_cons in Hone as [Hone _].
  intros ->. done.
Qed.

Lemma status_not_running :
  py "waiting" ≠ py "running" ∧ py "completed" ≠ py "running"
  ∧ py "failed" ≠ py "running".
Proof. vm_compute. split_and!; discriminate. Qed.

Lemma running_of_nil nodes : running_of nodes [].
Proof. intros stage H. by apply elem_of_nil in H. Qed.

Lemma running_of_app nodes l1 l2 :
  running_of nodes l1 → running_of nodes l2 → running_of nodes (l1 ++ l2).
Proof.
  intros H1 H2 stage Hin. apply elem_of_app in Hin as [Hin|Hin]; eauto.
Qed.

Lemma running_of_mono nodes nodes' l :
  nodes ⊆ nodes' → running_of nodes l → running_of nodes' l.
Proof.
  intros Hsub H stage Hin. destruct (H stage Hin) as (kv & Hkv & ->).
  exists kv. split; [by apply Hsub | done].
Qed.

Lemma running_of_other nodes stage status :
  status ≠ py "running" → running_of nodes [(stage, status)].
Proof.
  intros Hne stage' Hin. apply list_elem_of_singleton in Hin.
  apply (f_equal snd) in Hin. cbn [snd] in Hin. by destruct Hne.
Qed.

Lemma mark_running_advances cid node st d :
  is_Some (campaigns (d_sm d) !! cid) →
  ∃ l, advances cid d (mark_running utcnow cid (stage_of node) d) l ∧
       running_of [(node, st)] l.
Proof.
  intros Hc. unfold mark_running.
  assert (Hone : running_of [(node, st)] [(stage_of node, py "running")]).
  { intros stage Hin. apply list_elem_of_singleton in Hin. inversion Hin; subst.
    exists (node, st). split; [apply list_elem_of_singleton|]; done. }
  destruct (decide (stage_of node = py "drafting")) as [Heq|Hne].
  - destruct (d_drafting d).
    + exists []. split; [by apply advances_refl | apply running_of_nil].
    + exists [(py "drafting", py "running")]. split.
      * destruct (report_advances cid (py "drafting") (py "running")
                    (py "Generating personalized drafts for all channels...") d Hc)
          as [Hc' Hn].
        split; [done|]. exact Hn.
      * by rewrite <- Heq.
  - exists [(stage_of node, py "running")]. split; [|done].
    destruct (report_advances cid (stage_of node) (py "running")
                (py "Processing " ++ stage_of node ++ py "...")
                (set_drafting false d) Hc) as [Hc' Hn].
    split; [done|]. exact Hn.
Qed.

Lemma mark_completed_advances cid stage event nodes d :
  is_Some (campaigns (d_sm d) !! cid) →
  ∃ l, advances cid d (mark_completed utcnow capitalize cid stage event d) l ∧
       running_of nodes l.
Proof.
  intros Hc. unfold mark_completed.
  destruct (_ || _).
  - exists [(stage, py "completed")]. split; [by apply report_advances|].
    apply running_of_other, status_not_running.
  - exists []. split; [by apply advances_refl | apply running_of_nil].
Qed.

Lemma process_nodes_advances cid event items d :
  is_Some (campaigns (d_sm d) !! cid) →
  ∃ l, advances cid d (process_nodes utcnow capitalize cid event items d).2 l ∧
       running_of items l.
Proof.
  revert d. induction items as [|[node st] items IH]; intros d Hc.
  - exists []. split; [by apply advances_refl | apply running_of_nil].
  - cbn [process_nodes].
    destruct (mark_running_advances cid node st d Hc) as (l1 & Ha1 & Hr1).
    set (d1 := mark_running utcnow cid (stage_of node) d) in *.
    pose proof (store_state_advances cid st d1 (proj1 Ha1)) as Ha2.
    set (d2 := store_state cid st d1) in *.
    assert (Hhead : [(node, st)] ⊆ (node, st) :: items) by set_solver.
    assert (Htail : items ⊆ (node, st) :: items) by set_solver.
    destruct (_ && _).
    + exists ((l1 ++ []) ++ [(py "approval", py "waiting")]). split.
      * eapply advances_trans; [exact (advances_trans _ _ _ _ _ _ Ha1 Ha2)|].
        apply report_advances, Ha2.
      * apply running_of_app; [apply running_of_app|].
        -- exact (running_of_mono _ _ _ Hhead Hr1).
        -- apply running_of_nil.
        -- apply running_of_other, status_not_running.
    + destruct (mark_completed_advances cid (stage_of node) event
                  ((node, st) :: items) d2 (proj1 Ha2)) as (l3 & Ha3 & Hr3).
      set (d3 := mark_completed utcnow capitalize cid (stage_of node) event d2) in *.
      destruct (IH d3 (proj1 Ha3)) as (l4 & Ha4 & Hr4).
      exists (((l1 ++ []) ++ l3) ++ l4). split.
      * eapply advances_trans; [|exact Ha4].
        eapply advances_trans; [|exact Ha3].
        exact (advances_trans _ _ _ _ _ _ Ha1 Ha2).
      * repeat apply running_of_app.
        -- exact (running_of_mono _ _ _ Hhead Hr1).
        -- apply running_of_nil.
        -- exact Hr3.
        -- exact (running_of_mono _ _ _ Htail Hr4).
Qed.

Lemma process_events_advances cid events d :
  is_Some (campaigns (d_sm d) !! cid) →
  ∃ l, advances cid d (process_events utcnow capitalize cid events d).2 l ∧
       running_of (mjoin events) l.
Proof.
  revert d. induction events as [|event events IH]; intros d Hc.
  - exists []. split; [by apply advances_refl | apply running_of_nil].
  - cbn [process_events]. change (mjoin (event :: events)) with (event ++ mjoin events).
    destruct (process_nodes_advances cid event event d Hc) as (l1 & Ha1 & Hr1).
    destruct (process_nodes utcnow capitalize cid event event d) as [b d1].
    simpl in Ha1.
    assert (Hhead : event ⊆ event ++ mjoin events) by set_solver.
    assert (Htail : mjoin events ⊆ event ++ mjoin events) by set_solver.
    destruct b.
    + exists l1. split; [done | exact (running_of_mono _ _ _ Hhead Hr1)].
    + destruct (IH d1 (proj1 Ha1)) as (l2 & Ha2 & Hr2).
      exists (l1 ++ l2). split; [exact (advances_trans _ _ _ _ _ _ Ha1 Ha2)|].
      apply running_of_app.
      * exact (running_of_mono _ _ _ Hhead Hr1).
      * exact (running_of_mono _ _ _ Htail Hr2).
Qed.

(** C5, as the code has it.  When the graph raises after the driver has
    processed the events yielded so far without pausing, and the campaign
    is in the registry, the driver ends in failure: the campaign's status
    is "failed", its error field holds the text of the exception, exactly
    one more report is scheduled and its status is "failed", and every
    stage that was reported "running" during the whole run is the stage of
    a node that had yielded its result. *)
Theorem failure_halts_campaign cid stream text d :
  is_Some (campaigns (d_sm d) !! cid) →
  raised stream = Some text →
  (process_events utcnow capitalize cid (yielded stream) d).1 = false →
  (drive utcnow capitalize cid stream d).1 = Failed ∧
  (∃ c', campaigns (d_sm (drive utcnow capitalize cid stream d).2) !! cid = Some c' ∧
         c_status c' = VStr (py "failed") ∧
         c_error c' = Some (VStr text)) ∧
  (reports (process_events utcnow capitalize cid (yielded stream) d).2
           (drive utcnow capitalize cid stream d).2).*2 = [py "failed"] ∧
  ∀ stage, (stage, py "running") ∈ reports d (drive utcnow capitalize cid stream d).2 →
    ∃ event node node_state,
      event ∈ yielded stream ∧ (node, node_state) ∈ event ∧ stage = stage_of node.
Proof.
  intros Hc Hraised Hrun. unfold drive.
  destruct (process_events_advances cid (yielded stream) d Hc) as (l & Ha & Hr).
  destruct (process_events utcnow capitalize cid (yielded stream) d) as [b d1].
  simpl in Hrun, Ha |- *. subst b. rewrite Hraised.
  unfold handle_failure, get_campaign.
  destruct (proj1 Ha) as [c1 Hc1]. rewrite Hc1. cbn [fst snd].
  pose proof (report_advances cid (c_current_stage c1) (py "failed") text d1
                (proj1 Ha)) as Hf.
  set (d2 := report utcnow cid (c_current_stage c1) (py "failed") text d1) in *.
  set (d3 := modify_campaign cid _ d2).
  assert (Ha3 : advances cid d2 d3 []).
  { split.
    - unfold d3, modify_campaign. cbn [d_sm campaigns]. rewrite lookup_alter_eq.
      destruct (proj1 Hf) as [c2 ->]. by eexists.
    - exists []. by rewrite app_nil_r. }
  split_and!.
  - done.
  - destruct (proj1 Hf) as [c2 Hc2].
    unfold d3, modify_campaign. cbn [d_sm campaigns].
    rewrite lookup_alter_eq, Hc2. simpl.
    eexists. split; [reflexivity|]. done.
  - pose proof (advances_trans _ _ _ _ _ _ Hf Ha3) as Hlast.
    by rewrite (advances_reports _ _ _ _ Hlast).
  - intros stage Hin.
    pose proof (advances_trans _ _ _ _ _ _ Ha (advances_trans _ _ _ _ _ _ Hf Ha3))
      as Hall.
    rewrite (advances_reports _ _ _ _ Hall) in Hin.
    apply elem_of_app in Hin as [Hin|Hin].
    + destruct (Hr stage Hin) as ([node st] & Hkv & ->).
      apply list_elem_of_join in Hkv as (event & Hkv & Hev).
      by exists event, node, st.
    + apply list_elem_of_singleton in Hin. exfalso.
      apply (f_equal snd) in Hin. cbn [snd] in Hin.
      destruct status_not_running as (_ & _ & Hne). by apply Hne.
Qed.

(** Which entry of the stage table the failure is written to: the one
    that [current_stage] names when the graph raises, that is the stage of
    the last node that yielded, or "pending" when none has. *)
Lemma failure_marks_current_stage cid stream text d c1 :
  raised stream = Some text →
  (process_events utcnow capitalize cid (yielded stream) d).1 = false →
  campaigns (d_sm (process_events utcnow capitalize cid (yielded stream) d).2) !! cid
    = Some c1 →
  ∃ c', campaigns (d_sm (drive utcnow capitalize cid stream d).2) !! cid = Some c' ∧
        c_current_stage c' = c_current_stage c1 ∧
        se_status <$> c_stages c' !! c_current_stage c1 = Some (py "failed") ∧
        ∀ s, s ≠ c_current_stage c1 → c_stages c' !! s = c_stages c1 !! s.
Proof.
  intros Hraised Hrun Hc1. unfold drive.
  destruct (process_events utcnow capitalize cid (yielded stream) d) as [b d1].
  simpl in Hrun, Hc1. subst b. rewrite Hraised.
  unfold handle_failure, get_campaign. rewrite Hc1. cbn [snd].
  unfold modify_campaign, report, update_stage. cbn [d_sm campaigns].
  rewrite Hc1. cbn [campaigns]. rewrite lookup_alter_eq, lookup_insert_eq. simpl.
  eexists. split; [reflexivity|]. simpl. split_and!.
  - done.
  - by rewrite lookup_insert_eq.
  - intros s Hs. by rewrite lookup_insert_ne.
Qed.

(** *** The other ways a run ends *)

Lemma process_events_app cid events1 events2 d :
  process_events utcnow capitalize cid (events1 ++ events2) d
  = if (process_events utcnow capitalize cid events1 d).1
    then process_events utcnow capitalize cid events1 d
    else process_events utcnow capitalize cid events2
           (process_events utcnow capitalize cid events1 d).2.
Proof.
  revert d. induction events1 as [|event events1 IH]; intros d; [done|].
  cbn [app process_events].
  destruct (process_nodes utcnow capitalize cid event event d) as [[|] d1]; [done|].
  apply IH.
Qed.

Lemma stage_of_approval_eq : stage_of (py "approval") = py "approval".
Proof. vm_compute. reflexivity. Qed.

Lemma approval_ne_drafting : py "approval" ≠ py "drafting".
Proof. vm_compute. discriminate. Qed.

(** The approval interrupt.  When the approval node yields a state with
    drafts, after events that did not pause the driver, the run pauses:
    whatever the graph would yield or raise afterwards plays no part; the
    last two reports are "running" and "waiting" for the stage "approval";
    and the campaign holds the node's state, with the stage "approval"
    waiting. *)
Theorem approval_pauses cid before state rest raises d c1 :
  (process_events utcnow capitalize cid before d).1 = false →
  campaigns (d_sm (process_events utcnow capitalize cid before d).2) !! cid = Some c1 →
  truthy (get_or_none (py "drafts") state) = true →
  drive utcnow capitalize cid
    {| yielded := before ++ [(py "approval", state)] :: rest; raised := raises |} d
  = drive utcnow capitalize cid
      {| yielded := before ++ [[(py "approval", state)]]; raised := None |} d ∧
  (drive utcnow capitalize cid
     {| yielded := before ++ [(py "approval", state)] :: rest; raised := raises |} d).1
  = Paused ∧
  reports (process_events utcnow capitalize cid before d).2
    (drive utcnow capitalize cid
       {| yielded := before ++ [(py "approval", state)] :: rest; raised := raises |} d).2
  = [(py "approval", py "running"); (py "approval", py "waiting")] ∧
  ∃ c, campaigns
         (d_sm (drive utcnow capitalize cid
                  {| yielded := before ++ [(py "approval", state)] :: rest;
                     raised := raises |} d).2) !! cid = Some c ∧
       c_state c = state ∧
       c_status c = default (VStr (py "running")) (dict_get (py "status") state) ∧
       c_current_stage c = py "approval" ∧
       se_status <$> c_stages c !! py "approval" = Some (py "waiting").
Proof.
  intros Hrun Hc1 Hdrafts. unfold drive. cbn [yielded raised].
  rewrite !process_events_app, Hrun.
  set (d1 := (process_events utcnow capitalize cid before d).2) in *.
  cbn [process_events process_nodes]. rewrite stage_of_approval_eq.
  rewrite bool_decide_eq_true_2, Hdrafts by done. cbn [andb fst snd].
  split_and!; [done|done| |].
  - unfold mark_running. rewrite decide_False by apply approval_ne_drafting.
    assert (Hp : is_Some (campaigns (d_sm (set_drafting false d1)) !! cid))
      by (by eexists).
    pose proof (report_advances cid (py "approval") (py "running")
                  (py "Processing " ++ py "approval" ++ py "...")
                  (set_drafting false d1) Hp) as Ha1.
    set (d2 := report utcnow cid (py "approval") (py "running") _ _) in *.
    pose proof (store_state_advances cid state d2 (proj1 Ha1)) as Ha2.
    set (d3 := store_state cid state d2) in *.
    pose proof (report_advances cid (py "approval") (py "waiting")
                  (py "Waiting for user approval...") d3 (proj1 Ha2)) as Ha3.
    pose proof (advances_trans _ _ _ _ _ _ Ha1 (advances_trans _ _ _ _ _ _ Ha2 Ha3))
      as Hall.
    apply advances_reports in Hall. exact Hall.
  - unfold mark_running. rewrite decide_False by apply approval_ne_drafting.
    unfold report, store_state, update_stage, update_state, set_drafting.
    cbn [d_sm campaigns]. rewrite Hc1. cbn [campaigns].
    rewrite lookup_insert_eq. cbn [campaigns]. rewrite lookup_insert_eq.
    cbn [campaigns]. rewrite lookup_insert_eq.
    eexists. split; [reflexivity|]. simpl. split_and!; try done.
    by rewrite lookup_insert_eq.
Qed.

(** The end of the stream.  When the graph ends without raising and the
    driver did not pause, the campaign's status becomes "completed", with a
    last report "completed" for the stage "persistence", exactly when the
    stored state has the status "persisted"; otherwise the driver leaves
    the registry as the last node left it. *)
Theorem completes_when_persisted cid events d c1 :
  (process_events utcnow capitalize cid events d).1 = false →
  campaigns (d_sm (process_events utcnow capitalize cid events d).2) !! cid = Some c1 →
  (dict_get (py "status") (c_state c1) = Some (VStr (py "persisted")) →
   reports (process_events utcnow capitalize cid events d).2
     (drive utcnow capitalize cid {| yielded := events; raised := None |} d).2
   = [(py "persistence", py "completed")] ∧
   ∃ c, campaigns (d_sm (drive utcnow capitalize cid
                           {| yielded := events; raised := None |} d).2) !! cid
        = Some c ∧
        c_status c = VStr (py "completed") ∧ c_current_stage c = py "persistence") ∧
  (dict_get (py "status") (c_state c1) ≠ Some (VStr (py "persisted")) →
   (drive utcnow capitalize cid {| yielded := events; raised := None |} d).2
   = (process_events utcnow capitalize cid events d).2).
Proof.
  intros Hrun Hc1. unfold drive. cbn [yielded raised].
  destruct (process_events utcnow capitalize cid events d) as [b d1].
  simpl in Hrun, Hc1. subst b. cbn [fst snd].
  unfold final_update, get_campaign. rewrite Hc1. split.
  - intros ->. rewrite decide_True by done.
    assert (Hp : is_Some (campaigns (d_sm d1) !! cid)) by (by eexists).
    pose proof (report_advances cid (py "persistence") (py "completed")
                  (py "Campaign completed successfully") d1 Hp) as Ha.
    set (d2 := report utcnow cid (py "persistence") (py "completed") _ d1) in *.
    destruct (proj1 Ha) as [c2 Hc2]. split.
    + unfold reports, new_tasks, modify_campaign. cbn [d_sm tasks].
      apply advances_reports in Ha. exact Ha.
    + unfold modify_campaign. cbn [d_sm campaigns].
      rewrite lookup_alter_eq, Hc2. simpl. eexists. split; [reflexivity|].
      split; [done|]. simpl.
      unfold d2, report, update_stage in Hc2. cbn [d_sm] in Hc2.
      rewrite Hc1 in Hc2. cbn [campaigns] in Hc2.
      rewrite lookup_insert_eq in Hc2. by inversion Hc2.
  - intros Hne. destruct (dict_get (py "status") (c_state c1)) as [[| | | |s| |]|];
      try done.
    destruct (decide (s = py "persisted")) as [->|]; done.
Qed.

Lemma report_absent cid stage status message d :
  campaigns (d_sm d) !! cid = None →
  d_sm (report utcnow cid stage status message d) = d_sm d.
Proof. intros Hc. unfold report, update_stage. simpl. by rewrite Hc. Qed.

Lemma process_nodes_absent cid event items d :
  campaigns (d_sm d) !! cid = None →
  d_sm (process_nodes utcnow capitalize cid event items d).2 = d_sm d.
Proof.
  revert d. induction items as [|[node st] items IH]; intros d Hc; [done|].
  cbn [process_nodes].
  assert (H1 : d_sm (mark_running utcnow cid (stage_of node) d) = d_sm d).
  { unfold mark_running. destruct (decide _); [destruct (d_drafting d)|]; try done.
    - simpl. by apply report_absent.
    - by rewrite report_absent. }
  set (d1 := mark_running utcnow cid (stage_of node) d) in *.
  assert (H2 : d_sm (store_state cid st d1) = d_sm d).
  { unfold store_state, update_state. simpl. by rewrite H1, Hc. }
  set (d2 := store_state cid st d1) in *.
  destruct (_ && _).
  - cbn [snd]. rewrite report_absent; by rewrite H2.
  - assert (H3 : d_sm (mark_completed utcnow capitalize cid (stage_of node) event d2)
                 = d_sm d).
    { unfold mark_completed. destruct (_ || _); [|done].
      rewrite report_absent; by rewrite H2. }
    rewrite IH; by rewrite H3.
Qed.

Lemma process_events_absent cid events d :
  campaigns (d_sm d) !! cid = None →
  d_sm (process_events utcnow capitalize cid events d).2 = d_sm d.
Proof.
  revert d. induction events as [|event events IH]; intros d Hc; [done|].
  cbn [process_events].
  pose proof (process_nodes_absent cid event event d Hc) as H1.
  destruct (process_nodes utcnow capitalize cid event event d) as [[|] d1];
    simpl in *; [done|].
  rewrite IH; by rewrite H1.
Qed.

(** A campaign that is not in the registry.  The driver then changes
    nothing in the manager, however the run ends; and when the graph raises
    before any pause, the handler itself fails with a [TypeError], which
    escapes the driver. *)
Theorem unknown_campaign_run cid stream d :
  campaigns (d_sm d) !! cid = None →
  d_sm (drive utcnow capitalize cid stream d).2 = d_sm d ∧
  (drive utcnow capitalize cid stream d).1 ≠ Failed ∧
  ((process_events utcnow capitalize cid (yielded stream) d).1 = false →
   is_Some (raised stream) →
   (drive utcnow capitalize cid stream d).1 = Crashed TypeError).
Proof.
  intros Hc. unfold drive.
  pose proof (process_events_absent cid (yielded stream) d Hc) as H1.
  destruct (process_events utcnow capitalize cid (yielded stream) d) as [[|] d1];
    simpl in H1 |- *.
  - split_and!; [done|done|done].
  - assert (Hc1 : campaigns (d_sm d1) !! cid = None) by (by rewrite H1).
    destruct (raised stream) as [text|].
    + unfold handle_failure, get_campaign. rewrite Hc1. simpl.
      split_and!; [done|done|done].
    + unfold final_update, get_campaign. rewrite Hc1. simpl.
      split_and!; [done|done|]. intros _ [x Hx]. done.
Qed.

Lemma linear_node_spec node st :
  linear_node (node, st) = true →
  stage_of node ≠ py "drafting" ∧
  bool_decide (node = py "approval") && truthy (get_or_none (py "drafts") st) = false.
Proof.
  unfold linear_node. simpl. intros [H1 H2]%andb_true_iff.
  apply negb_true_iff in H1, H2. by apply bool_decide_eq_false in H1.
Qed.

Lemma process_nodes_linear cid event items d :
  is_Some (campaigns (d_sm d) !! cid) →
  forallb linear_node items = true →
  (process_nodes utcnow capitalize cid event items d).1 = false ∧
  advances cid d (process_nodes utcnow capitalize cid event items d).2
    (items ≫= linear_reports).
Proof.
  revert d. induction items as [|[node st] items IH]; intros d Hc Hall.
  - split; [done|]. by apply advances_refl.
  - simpl in Hall. apply andb_true_iff in Hall as [Hnode Hall].
    apply linear_node_spec in Hnode as [Hstage Hpause].
    cbn [process_nodes]. rewrite Hpause.
    assert (Ha1 : advances cid d (mark_running utcnow cid (stage_of node) d)
                    [(stage_of node, py "running")]).
    { unfold mark_running. rewrite decide_False by done.
      destruct (report_advances cid (stage_of node) (py "running")
                  (py "Processing " ++ stage_of node ++ py "...")
                  (set_drafting false d) Hc) as [Hc' Hn].
      split; [done|]. exact Hn. }
    set (d1 := mark_running utcnow cid (stage_of node) d) in *.
    pose proof (store_state_advances cid st d1 (proj1 Ha1)) as Ha2.
    set (d2 := store_state cid st d1) in *.
    assert (Ha3 : advances cid d2
                    (mark_completed utcnow capitalize cid (stage_of node) event d2)
                    [(stage_of node, py "completed")]).
    { unfold mark_completed. rewrite bool_decide_eq_true_2 by done. cbn [orb].
      apply report_advances, Ha2. }
    set (d3 := mark_completed utcnow capitalize cid (stage_of node) event d2) in *.
    destruct (IH d3 (proj1 Ha3) Hall) as [Hr Ha4]. split; [done|].
    eapply advances_eq.
    + exact (advances_trans _ _ _ _ _ _ Ha1
               (advances_trans _ _ _ _ _ _ Ha2
                  (advances_trans _ _ _ _ _ _ Ha3 Ha4))).
    + done.
Qed.

(** The linear stages.  For a campaign in the registry, every node that
    is no draft node and does not pause the run is reported "running" and
    at once "completed", in the order in which the nodes yielded: both
    reports are made after the node has done its work. *)
Theorem linear_nodes_reported cid events d :
  is_Some (campaigns (d_sm d) !! cid) →
  forallb (forallb linear_node) events = true →
  (process_events utcnow capitalize cid events d).1 = false ∧
  reports d (process_events utcnow capitalize cid events d).2
  = mjoin events ≫= linear_reports.
Proof.
  intros Hc Hall.
  assert (H : (process_events utcnow capitalize cid events d).1 = false ∧
              advances cid d (process_events utcnow capitalize cid events d).2
                (mjoin events ≫= linear_reports)).
  { revert d Hc. induction events as [|event events IH]; intros d Hc.
    - split; [done|]. by apply advances_refl.
    - simpl in Hall. apply andb_true_iff in Hall as [Hev Hall].
      cbn [process_events].
      destruct (process_nodes_linear cid event event d Hc Hev) as [Hr1 Ha1].
      destruct (process_nodes utcnow capitalize cid event event d) as [b d1].
      simpl in Hr1, Ha1. subst b.
      destruct (IH Hall d1 (proj1 Ha1)) as [Hr2 Ha2]. split; [done|].
      eapply advances_eq; [exact (advances_trans _ _ _ _ _ _ Ha1 Ha2)|].
      change (mjoin (event :: events)) with (event ++ mjoin events).
      by rewrite bind_app. }
  destruct H as [Hr Ha]. split; [done|]. by apply (advances_reports cid).
Qed.

(** *** The state that the registry holds *)

Lemma report_keeps_state cid stage status message d c :
  campaigns (d_sm d) !! cid = Some c →
  ∃ c', campaigns (d_sm (report utcnow cid stage status message d)) !! cid = Some c' ∧
        c_state c' = c_state c ∧ c_status c' = c_status c.
Proof.
  intros Hc. unfold report, update_stage. cbn [d_sm]. rewrite Hc. cbn [campaigns].
  rewrite lookup_insert_eq. by eexists.
Qed.

Lemma mark_running_keeps_state cid stage d c :
  campaigns (d_sm d) !! cid = Some c →
  ∃ c', campaigns (d_sm (mark_running utcnow cid stage d)) !! cid = Some c' ∧
        c_state c' = c_state c ∧ c_status c' = c_status c.
Proof.
  intros Hc. unfold mark_running.
  destruct (decide (stage = py "drafting")).
  - destruct (d_drafting d); [by exists c|].
    by apply (report_keeps_state cid _ _ _ d).
  - by apply (report_keeps_state cid _ _ _ (set_drafting false d)).
Qed.

Lemma mark_completed_keeps_state cid stage event d c :
  campaigns (d_sm d) !! cid = Some c →
  ∃ c', campaigns (d_sm (mark_completed utcnow capitalize cid stage event d)) !! cid
        = Some c' ∧
        c_state c' = c_state c ∧ c_status c' = c_status c.
Proof.
  intros Hc. unfold mark_completed.
  destruct (_ || _); [by apply report_keeps_state | by exists c].
Qed.

Lemma process_nodes_state cid event items : ∀ d c0 d',
  campaigns (d_sm d) !! cid = Some c0 →
  process_nodes utcnow capitalize cid event items d = (false, d') →
  ∃ c, campaigns (d_sm d') !! cid = Some c ∧
       c_state c = default (c_state c0) (snd <$> last items) ∧
       c_status c = default (c_status c0) (status_of <$> last items).
Proof.
  induction items as [|[node st] items IH]; intros d c0 d' Hc0 Hrun.
  - inversion Hrun; subst. by exists c0.
  - cbn [process_nodes] in Hrun.
    destruct (bool_decide (node = py "approval") && truthy (get_or_none (py "drafts") st));
      [done|].
    destruct (mark_running_keeps_state cid (stage_of node) d c0 Hc0) as (c1 & Hc1 & _).
    assert (Hc2 : ∃ c2, campaigns (d_sm (store_state cid st
                          (mark_running utcnow cid (stage_of node) d))) !! cid = Some c2 ∧
                        c_state c2 = st ∧ c_status c2 = status_of (node, st)).
    { unfold store_state, update_state. cbn [d_sm]. rewrite Hc1. cbn [campaigns].
      rewrite lookup_insert_eq. by eexists. }
    destruct Hc2 as (c2 & Hc2 & Hs2 & Ht2).
    destruct (mark_completed_keeps_state cid (stage_of node) event _ c2 Hc2)
      as (c3 & Hc3 & Hs3 & Ht3).
    destruct (IH _ c3 d' Hc3 Hrun) as (c & Hc & Hs & Ht).
    exists c. split; [done|]. rewrite Hs, Ht, Hs3, Ht3, Hs2, Ht2, last_cons.
    by destruct (last items).
Qed.

(** The registry holds the state of the last node, wholesale.  After a
    stretch of the stream that did not pause the driver, the campaign's
    state is the state that the last node of the stretch yielded (whatever
    earlier nodes yielded is gone), and its status is that state's "status"
    entry, or "running" when it has none. *)
Theorem last_node_state_stored cid events d c0 node st :
  campaigns (d_sm d) !! cid = Some c0 →
  (process_events utcnow capitalize cid events d).1 = false →
  last (mjoin events) = Some (node, st) →
  ∃ c, campaigns (d_sm (process_events utcnow capitalize cid events d).2) !! cid
       = Some c ∧
       c_state c = st ∧
       c_status c = default (VStr (py "running")) (dict_get (py "status") st).
Proof.
  intros Hc0 Hrun Hlast.
  assert (H : ∃ c,
    campaigns (d_sm (process_events utcnow capitalize cid events d).2) !! cid = Some c ∧
    c_state c = default (c_state c0) (snd <$> last (mjoin events)) ∧
    c_status c = default (c_status c0) (status_of <$> last (mjoin events))).
  { clear Hlast. revert d c0 Hc0 Hrun.
    induction events as [|event events IH]; intros d c0 Hc0 Hrun.
    - by exists c0.
    - cbn [process_events] in Hrun |- *.
      destruct (process_nodes utcnow capitalize cid event event d) as [[|] d1] eqn:H1;
        [done|].
      destruct (process_nodes_state cid event event d c0 d1 Hc0 H1) as (c1 & Hc1 & Hs1 & Ht1).
      destruct (IH d1 c1 Hc1 Hrun) as (c & Hc & Hs & Ht).
      exists c. split; [done|].
      change (mjoin (event :: events)) with (event ++ mjoin events).
      rewrite Hs, Ht, Hs1, Ht1, last_app. by destruct (last (mjoin events)). }
  destruct H as (c & Hc & Hs & Ht). exists c. by rewrite Hs, Ht, Hlast.
Qed.

End Facts.

Lemma last_node_state_stored_witness :
  ∃ c, campaigns (d_sm (process_events sample_clock ascii_capitalize (py "c-1")
                          persisted_events sample_driver).2) !! py "c-1" = Some c ∧
       c_state c = [(py "status", VStr (py "persisted"))] ∧
       c_status c = default (VStr (py "running"))
                      (dict_get (py "status") [(py "status", VStr (py "persisted"))]).
Proof.
  apply (last_node_state_stored sample_clock ascii_capitalize (py "c-1") persisted_events
           sample_driver
           {| c_id := py "c-1"; c_status := VStr (py "created");
              c_current_stage := py "pending"; c_input := VNone;
              c_state := []; c_created_at := 0; c_stages := initial_stages;
              c_error := None |} (py "persistence")).
  - apply lookup_insert_eq.
  - vm_compute. reflexivity.
  - vm_compute. reflexivity.
Defined.

Lemma approval_pauses_witness :
  drive sample_clock ascii_capitalize (py "c-1")
    {| yielded := linear_events ++ [(py "approval", sample_drafts)] :: persisted_events;
       raised := Some (py "boom") |} sample_driver
  = drive sample_clock ascii_capitalize (py "c-1")
      {| yielded := linear_events ++ [[(py "approval", sample_drafts)]];
         raised := None |} sample_driver.
Proof.
  eapply (approval_pauses sample_clock ascii_capitalize (py "c-1") linear_events
            sample_drafts persisted_events (Some (py "boom")) sample_driver).
  - vm_compute. reflexivity.
  - vm_compute. reflexivity.
  - vm_compute. reflexivity.
Defined.

Lemma completes_when_persisted_witness :
  reports (process_events sample_clock ascii_capitalize (py "c-1") persisted_events
             sample_driver).2
    (drive sample_clock ascii_capitalize (py "c-1")
       {| yielded := persisted_events; raised := None |} sample_driver).2
  = [(py "persistence", py "completed")] ∧
  ∃ c, campaigns (d_sm (drive sample_clock ascii_capitalize (py "c-1")
                          {| yielded := persisted_events; raised := None |}
                          sample_driver).2) !! py "c-1"
       = Some c ∧
       c_status c = VStr (py "completed") ∧ c_current_stage c = py "persistence".
Proof.
  eapply (completes_when_persisted sample_clock ascii_capitalize (py "c-1")
            persisted_events sample_driver).
  - vm_compute. reflexivity.
  - vm_compute. reflexivity.
  - vm_compute. reflexivity.
Defined.

Lemma unknown_campaign_run_witness :
  d_sm (drive sample_clock ascii_capitalize (py "c-2") persona_fails sample_driver).2
  = d_sm sample_driver ∧
  (drive sample_clock ascii_capitalize (py "c-2") persona_fails sample_driver).1 ≠ Failed ∧
  ((process_events sample_clock ascii_capitalize (py "c-2") (yielded persona_fails)
      sample_driver).1 = false →
   is_Some (raised persona_fails) →
   (drive sample_clock ascii_capitalize (py "c-2") persona_fails sample_driver).1
   = Crashed TypeError).
Proof.
  apply (unknown_campaign_run sample_clock ascii_capitalize (py "c-2") persona_fails
           sample_driver).
  vm_compute. reflexivity.
Defined.

Lemma linear_nodes_reported_witness :
  (process_events sample_clock ascii_capitalize (py "c-1") linear_events
     sample_driver).1 = false ∧
  reports sample_driver
    (process_events sample_clock ascii_capitalize (py "c-1") linear_events
       sample_driver).2
  = mjoin linear_events ≫= linear_reports.
Proof.
  apply (linear_nodes_reported sample_clock ascii_capitalize (py "c-1") linear_events
           sample_driver).
  - apply (bool_decide_unpack _). vm_compute. exact I.
  - vm_compute. reflexivity.
Defined.

Lemma drafting_reports_witness :
  (process_events sample_clock ascii_capitalize (py "c-1") one_per_event
     sample_driver).1 = false ∧
  reports sample_driver
    (process_events sample_clock ascii_capitalize (py "c-1") one_per_event
       sample_driver).2
    = (py "drafting", py "running")
      :: replicate (instagram_events one_per_event) (py "drafting", py "completed").
Proof.
  apply (drafting_reports sample_clock ascii_capitalize (py "c-1") one_per_event
           sample_driver).
  - apply (bool_decide_unpack _). vm_compute. exact I.
  - reflexivity.
  - apply (bool_decide_unpack _). vm_compute. exact I.
  - apply (bool_decide_unpack _). vm_compute. exact I.
  - discriminate.
Defined.

(** With one node per event and "draft_instagram" last there is one
    "running" and one "completed" report, and the "completed" one comes
    with the last event. *)
Example one_per_event_reports :
  reports sample_driver
    (process_events sample_clock ascii_capitalize (py "c-1") (take 3 one_per_event)
       sample_driver).2
  = [(py "drafting", py "running")] ∧
  reports sample_driver
    (process_events sample_clock ascii_capitalize (py "c-1") one_per_event
       sample_driver).2
  = [(py "drafting", py "running"); (py "drafting", py "completed")].
Proof. vm_compute. split; reflexivity. Qed.

(** C4, as the specification states it, fails: a channel set of e-mail,
    SMS and LinkedIn, each draft node yielding in an event of its own.  The
    stage "drafting" is reported running once and never completed. *)
Lemma drafting_never_completed_counterexample :
  (mjoin (take 3 one_per_event)).*1
    = [py "draft_email"; py "draft_sms"; py "draft_linkedin"] ∧
  drafting_only (take 3 one_per_event) ∧
  reports sample_driver
    (process_events sample_clock ascii_capitalize (py "c-1")
       (take 3 one_per_event) sample_driver).2
  = [(py "drafting", py "running")] ∧
  (py "drafting", py "completed")
    ∉ reports sample_driver
        (process_events sample_clock ascii_capitalize (py "c-1")
           (take 3 one_per_event) sample_driver).2.
Proof.
  split_and!.
  - vm_compute. reflexivity.
  - apply (bool_decide_unpack _). vm_compute. exact I.
  - vm_compute. reflexivity.
  - apply (bool_decide_unpack _). vm_compute. exact I.
Qed.

(** The same node name decides in the other runs: when "draft_instagram"
    is the first to yield, the completion is reported with it, before the
    other three nodes yield; when the four nodes yield in one event, it is
    reported for each of them. *)
Example instagram_first_completes_early :
  reports sample_driver
    (process_events sample_clock ascii_capitalize (py "c-1")
       (take 1 (reverse one_per_event)) sample_driver).2
  = [(py "drafting", py "running"); (py "drafting", py "completed")] ∧
  reports sample_driver
    (process_events sample_clock ascii_capitalize (py "c-1")
       (reverse one_per_event) sample_driver).2
  = [(py "drafting", py "running"); (py "drafting", py "completed")].
Proof. vm_compute. split; reflexivity. Qed.

Example all_in_one_completes_per_node :
  reports sample_driver
    (process_events sample_clock ascii_capitalize (py "c-1") [all_in_one]
       sample_driver).2
  = [(py "drafting", py "running");
     (py "drafting", py "completed"); (py "drafting", py "completed");
     (py "drafting", py "completed"); (py "drafting", py "completed")].
Proof. vm_compute. reflexivity. Qed.

Lemma failure_halts_campaign_witness :
  (drive sample_clock ascii_capitalize (py "c-1") persona_fails sample_driver).1 = Failed ∧
  (∃ c', campaigns (d_sm (drive sample_clock ascii_capitalize (py "c-1")
                            persona_fails sample_driver).2) !! py "c-1" = Some c' ∧
         c_status c' = VStr (py "failed") ∧
         c_error c' = Some (VStr (py ""))) ∧
  (reports (process_events sample_clock ascii_capitalize (py "c-1")
              (yielded persona_fails) sample_driver).2
           (drive sample_clock ascii_capitalize (py "c-1") persona_fails
              sample_driver).2).*2 = [py "failed"] ∧
  ∀ stage, (stage, py "running")
             ∈ reports sample_driver
                 (drive sample_clock ascii_capitalize (py "c-1") persona_fails
                    sample_driver).2 →
    ∃ event node node_state,
      event ∈ yielded persona_fails ∧ (node, node_state) ∈ event ∧ stage = stage_of node.
Proof.
  apply (failure_halts_campaign sample_clock ascii_capitalize (py "c-1")
           persona_fails (py "") sample_driver).
  - apply (bool_decide_unpack _). vm_compute. exact I.
  - reflexivity.
  - vm_compute. reflexivity.
Defined.

(** C5, as the specification states it, fails: the persona node raises an exception
    without text after the ingestion node yielded.  The error field is the
    empty string, the entry of the failing stage "persona" is still
    "pending", and the entry marked "failed" is that of "ingestion". *)
Lemma persona_failure_counterexample :
  let d := (drive sample_clock ascii_capitalize (py "c-1") persona_fails
              sample_driver).2 in
  (c_error <$> campaigns (d_sm d) !! py "c-1") = Some (Some (VStr [])) ∧
  (c ← campaigns (d_sm d) !! py "c-1"; se_status <$> c_stages c !! py "persona")
    = Some (py "pending") ∧
  (c ← campaigns (d_sm d) !! py "c-1"; se_status <$> c_stages c !! py "persona")
    ≠ Some (py "failed") ∧
  (c ← campaigns (d_sm d) !! py "c-1"; se_status <$> c_stages c !! py "ingestion")
    = Some (py "failed").
Proof. vm_compute. split_and!; try reflexivity. discriminate. Qed.

End WorkflowRunnerFacts.

(** ** The approval endpoint *)

Module ApiFacts.
Import StateManager WorkflowRunner Api.

Lemma approval_state_other request state k :
  k ∉ approval_keys →
  dict_get k (dict_set (py "__resume__")
                (VDict [(py "approved", strs (approved request));
                        (py "regen", strs (regen request))])
                (dict_set (py "regen_channels") (strs (regen request))
                   (dict_set (py "approved_channels") (strs (approved request)) state)))
  = dict_get k state.
Proof.
  unfold approval_keys. intros Hk.
  rewrite !dict_get_set_ne; [done|set_solver..].
Qed.

Lemma status_not_written : py "status" ∉ approval_keys.
Proof. apply (bool_decide_unpack _). vm_compute. exact I. Qed.

(** What an approval does to a known campaign.  The answer echoes the
    approved and regen lists; the campaign's state holds them under
    "approved_channels" and "regen_channels" and both under "__resume__",
    and every other entry of the state, the drafts among them, is as it
    was; the campaign's status becomes the state's "status" entry, or
    "running" when there is none, whatever it was before.  Nothing else
    happens: the stage table, the current stage and the error are kept, no
    other campaign changes, no event is published, no subscription changes,
    and the skipped list has no effect. *)
Theorem approval_only_recorded campaign_id request sm c :
  campaigns sm !! campaign_id = Some c →
  ∃ c',
    (approve_drafts campaign_id request sm).1
    = inr [(py "status", VStr (py "ok"));
           (py "approved", strs (approved request));
           (py "regen", strs (regen request))] ∧
    campaigns (approve_drafts campaign_id request sm).2
    = <[campaign_id := c']> (campaigns sm) ∧
    dict_get (py "approved_channels") (c_state c') = Some (strs (approved request)) ∧
    dict_get (py "regen_channels") (c_state c') = Some (strs (regen request)) ∧
    dict_get (py "__resume__") (c_state c')
    = Some (VDict [(py "approved", strs (approved request));
                   (py "regen", strs (regen request))]) ∧
    (∀ k, k ∉ approval_keys → dict_get k (c_state c') = dict_get k (c_state c)) ∧
    c_status c' = default (VStr (py "running")) (dict_get (py "status") (c_state c)) ∧
    c_stages c' = c_stages c ∧ c_current_stage c' = c_current_stage c ∧
    c_error c' = c_error c ∧ c_input c' = c_input c ∧ c_id c' = c_id c ∧
    tasks (approve_drafts campaign_id request sm).2 = tasks sm ∧
    event_queues (approve_drafts campaign_id request sm).2 = event_queues sm ∧
    queues (approve_drafts campaign_id request sm).2 = queues sm ∧
    ∀ others,
      approve_drafts campaign_id
        {| approved := approved request; regen := regen request; skipped := others |} sm
      = approve_drafts campaign_id request sm.
Proof.
  intros Hc. unfold approve_drafts, get_campaign, update_state. rewrite Hc.
  cbn [fst snd campaigns tasks event_queues queues approved regen].
  eexists. split_and!; try reflexivity.
  - cbn [c_state set_state].
    rewrite dict_get_set_ne by (vm_compute; discriminate).
    rewrite dict_get_set_ne by (vm_compute; discriminate).
    apply dict_get_set_eq.
  - cbn [c_state set_state].
    rewrite dict_get_set_ne by (vm_compute; discriminate).
    apply dict_get_set_eq.
  - cbn [c_state set_state]. apply dict_get_set_eq.
  - intros k Hk. cbn [c_state set_state]. by apply approval_state_other.
  - cbn [c_status set_state]. f_equal.
    apply approval_state_other, status_not_written.
Qed.

Section AfterRun.

Variable utcnow : nat → Time.
Variable capitalize : pystr → pystr.

(** An approval after a failed run.  The run has left the campaign
    marked "failed", with the text of the exception as its error and the
    stage it was at marked "failed".  An approval then sets the campaign's
    status to the "status" entry of its stored state, or to "running" when
    there is none, while the error and the failed stage stay as the run
    left them. *)
Theorem approval_after_failure campaign_id stream d d' request :
  drive utcnow capitalize campaign_id stream d = (Failed, d') →
  ∃ c c' text entry,
    raised stream = Some text ∧
    campaigns (d_sm d') !! campaign_id = Some c ∧
    c_status c = VStr (py "failed") ∧
    campaigns (approve_drafts campaign_id request (d_sm d')).2 !! campaign_id = Some c' ∧
    c_status c' = default (VStr (py "running")) (dict_get (py "status") (c_state c)) ∧
    c_error c' = Some (VStr text) ∧
    c_stages c' !! c_current_stage c' = Some entry ∧
    se_status entry = py "failed" ∧ se_message entry = text.
Proof.
  unfold drive.
  destruct (process_events utcnow capitalize campaign_id (yielded stream) d) as [[|] d1];
    [done|].
  destruct (raised stream) as [text|]; [|done].
  unfold handle_failure, get_campaign.
  destruct (campaigns (d_sm d1) !! campaign_id) as [c1|] eqn:Hc1; [|done].
  intros [= <-].
  assert (Hc : campaigns
                 (d_sm (modify_campaign campaign_id
                          (λ c, set_error (VStr text) (set_status (VStr (py "failed")) c))
                          (report utcnow campaign_id (c_current_stage c1) (py "failed")
                             text d1))) !! campaign_id
               = Some (set_error (VStr text)
                         (set_status (VStr (py "failed"))
                            (set_stage (c_current_stage c1)
                               {| se_status := py "failed"; se_message := text;
                                  se_timestamp := Some (utcnow (2 * d_calls d1)) |}
                               c1)))).
  { unfold modify_campaign, report, update_stage. cbn [d_sm]. rewrite Hc1.
    cbn [campaigns]. by rewrite lookup_alter_eq, lookup_insert_eq. }
  eexists _, _, text, _. split_and!; [done|exact Hc|done| | | | | |].
  - unfold approve_drafts, get_campaign, update_state. rewrite Hc.
    cbn [snd campaigns]. apply lookup_insert_eq.
  - cbn [c_status set_state c_state set_error set_status set_stage]. f_equal.
    apply approval_state_other, status_not_written.
  - done.
  - cbn [c_stages c_current_stage set_state set_error set_status set_stage].
    apply lookup_insert_eq.
  - done.
  - done.
Qed.

End AfterRun.

Lemma approval_only_recorded_witness :
  ∃ c',
    (approve_drafts (py "c-1") sample_request (d_sm sample_driver)).1
    = inr [(py "status", VStr (py "ok"));
           (py "approved", strs (approved sample_request));
           (py "regen", strs (regen sample_request))] ∧
    campaigns (approve_drafts (py "c-1") sample_request (d_sm sample_driver)).2
    = <[py "c-1" := c']> (campaigns (d_sm sample_driver)) ∧
    dict_get (py "approved_channels") (c_state c')
    = Some (strs (approved sample_request)) ∧
    dict_get (py "regen_channels") (c_state c') = Some (strs (regen sample_request)) ∧
    dict_get (py "__resume__") (c_state c')
    = Some (VDict [(py "approved", strs (approved sample_request));
                   (py "regen", strs (regen sample_request))]) ∧
    (∀ k, k ∉ approval_keys → dict_get k (c_state c') = dict_get k []) ∧
    c_status c' = default (VStr (py "running")) (dict_get (py "status") []) ∧
    c_stages c' = initial_stages ∧ c_current_stage c' = py "pending" ∧
    c_error c' = None ∧ c_input c' = VNone ∧ c_id c' = py "c-1" ∧
    tasks (approve_drafts (py "c-1") sample_request (d_sm sample_driver)).2
    = tasks (d_sm sample_driver) ∧
    event_queues (approve_drafts (py "c-1") sample_request (d_sm sample_driver)).2
    = event_queues (d_sm sample_driver) ∧
    queues (approve_drafts (py "c-1") sample_request (d_sm sample_driver)).2
    = queues (d_sm sample_driver) ∧
    ∀ others,
      approve_drafts (py "c-1")
        {| approved := approved sample_request; regen := regen sample_request;
           skipped := others |} (d_sm sample_driver)
      = approve_drafts (py "c-1") sample_request (d_sm sample_driver).
Proof.
  apply (approval_only_recorded (py "c-1") sample_request (d_sm sample_driver)
           {| c_id := py "c-1"; c_status := VStr (py "created");
              c_current_stage := py "pending"; c_input := VNone;
              c_state := []; c_created_at := 0; c_stages := initial_stages;
              c_error := None |}).
  apply lookup_insert_eq.
Defined.

Lemma approval_after_failure_witness :
  ∃ c c' text entry,
    raised persona_fails = Some text ∧
    campaigns (d_sm (drive sample_clock ascii_capitalize (py "c-1") persona_fails
                       sample_driver).2) !! py "c-1" = Some c ∧
    c_status c = VStr (py "failed") ∧
    campaigns (approve_drafts (py "c-1") sample_request
                 (d_sm (drive sample_clock ascii_capitalize (py "c-1") persona_fails
                          sample_driver).2)).2 !! py "c-1" = Some c' ∧
    c_status c' = default (VStr (py "running")) (dict_get (py "status") (c_state c)) ∧
    c_error c' = Some (VStr text) ∧
    c_stages c' !! c_current_stage c' = Some entry ∧
    se_status entry = py "failed" ∧ se_message entry = text.
Proof.
  apply (approval_after_failure sample_clock ascii_capitalize (py "c-1")
           persona_fails sample_driver).
  vm_compute. reflexivity.
Defined.

End ApiFacts.

(** ** The approval loop *)

Module MainFacts.
Import Main.

Lemma count_app p l1 l2 : count p (l1 ++ l2) = (count p l1 + count p l2)%nat.
Proof. unfold count. apply sum_list_with_app. Qed.

Section Monad.

Context {World : Type}.

Lemma bind_inr {A B} (m : M World A) (f : A → M World B) e y e' :
  (m ≫= f) e = (inr y, e') →
  ∃ x e1, m e = (inr x, e1) ∧ f x e1 = (inr y, e').
Proof.
  unfold mbind, M_bind. destruct (m e) as [[err|x] e1]; [done|]. eauto.
Qed.

Lemma emits_weaken {A} a b a' b' (m : M World A) :
  emits a b m → (a ≤ a')%nat → (b ≤ b')%nat → emits a' b' m.
Proof.
  intros H Ha Hb e. destruct (H e) as (new & Hl & H1 & H2).
  exists new. split_and!; [done|lia|lia].
Qed.

Lemma emits_ret {A} (x : A) : emits 0 0 (mret x : M World A).
Proof. intros e. exists []. simpl. by rewrite app_nil_r. Qed.

Lemma emits_lift {A} (r : exn + A) : emits 0 0 (lift r : M World A).
Proof. intros e. exists []. simpl. by rewrite app_nil_r. Qed.

Lemma emits_call {A} (f : World → (exn + A) * World) : emits 0 0 (call f).
Proof.
  intros e. exists []. unfold call. destruct (f (world e)). simpl.
  by rewrite app_nil_r.
Qed.

Lemma emits_record a :
  emits (if is_scored a then 1 else 0) (if is_regenerating a then 1 else 0)
    (record a : M World ()).
Proof.
  intros e. exists [a]. simpl. split; [done|]. unfold count. simpl. lia.
Qed.

Lemma emits_bind {A B} a1 b1 a2 b2 (m : M World A) (f : A → M World B) :
  emits a1 b1 m → (∀ x, emits a2 b2 (f x)) →
  emits (a1 + a2) (b1 + b2) (m ≫= f).
Proof.
  intros Hm Hf e. destruct (Hm e) as (n1 & Hl1 & Hs1 & Hr1).
  unfold mbind, M_bind. destruct (m e) as [[err|x] e1]; simpl in *.
  - exists n1. split_and!; [done|lia|lia].
  - destruct (Hf x e1) as (n2 & Hl2 & Hs2 & Hr2).
    exists (n1 ++ n2). rewrite Hl2, Hl1, app_assoc, !count_app.
    split_and!; [done|lia|lia].
Qed.

Lemma emits_for_each {A B} (f : A → M World B) xs :
  (∀ x, emits 0 0 (f x)) → emits 0 0 (for_each f xs).
Proof.
  intros Hf. induction xs as [|x xs IH]; simpl.
  - apply emits_ret.
  - apply (emits_bind 0 0 0 0); [apply Hf|]. intros y.
    apply (emits_bind 0 0 0 0); [apply IH|]. intros ys. apply emits_ret.
Qed.

End Monad.

Lemma mark_draft_inr approved d d' :
  mark_draft approved d = inr d' →
  ∃ kvs ch, d = VDict kvs ∧ dict_get (py "channel") kvs = Some ch ∧
            d' = VDict (dict_set (py "approved") (VBool (in_strs ch approved)) kvs).
Proof.
  destruct d as [| | | | | |kvs]; try done. simpl.
  destruct (dict_get (py "channel") kvs) as [ch|] eqn:Hch; [|done].
  intros H. inversion H; subst. by exists kvs, ch.
Qed.



(** The marking returns whenever every draft is a dict with a channel,
    and it gives every draft, in order, its old entries with one change:
    the "approved" entry is whether the draft's channel is in the approved
    list. *)
Lemma mark_approved_returns approved ds :
  Forall (λ d, ∃ kvs, d = VDict kvs ∧ is_Some (dict_get (py "channel") kvs)) ds →
  ∃ marked, mark_approved approved (VList ds) = inr marked ∧
    Forall2 (λ d d', ∃ kvs kvs' ch,
               d = VDict kvs ∧ d' = VDict kvs' ∧
               dict_get (py "channel") kvs = Some ch ∧
               dict_get (py "approved") kvs' = Some (VBool (in_strs ch approved)) ∧
               ∀ k, k ≠ py "approved" → dict_get k kvs' = dict_get k kvs)
      ds marked.
Proof.
  intros Hds. unfold mark_approved. cbn [iterate]. unfold mbind at 1, exn_bind at 1.
  apply mapM_total. eapply Forall_impl; [exact Hds|].
  intros d (kvs & -> & ch & Hch). simpl. rewrite Hch.
  eexists. split; [reflexivity|].
  eexists kvs, _, ch. split_and!; try done.
  - apply dict_get_set_eq.
  - intros k Hk. by apply dict_get_set_ne.
Qed.

Section Facts.

Variable World : Type.
Variable scoring_node : pydict → World → (exn + pydict) * World.
Variable execution_node : pydict → World → (exn + pydict) * World.
Variable persistence_node : pydict → World → (exn + pydict) * World.
Variable _generate_draft : pyval → pydict → World → (exn + pyval) * World.
Variable input : World → (exn + pystr) * World.
Variable is_space : N → bool.
Variable lower : pystr → pystr.

Abbreviation decision := (decision World scoring_node input is_space lower).
Abbreviation regeneration := (regeneration World _generate_draft).
Abbreviation round :=
  (round World scoring_node _generate_draft input is_space lower).
Abbreviation approval_rounds :=
  (approval_rounds World scoring_node _generate_draft input is_space lower).
Abbreviation run_approval_loop :=
  (run_approval_loop World scoring_node execution_node persistence_node
     _generate_draft input is_space lower).

Lemma emits_decision state : emits 1 0 (decision state).
Proof.
  unfold Main.decision.
  apply (emits_bind 1 0 0 0); [apply (emits_record Scored)|]. intros _.
  apply (emits_bind 0 0 0 0); [apply emits_call|]. intros st.
  apply (emits_bind 0 0 0 0); [apply emits_lift|]. intros _.
  apply (emits_bind 0 0 0 0); [apply (emits_record Prompted)|]. intros _.
  apply (emits_bind 0 0 0 0); [apply emits_call|]. intros raw.
  destruct (parse_decision is_space lower (strip is_space raw)) as [approved regen].
  apply (emits_bind 0 0 0 0); [apply emits_lift|]. intros updated.
  apply emits_ret.
Qed.

Lemma emits_regen_draft regen state d :
  emits 0 0 (regen_draft World _generate_draft regen state d).
Proof.
  unfold regen_draft.
  apply (emits_bind 0 0 0 0); [apply emits_lift|]. intros ch.
  destruct (in_strs ch regen).
  - apply (emits_bind 0 0 0 0); [apply (emits_record (Generated ch))|]. intros _.
    apply emits_call.
  - apply emits_ret.
Qed.

Lemma emits_regeneration regen_round regen state :
  emits 0 (if decide (regen_round < MAX_REGEN)%nat then 1 else 0)
    (regeneration regen_round regen state).
Proof.
  unfold Main.regeneration. destruct regen as [|ch regen].
  - eapply emits_weaken; [apply emits_ret|lia|lia].
  - destruct (decide (MAX_REGEN < S regen_round)%nat) as [Hover|Hin].
    + rewrite decide_False by lia.
      apply (emits_bind 0 0 0 0); [apply (emits_record RegenSkipped)|]. intros _.
      apply emits_ret.
    + rewrite decide_True by lia.
      apply (emits_bind 0 1 0 0);
        [apply (emits_record (Regenerating (S regen_round)))|]. intros _.
      apply (emits_bind 0 0 0 0); [apply emits_lift|]. intros cur.
      apply (emits_bind 0 0 0 0); [apply emits_lift|]. intros ds.
      apply (emits_bind 0 0 0 0);
        [apply emits_for_each, emits_regen_draft|]. intros new_drafts.
      apply emits_ret.
Qed.

Lemma emits_round regen_round state :
  emits 1 (if decide (regen_round < MAX_REGEN)%nat then 1 else 0)
    (round regen_round state).
Proof.
  unfold Main.round.
  apply (emits_bind 1 0 0 _); [apply emits_decision|]. intros d.
  apply emits_regeneration.
Qed.

(** A pass that loops back has counted one more round, within the bound. *)
Lemma regeneration_loops_back regen_round regen state e r' state' e' :
  regeneration regen_round regen state e = (inr (inl (r', state')), e') →
  r' = S regen_round ∧ (S regen_round ≤ MAX_REGEN)%nat.
Proof.
  unfold Main.regeneration. destruct regen as [|ch regen]; [done|].
  destruct (decide (MAX_REGEN < S regen_round)%nat) as [Hover|Hin].
  - intros H. apply bind_inr in H as (x & e1 & _ & H). done.
  - intros H.
    apply bind_inr in H as (x1 & e1 & _ & H).
    apply bind_inr in H as (x2 & e2 & _ & H).
    apply bind_inr in H as (x3 & e3 & _ & H).
    apply bind_inr in H as (x4 & e4 & _ & H).
    inversion H; subst. split; [done|lia].
Qed.

Lemma round_loops_back regen_round state e r' state' e' :
  round regen_round state e = (inr (inl (r', state')), e') →
  r' = S regen_round ∧ (S regen_round ≤ MAX_REGEN)%nat.
Proof.
  unfold Main.round. intros H. apply bind_inr in H as (d & e1 & _ & H).
  by eapply regeneration_loops_back.
Qed.

(** The request that arrives when [MAX_REGEN] rounds are used up. *)
Lemma regeneration_over_bound regen state e :
  regen ≠ [] →
  regeneration MAX_REGEN regen state e
  = (inr (inr state), {| world := world e; log := log e ++ [RegenSkipped] |}).
Proof. destruct regen; done. Qed.

Lemma approval_rounds_S fuel regen_round state e :
  approval_rounds (S fuel) regen_round state e
  = match round regen_round state e with
    | (inl err, e1) => (inl err, e1)
    | (inr (inl (regen_round', state')), e1) =>
        approval_rounds fuel regen_round' state' e1
    | (inr (inr state'), e1) => (inr (Some state'), e1)
    end.
Proof.
  cbn [Main.approval_rounds]. unfold mbind at 1, M_bind.
  by destruct (round regen_round state e) as [[err|[[r' state']|state']] e1].
Qed.

(** With [n] rounds left, [S n] passes end the loop. *)
Lemma approval_rounds_end n : ∀ regen_round fuel state e,
  (regen_round + n = MAX_REGEN)%nat → (n < fuel)%nat →
  approval_rounds fuel regen_round state e
    = approval_rounds (S n) regen_round state e ∧
  (approval_rounds fuel regen_round state e).1 ≠ inr None ∧
  ∃ new, log (approval_rounds fuel regen_round state e).2 = log e ++ new ∧
         (count is_scored new ≤ S n)%nat ∧
         (count is_regenerating new ≤ n)%nat.
Proof.
  induction n as [|n IH]; intros regen_round fuel state e Hsum Hfuel;
    (destruct fuel as [|fuel]; [lia|]); rewrite !approval_rounds_S;
    destruct (emits_round regen_round state e) as (new & Hl & Hs & Hr);
    destruct (round regen_round state e) as [[err|[[r' state']|state']] e1] eqn:Hround;
    simpl in Hl.
  - rewrite decide_False in Hr by lia.
    split_and!; [done|done|]. exists new. split_and!; [done|lia|lia].
  - apply round_loops_back in Hround. lia.
  - rewrite decide_False in Hr by lia.
    split_and!; [done|done|]. exists new. split_and!; [done|lia|lia].
  - split_and!; [done|done|]. exists new.
    destruct (decide _); split_and!; [done|lia|lia|done|lia|lia].
  - apply round_loops_back in Hround as [-> Hle].
    rewrite decide_True in Hr by lia.
    destruct (IH (S regen_round) fuel state' e1)
      as (Heq & Hnone & new' & Hl' & Hs' & Hr'); [lia|lia|].
    split_and!; [done|done|].
    exists (new ++ new'). rewrite Hl', Hl, app_assoc, !count_app.
    split_and!; [done|lia|lia].
  - split_and!; [done|done|]. exists new.
    destruct (decide _); split_and!; [done|lia|lia|done|lia|lia].
Qed.

(** What follows the loop: execution, the printing of its results, and
    persistence. *)
Lemma run_approval_loop_unfold fuel state e :
  run_approval_loop fuel state e
  = match approval_rounds fuel 0 state e with
    | (inl err, e1) => (inl err, e1)
    | (inr None, e1) => (inr None, e1)
    | (inr (Some state'), e1) =>
        (_ ← record Executed;
         state ← call (execution_node state');
         _ ← lift (print_results state);
         _ ← record Persisted;
         state ← call (persistence_node state);
         mret (Some state)) e1
    end.
Proof.
  unfold Main.run_approval_loop. unfold mbind at 1, M_bind.
  by destruct (approval_rounds fuel 0 state e) as [[err|[state'|]] e1].
Qed.

(** C1.  Any number of passes above [MAX_REGEN] gives the loop's result:
    the run never needs more than [MAX_REGEN + 1] = 4 passes, whatever the
    agents and the terminal do, and it scores at most 4 times and opens at
    most 3 regeneration rounds.  A non-empty regen list that arrives when 3
    rounds are used up regenerates nothing: the state, with its drafts, is
    handed on as it is, the loop is left for execution, and only the notice
    of the skip is printed. *)
Theorem regeneration_bounded fuel state e :
  (MAX_REGEN < fuel)%nat →
  run_approval_loop fuel state e = run_approval_loop (S MAX_REGEN) state e ∧
  (run_approval_loop fuel state e).1 ≠ inr None ∧
  (∃ new, log (run_approval_loop fuel state e).2 = log e ++ new ∧
          (count is_scored new ≤ S MAX_REGEN)%nat ∧
          (count is_regenerating new ≤ MAX_REGEN)%nat) ∧
  ∀ regen state' e', regen ≠ [] →
    regeneration MAX_REGEN regen state' e'
    = (inr (inr state'),
       {| world := world e'; log := log e' ++ [RegenSkipped] |}).
Proof.
  intros Hfuel.
  destruct (approval_rounds_end MAX_REGEN 0 fuel state e)
    as (Heq & Hnone & new & Hl & Hs & Hr); [done|done|].
  split_and!.
  - by rewrite !run_approval_loop_unfold, Heq.
  - rewrite run_approval_loop_unfold.
    destruct (approval_rounds fuel 0 state e) as [[err|[state'|]] e1]; [done| |done].
    intros Hres.
    match type of Hres with
    | (?m).1 = _ => destruct m as [r e2] eqn:Hpost
    end.
    simpl in Hres. subst r.
    apply bind_inr in Hpost as (x1 & e3 & _ & Hpost).
    apply bind_inr in Hpost as (x2 & e4 & _ & Hpost).
    apply bind_inr in Hpost as (x3 & e5 & _ & Hpost).
    apply bind_inr in Hpost as (x4 & e6 & _ & Hpost).
    apply bind_inr in Hpost as (x5 & e7 & _ & Hpost).
    done.
  - rewrite run_approval_loop_unfold.
    destruct (approval_rounds fuel 0 state e) as [[err|[state'|]] e1];
      simpl in Hl; [by exists new| |by exists new].
    assert (Hpost : emits 0 0
      (_ ← record Executed;
       state ← call (execution_node state');
       _ ← lift (print_results state);
       _ ← record Persisted;
       state ← call (persistence_node state);
       mret (Some state) : M World (option pydict))).
    { apply (emits_bind 0 0 0 0); [apply (emits_record Executed)|]. intros _.
      apply (emits_bind 0 0 0 0); [apply emits_call|]. intros st.
      apply (emits_bind 0 0 0 0); [apply emits_lift|]. intros _.
      apply (emits_bind 0 0 0 0); [apply (emits_record Persisted)|]. intros _.
      apply (emits_bind 0 0 0 0); [apply emits_call|]. intros st'.
      apply emits_ret. }
    destruct (Hpost e1) as (new' & Hl' & Hs' & Hr').
    exists (new ++ new'). rewrite Hl', Hl, app_assoc, !count_app.
    split_and!; [done|lia|lia].
  - intros regen state' e'. apply regeneration_over_bound.
Qed.






(** *** Sending, and what regeneration replaces *)

Lemma only_ret {A} P (x : A) : only P (mret x : M World A).
Proof. intros e. exists []. simpl. by rewrite app_nil_r. Qed.

Lemma only_lift {A} P (r : exn + A) : only P (lift r : M World A).
Proof. intros e. exists []. simpl. by rewrite app_nil_r. Qed.

Lemma only_call {A} P (f : World → (exn + A) * World) : only P (call f).
Proof.
  intros e. exists []. unfold call. destruct (f (world e)). simpl.
  by rewrite app_nil_r.
Qed.

Lemma only_record (P : Action → Prop) a : P a → only P (record a : M World ()).
Proof. intros Ha e. exists [a]. simpl. split; [done|]. by apply Forall_singleton. Qed.

Lemma only_bind {A B} P (m : M World A) (f : A → M World B) :
  only P m → (∀ x, only P (f x)) → only P (m ≫= f).
Proof.
  intros Hm Hf e. destruct (Hm e) as (n1 & Hl1 & H1).
  unfold mbind, M_bind. destruct (m e) as [[err|x] e1]; simpl in *.
  - by exists n1.
  - destruct (Hf x e1) as (n2 & Hl2 & H2).
    exists (n1 ++ n2). rewrite Hl2, Hl1, app_assoc. split; [done|].
    by apply Forall_app.
Qed.

Lemma only_for_each {A B} P (f : A → M World B) xs :
  (∀ x, only P (f x)) → only P (for_each f xs).
Proof.
  intros Hf. induction xs as [|x xs IH]; simpl.
  - apply only_ret.
  - apply only_bind; [apply Hf|]. intros y.
    apply only_bind; [apply IH|]. intros ys. apply only_ret.
Qed.

Lemma only_regen_draft regen state d :
  only (λ a, is_send a = false) (regen_draft World _generate_draft regen state d).
Proof.
  unfold regen_draft. apply only_bind; [apply only_lift|]. intros c.
  destruct (in_strs c regen); [|apply only_ret].
  apply only_bind; [by apply only_record|]. intros _. apply only_call.
Qed.

Lemma only_round regen_round state :
  only (λ a, is_send a = false) (round regen_round state).
Proof.
  unfold Main.round, Main.decision, Main.regeneration.
  apply only_bind.
  - apply only_bind; [by apply only_record|]. intros _.
    apply only_bind; [apply only_call|]. intros st.
    apply only_bind; [apply only_lift|]. intros _.
    apply only_bind; [by apply only_record|]. intros _.
    apply only_bind; [apply only_call|]. intros raw.
    destruct (parse_decision is_space lower (strip is_space raw)) as [approved regen].
    apply only_bind; [apply only_lift|]. intros updated. apply only_ret.
  - intros [regen st]. simpl. destruct regen as [|ch regen]; [apply only_ret|].
    destruct (decide _).
    + apply only_bind; [by apply only_record|]. intros _. apply only_ret.
    + apply only_bind; [by apply only_record|]. intros _.
      apply only_bind; [apply only_lift|]. intros cur.
      apply only_bind; [apply only_lift|]. intros ds.
      apply only_bind; [|intros; apply only_ret].
      apply only_for_each, only_regen_draft.
Qed.

Lemma only_approval_rounds fuel : ∀ regen_round state,
  only (λ a, is_send a = false) (approval_rounds fuel regen_round state).
Proof.
  induction fuel as [|fuel IH]; intros regen_round state; simpl.
  - apply only_ret.
  - apply only_bind; [apply only_round|].
    intros [[r' state']|state']; [apply IH | apply only_ret].
Qed.

(** Sending comes last and once.  Whatever the agents and the terminal
    do, the run calls the execution agent at most once and the persistence
    agent at most once, the execution agent only after the approval loop has
    ended and the persistence agent only after the execution agent; and a
    run that returns a state has called both. *)
Theorem sends_once_at_the_end fuel state e :
  ∃ before after,
    log (run_approval_loop fuel state e).2 = log e ++ before ++ after ∧
    Forall (λ a, is_send a = false) before ∧
    (after = [] ∨ after = [Executed] ∨ after = [Executed; Persisted]) ∧
    ∀ final, (run_approval_loop fuel state e).1 = inr (Some final) →
             after = [Executed; Persisted].
Proof.
  rewrite run_approval_loop_unfold.
  destruct (only_approval_rounds fuel 0 state e) as (before & Hl & Hb).
  destruct (approval_rounds fuel 0 state e) as [[err|[state'|]] e1]; simpl in Hl.
  - exists before, []. rewrite app_nil_r. split_and!; [done|done|by left|done].
  - exists before. unfold mbind, M_bind, record, call, lift, mret, M_ret.
    cbn [world log].
    destruct (execution_node state' (world e1)) as [[err|st1] w1].
    + exists [Executed]. simpl. rewrite Hl, <- app_assoc.
      split_and!; [done|done|by right; left|done].
    + destruct (print_results st1) as [err|[]].
      * exists [Executed]. simpl. rewrite Hl, <- app_assoc.
        split_and!; [done|done|by right; left|done].
      * cbn [world log].
        destruct (persistence_node st1 w1) as [[err|st2] w2];
          exists [Executed; Persisted]; simpl; rewrite Hl, <- !app_assoc;
          (split_and!; [done|done|by right; right|done]).
  - exists before, []. rewrite app_nil_r. split_and!; [done|done|by left|done].
Qed.

Lemma for_each_regen regen state ds : ∀ e new e',
  for_each (regen_draft World _generate_draft regen state) ds e = (inr new, e') →
  log e' = log e ++ (Generated <$> regen_channels regen ds) ∧
  Forall2 (λ d d', ∃ ch, subscript d (py "channel") = inr ch ∧
                     if in_strs ch regen
                     then ∃ w w', _generate_draft ch state w = (inr d', w')
                     else d' = d) ds new.
Proof.
  induction ds as [|d ds IH]; intros e new e'; simpl.
  - intros H. inversion H; subst. rewrite app_nil_r. split; [done|constructor].
  - intros H. apply bind_inr in H as (y & e1 & Hy & H).
    apply bind_inr in H as (ys & e2 & Hys & H). inversion H; subst.
    apply IH in Hys as [Hl Hall].
    unfold regen_draft in Hy. apply bind_inr in Hy as (ch & e0 & Hch & Hy).
    unfold lift in Hch. inversion Hch; subst e0. rewrite H1.
    destruct (in_strs ch regen) eqn:Hin.
    + apply bind_inr in Hy as ([] & e3 & Hrec & Hy).
      unfold record in Hrec. inversion Hrec; subst e3.
      unfold call in Hy. simpl in Hy.
      destruct (_generate_draft ch state (world e)) as [r w'] eqn:Hgen.
      inversion Hy; subst. simpl in Hl. split.
      * rewrite Hl. simpl. by rewrite <- app_assoc.
      * constructor; [|done]. exists ch. split; [done|]. rewrite Hin. eauto.
    + inversion Hy; subst. split; [done|].
      constructor; [|done]. exists ch. split; [done|]. by rewrite Hin.
Qed.

(** What a regeneration round replaces.  When the regeneration loops back
    to scoring, the round count has grown by one; the new state is the old
    one with a new "drafts" list of the same length and order; a draft
    whose channel is in the regen list is what the generator returned for
    that channel and the old state, whether or not it was approved; every
    other draft is kept; and the generator was called once for each
    replaced draft, in the order of the drafts, after the notice of the
    round. *)
Theorem regeneration_replaces regen_round regen state e r' state' e' :
  regeneration regen_round regen state e = (inr (inl (r', state')), e') →
  r' = S regen_round ∧
  ∃ cur ds new,
    dict_get (py "drafts") state = Some cur ∧ iterate cur = inr ds ∧
    state' = dict_set (py "drafts") (VList new) state ∧
    log e' = log e ++ Regenerating (S regen_round)
                     :: (Generated <$> regen_channels regen ds) ∧
    Forall2 (λ d d', ∃ ch, subscript d (py "channel") = inr ch ∧
                       if in_strs ch regen
                       then ∃ w w', _generate_draft ch state w = (inr d', w')
                       else d' = d) ds new.
Proof.
  unfold Main.regeneration. destruct regen as [|c regen]; [done|].
  destruct (decide _).
  { intros H. apply bind_inr in H as (x & e1 & _ & H). done. }
  intros H.
  apply bind_inr in H as ([] & e1 & Hrec & H).
  apply bind_inr in H as (cur & e2 & Hcur & H).
  apply bind_inr in H as (ds & e3 & Hds & H).
  apply bind_inr in H as (new & e4 & Hnew & H).
  inversion H; subst. split; [done|].
  unfold record in Hrec. inversion Hrec; subst e1.
  unfold lift in Hcur, Hds. inversion Hds; subst e3.
  assert (Hget : dict_get (py "drafts") state = Some cur ∧ e2 = {| world := world e; log := log e ++ [Regenerating (S regen_round)] |}).
  { simpl in Hcur. destruct (dict_get (py "drafts") state); by inversion Hcur. }
  destruct Hget as [Hget ->].
  apply for_each_regen in Hnew as [Hl Hall].
  exists cur, ds, new. split_and!; try done.
  rewrite Hl. simpl. by rewrite <- app_assoc.
Qed.




(** Drafts that could be displayed can be marked: after [print_drafts]
    has returned, the marking of the round does not raise, and it gives one
    marked draft for each draft. *)
Theorem displayed_drafts_can_be_marked approved drafts :
  print_drafts drafts = inr () →
  ∃ ds marked, iterate drafts = inr ds ∧
               mark_approved approved drafts = inr marked ∧
               length marked = length ds.
Proof.
  unfold print_drafts, mark_approved, mbind at 1 3, exn_bind at 1 3.
  destruct (iterate drafts) as [err|ds]; [done|]. simpl.
  intros H. destruct (mapM print_draft ds) as [err|us] eqn:Hus; [done|].
  apply mapM_inr in Hus.
  destruct (mapM_total (mark_draft approved) (λ _ _, True) ds) as (marked & Hm & Hlen).
  - eapply Forall_forall. intros d Hd.
    apply list_elem_of_lookup in Hd as [i Hi].
    destruct (Forall2_lookup_l _ _ _ _ _ Hus Hi) as (u & _ & Hd).
    unfold print_draft, mbind, exn_bind in Hd.
    destruct d as [| | | | | |kvs]; try done. simpl in Hd |- *.
    destruct (dict_get (py "channel") kvs); [|done]. by eexists.
  - exists ds, marked. split_and!; [done|done|]. symmetry. by eapply Forall2_length.
Qed.

Lemma lstrip_sub s c : c ∈ lstrip is_space s → c ∈ s.
Proof.
  induction s as [|x s IH]; simpl; [done|]. destruct (is_space x); set_solver.
Qed.

Lemma strip_sub s c : c ∈ strip is_space s → c ∈ s.
Proof.
  unfold strip. rewrite elem_of_reverse. intros H%lstrip_sub.
  rewrite elem_of_reverse in H. by apply lstrip_sub.
Qed.

(** The characters of a token are characters of the line. *)
Lemma split_from_sub s : ∀ cur t c,
  t ∈ split_from is_space cur s → c ∈ t → c ∈ cur ∨ c ∈ s.
Proof.
  induction s as [|x s IH]; intros cur t c; simpl.
  - destruct cur as [|y cur]; [by intros ?%elem_of_nil|].
    rewrite list_elem_of_singleton. intros -> Hc. left. by apply elem_of_reverse.
  - destruct (is_space x).
    + destruct cur as [|y cur].
      * intros Ht Hc. destruct (IH _ _ _ Ht Hc); set_solver.
      * rewrite elem_of_cons. intros [->|Ht] Hc.
        -- left. by apply elem_of_reverse.
        -- destruct (IH _ _ _ Ht Hc); set_solver.
    + intros Ht Hc. destruct (IH _ _ _ Ht Hc) as [H|H]; set_solver.
Qed.

Lemma split_eq_none token : eq_sign ∉ token → split_eq token = None.
Proof.
  induction token as [|c token IH]; simpl; [done|]. intros Hn.
  rewrite decide_False by set_solver. by rewrite IH by set_solver.
Qed.

Lemma parse_tokens_none tokens : ∀ acc,
  Forall (λ t, eq_sign ∉ t) tokens →
  foldl (parse_token is_space lower) acc tokens = acc.
Proof.
  induction tokens as [|t tokens IH]; intros acc Hall; simpl; [done|].
  apply Forall_cons in Hall as [Ht Hall].
  unfold parse_token at 2. rewrite split_eq_none by done. by apply IH.
Qed.

(** A line without ["="], the empty line among them, decides nothing:
    it approves no channel and sends none back, so the pass that reads the
    line is the last one and no draft is marked approved. *)
Theorem no_choice_ends_loop raw regen_round state e :
  eq_sign ∉ raw →
  parse_decision is_space lower (strip is_space raw) = ([], []) ∧
  regeneration regen_round
    (parse_decision is_space lower (strip is_space raw)).2 state e
  = (inr (inr state), e) ∧
  ∀ d d', mark_draft (parse_decision is_space lower (strip is_space raw)).1 d = inr d' →
          subscript d' (py "approved") = inr (VBool false).
Proof.
  intros Hraw.
  assert (Hp : parse_decision is_space lower (strip is_space raw) = ([], [])).
  { unfold parse_decision. apply parse_tokens_none, Forall_forall.
    intros t Ht Heq. unfold split in Ht.
    destruct (split_from_sub _ _ _ _ Ht Heq) as [H|H]; [by apply elem_of_nil in H|].
    by apply strip_sub in H. }
  rewrite Hp. split_and!; [done|done|].
  intros d d' Hd. apply mark_draft_inr in Hd as (kvs & ch & -> & _ & ->).
  simpl. rewrite dict_get_set_eq. by destruct ch.
Qed.

End Facts.

Lemma regeneration_replaces_witness :
  1%nat = 1%nat ∧
  ∃ cur ds new,
    dict_get (py "drafts") sample_state = Some cur ∧ iterate cur = inr ds ∧
    dict_set (py "drafts")
      (VList [sample_draft (VStr (py "email")) (py "Dear team");
              sample_draft (VStr (py "sms")) (py "a new draft")]) sample_state
    = dict_set (py "drafts") (VList new) sample_state ∧
    log {| world := world sample_env;
           log := [Regenerating 1; Generated (VStr (py "sms"))] |}
    = log sample_env ++ Regenerating 1
                        :: (Generated <$> regen_channels [py "sms"] ds) ∧
    Forall2 (λ d d', ∃ ch, subscript d (py "channel") = inr ch ∧
                       if in_strs ch [py "sms"]
                       then ∃ w w', sample_generate ch sample_state w = (inr d', w')
                       else d' = d) ds new.
Proof.
  apply (regeneration_replaces (list pystr) sample_generate 0 [py "sms"]
           sample_state sample_env).
  vm_compute. reflexivity.
Defined.

Lemma displayed_drafts_can_be_marked_witness :
  ∃ ds marked,
    iterate (default (VList []) (dict_get (py "drafts") sample_state)) = inr ds ∧
    mark_approved [py "sms"] (default (VList []) (dict_get (py "drafts") sample_state))
    = inr marked ∧
    length marked = length ds.
Proof.
  apply (displayed_drafts_can_be_marked [py "sms"]
           (default (VList []) (dict_get (py "drafts") sample_state))).
  vm_compute. reflexivity.
Defined.

Lemma no_choice_ends_loop_witness :
  parse_decision ascii_space ascii_lower (strip ascii_space (py "  looks good "))
  = ([], []) ∧
  sample_regeneration 2
    (parse_decision ascii_space ascii_lower (strip ascii_space (py "  looks good "))).2
    sample_state sample_env
  = (inr (inr sample_state), sample_env) ∧
  ∀ d d',
    mark_draft
      (parse_decision ascii_space ascii_lower (strip ascii_space (py "  looks good "))).1 d
    = inr d' →
    subscript d' (py "approved") = inr (VBool false).
Proof.
  apply (no_choice_ends_loop (list pystr) sample_generate ascii_space ascii_lower
           (py "  looks good ") 2 sample_state sample_env).
  apply (bool_decide_unpack _). vm_compute. exact I.
Defined.

Lemma regeneration_bounded_witness :
  sample_loop 7 sample_state sample_env
    = sample_loop (S MAX_REGEN) sample_state sample_env ∧
  (sample_loop 7 sample_state sample_env).1 ≠ inr None ∧
  (∃ new, log (sample_loop 7 sample_state sample_env).2 = log sample_env ++ new ∧
          (count is_scored new ≤ S MAX_REGEN)%nat ∧
          (count is_regenerating new ≤ MAX_REGEN)%nat) ∧
  ∀ regen state' e', regen ≠ [] →
    sample_regeneration MAX_REGEN regen state' e'
    = (inr (inr state'),
       {| world := world e'; log := log e' ++ [RegenSkipped] |}).
Proof.
  apply (regeneration_bounded (list pystr) sample_node sample_node sample_node
           sample_generate sample_input ascii_space ascii_lower
           7 sample_state sample_env).
  unfold MAX_REGEN. lia.
Defined.

(** The sample run: what the loop did, and its result. *)
Example sample_run_log :
  log (sample_loop 4 sample_state sample_env).2
  = [Scored; Prompted; Regenerating 1; Generated (VStr (py "sms"));
     Scored; Prompted; Executed; Persisted].
Proof. vm_compute. reflexivity. Qed.

(** Four requests in a row to regenerate: the fourth is not served. *)
Example four_regen_requests :
  log (sample_loop 4 sample_state
         {| world := replicate 4 (py "sms=regen"); log := [] |}).2
  = [Scored; Prompted; Regenerating 1; Generated (VStr (py "sms"));
     Scored; Prompted; Regenerating 2; Generated (VStr (py "sms"));
     Scored; Prompted; Regenerating 3; Generated (VStr (py "sms"));
     Scored; Prompted; RegenSkipped; Executed; Persisted].
Proof. vm_compute. reflexivity. Qed.




End MainFacts.

(** ** The PII gate *)

Module SanitizerFacts.
Import Sanitizer.

(** *** Matching *)

Lemma run_length_le cls cap s : (run_length cls cap s ≤ length s)%nat.
Proof.
  revert cap. induction s as [|c s IH]; intros cap; simpl; [lia|].
  destruct (cls c); [|lia]. destruct cap as [[|k]|]; [lia| |].
  - specialize (IH (Some k)). lia.
  - specialize (IH None). lia.
Qed.

Lemma run_length_cap cls h s : (run_length cls (Some h) s ≤ h)%nat.
Proof.
  revert h. induction s as [|c s IH]; intros h; simpl; [lia|].
  destruct (cls c); [|lia]. destruct h as [|k]; [lia|].
  specialize (IH k). lia.
Qed.

Lemma run_length_all cls cap s :
  Forall (λ c, cls c = true) (take (run_length cls cap s) s).
Proof.
  revert cap. induction s as [|c s IH]; intros cap; simpl; [constructor|].
  destruct (cls c) eqn:Hc; [|constructor].
  destruct cap as [[|k]|]; simpl; [constructor| |]; constructor; auto.
Qed.

(** A run of class characters at the start of [s], within the bound, is
    no longer than what the repetition takes. *)
Lemma run_length_max cls cap m rest :
  Forall (λ c, cls c = true) m →
  (∀ h, cap = Some h → (length m ≤ h)%nat) →
  (length m ≤ run_length cls cap (m ++ rest))%nat.
Proof.
  revert cap. induction m as [|c m IH]; intros cap Hall Hcap; simpl; [lia|].
  apply Forall_cons in Hall as [Hc Hall]. rewrite Hc.
  destruct cap as [[|k]|].
  - specialize (Hcap 0%nat eq_refl). simpl in Hcap. lia.
  - assert (length m ≤ run_length cls (Some k) (m ++ rest))%nat; [|lia].
    apply IH; [done|]. intros h [= <-].
    specialize (Hcap (S k) eq_refl). simpl in Hcap. lia.
  - assert (length m ≤ run_length cls None (m ++ rest))%nat; [|lia].
    apply IH; [done|]. done.
Qed.

Lemma backtrack_sound lo rest s k n :
  backtrack lo rest s k = Some n →
  ∃ j m, (lo ≤ j ≤ k)%nat ∧ rest (drop j s) = Some m ∧ n = (j + m)%nat.
Proof.
  induction k as [|k IH]; simpl.
  - destruct (lo <=? 0)%nat eqn:Hlo; [|done].
    destruct (rest (drop 0 s)) as [m|] eqn:Hm; [|done]. simpl.
    intros [= <-]. apply Nat.leb_le in Hlo. exists 0%nat, m. split_and!; [lia|lia|done|done].
  - destruct (lo <=? S k)%nat eqn:Hlo.
    + destruct (rest (drop (S k) s)) as [m|] eqn:Hm; simpl.
      * intros [= <-]. apply Nat.leb_le in Hlo.
        exists (S k), m. split_and!; [lia|lia|done|done].
      * intros H. destruct (IH H) as (j & m & Hj & Hr & ->).
        exists j, m. split_and!; [lia|lia|done|done].
    + intros H. destruct (IH H) as (j & m & Hj & Hr & ->).
      exists j, m. split_and!; [lia|lia|done|done].
Qed.

Lemma backtrack_complete lo rest s k j :
  (lo ≤ j ≤ k)%nat → is_Some (rest (drop j s)) →
  is_Some (backtrack lo rest s k).
Proof.
  intros Hj [m Hm]. induction k as [|k IH]; simpl.
  - assert (j = 0)%nat as -> by lia.
    rewrite (proj2 (Nat.leb_le lo 0)) by lia. rewrite Hm. simpl. by eexists.
  - destruct (decide (j = S k)) as [->|Hne].
    + rewrite (proj2 (Nat.leb_le lo (S k))) by lia. rewrite Hm. simpl. by eexists.
    + destruct (if (lo <=? S k)%nat then _ else None) as [n|]; [by eexists|].
      apply IH. lia.
Qed.

Lemma match_at_sound r s n :
  match_at r s = Some n → (n ≤ length s)%nat ∧ matches r (take n s).
Proof.
  revert s n. induction r as [|it r IH]; intros s n; simpl.
  - intros [= <-]. split; [lia|]. rewrite take_0. constructor.
  - intros H. apply backtrack_sound in H as (j & m & Hj & Hm & ->).
    apply IH in Hm as [Hlen Hm]. rewrite length_drop in Hlen.
    pose proof (run_length_le (cls it) (hi it) s) as Hrun.
    split; [lia|].
    rewrite <- take_take_drop.
    constructor; [| | |done].
    + replace (take j s) with (take j (take (run_length (cls it) (hi it) s) s)).
      * apply Forall_take, run_length_all.
      * rewrite take_take. f_equal. lia.
    + rewrite length_take. lia.
    + intros h Hh. rewrite length_take.
      pose proof (run_length_cap (cls it) h s). rewrite Hh in Hj. lia.
Qed.

Lemma match_at_complete r m rest :
  matches r m → is_Some (match_at r (m ++ rest)).
Proof.
  intros Hm. revert rest. induction Hm as [|it r m1 m2 Hall Hlo Hhi Hm IH];
    intros rest; simpl.
  - by eexists.
  - apply (backtrack_complete _ _ _ _ (length m1)).
    + split; [done|]. rewrite <- app_assoc. by apply run_length_max.
    + rewrite <- app_assoc, drop_app_length. apply IH.
Qed.

(** A match is at least as long as the repetitions require, and every
    repetition that must occur leaves one of its characters in the match;
    all characters of a match belong to a class of the pattern. *)
Lemma matches_length r m : matches r m → (sum_list (lo <$> r) ≤ length m)%nat.
Proof.
  induction 1 as [|it r m1 m2 Hall Hlo Hhi Hm IH]; [simpl; lia|].
  change (sum_list (lo <$> it :: r)) with (lo it + sum_list (lo <$> r))%nat.
  rewrite length_app. lia.
Qed.

Lemma matches_required r m it :
  matches r m → it ∈ r → (1 ≤ lo it)%nat → ∃ c, c ∈ m ∧ cls it c = true.
Proof.
  induction 1 as [|it' r m1 m2 Hall Hlo Hhi Hm IH]; intros Hin Hone.
  - by apply elem_of_nil in Hin.
  - apply elem_of_cons in Hin as [->|Hin].
    + destruct m1 as [|c m1]; [simpl in Hlo; lia|].
      exists c. split; [set_solver|]. by apply Forall_cons in Hall as [? _].
    + destruct (IH Hin Hone) as (c & Hc & Hcls). exists c. split; [set_solver|done].
Qed.

Lemma matches_chars r m c :
  matches r m → c ∈ m → ∃ it, it ∈ r ∧ cls it c = true.
Proof.
  induction 1 as [|it r m1 m2 Hall Hlo Hhi Hm IH]; intros Hc.
  - by apply elem_of_nil in Hc.
  - apply elem_of_app in Hc as [Hc|Hc].
    + exists it. split; [set_solver|]. rewrite Forall_forall in Hall. by apply Hall.
    + destruct (IH Hc) as (it' & Hit & Hcls). exists it'. split; [set_solver|done].
Qed.

(** *** Substitution *)

(** A piece [m] that does not contain [x] lies on one side of [x]. *)
Lemma piece_beside {A} (x : A) l1 l2 pre m post :
  l1 ++ x :: l2 = pre ++ m ++ post → x ∉ m →
  (∃ post', l1 = pre ++ m ++ post') ∨ (∃ pre', l2 = pre' ++ m ++ post).
Proof.
  revert l1. induction pre as [|p pre IH]; intros l1 Heq Hx.
  - simpl in Heq. apply app_eq_inv in Heq as [(k & -> & Hk)|(k & -> & Hk)].
    + left. by exists k.
    + destruct k as [|y k].
      * left. exists []. by rewrite !app_nil_r.
      * simpl in Hk. inversion Hk; subst. exfalso. apply Hx. set_solver.
  - destruct l1 as [|a l1]; simpl in Heq; inversion Heq; subst.
    + right. by exists pre.
    + destruct (IH l1) as [(post' & ->)|(pre' & ->)]; [done|done| |].
      * left. by exists post'.
      * right. by exists pre'.
Qed.

Section Substitution.

(** [r] is the pattern replaced and [r'] the pattern looked for in the
    result; the replacement is [body] between two characters that [r']
    cannot match. *)
Variables (r r' : Pattern) (lb rb : N) (body : pystr).

Hypothesis r_nonempty : ¬ matches r [].
Hypothesis r'_nonempty : ¬ matches r' [].
Hypothesis lb_outside : ∀ it, it ∈ r' → cls it lb = false.
Hypothesis rb_outside : ∀ it, it ∈ r' → cls it rb = false.
Hypothesis body_clean : no_match r' body.

Let repl : pystr := lb :: body ++ [rb].

Lemma match_without x m : (∀ it, it ∈ r' → cls it x = false) → matches r' m → x ∉ m.
Proof.
  intros Hout Hm Hx. destruct (matches_chars _ _ _ Hm Hx) as (it & Hit & Hcls).
  rewrite (Hout it Hit) in Hcls. done.
Qed.

(** Up to the first replacement the result is the text itself. *)
Lemma sub_from_prefix s m :
  lb ∉ m → m `prefix_of` sub_from r repl 0 s → m `prefix_of` s.
Proof.
  intros Hlb. revert m Hlb. induction s as [|c s IH]; intros m Hlb Hpre.
  - assert (m = []) as ->; [|apply prefix_nil].
    simpl in Hpre. destruct (match_at r []).
    + destruct m as [|x m]; [done|]. unfold repl in Hpre.
      apply prefix_cons_inv_1 in Hpre as ->. exfalso. apply Hlb. set_solver.
    + by apply prefix_nil_inv.
  - assert (Hrepl : ∀ tl, m `prefix_of` repl ++ tl → m = []).
    { intros tl Htl. destruct m as [|x m]; [done|]. unfold repl in Htl. simpl in Htl.
      apply prefix_cons_inv_1 in Htl as ->. exfalso. apply Hlb. set_solver. }
    cbn [sub_from] in Hpre. destruct (match_at r (c :: s)) as [[|len]|].
    + apply Hrepl in Hpre as ->. apply prefix_nil.
    + apply Hrepl in Hpre as ->. apply prefix_nil.
    + destruct m as [|x m]; [apply prefix_nil|].
      pose proof (prefix_cons_inv_1 _ _ _ _ Hpre) as ->.
      apply prefix_cons, IH; [set_solver|]. by apply prefix_cons_inv_2 in Hpre.
Qed.

(** A replacement in front of a clean text leaves it clean. *)
Lemma repl_clean out : no_match r' out → no_match r' (repl ++ out).
Proof.
  intros Hout pre m post Heq Hm.
  assert (Hl : lb ∉ m) by (by apply match_without).
  assert (Hr : rb ∉ m) by (by apply match_without).
  unfold repl in Heq.
  change ((lb :: body ++ [rb]) ++ out) with ([] ++ lb :: ((body ++ [rb]) ++ out)) in Heq.
  apply piece_beside in Heq as [(post' & Heq)|(pre' & Heq)]; [| |done].
  - symmetry in Heq. apply app_eq_nil in Heq as [_ Heq].
    apply app_eq_nil in Heq as [-> _]. done.
  - rewrite <- app_assoc in Heq. simpl in Heq.
    apply piece_beside in Heq as [(post' & Heq)|(pre'' & Heq)]; [| |done].
    + by apply (body_clean _ _ _ Heq).
    + by apply (Hout _ _ _ Heq).
Qed.

Lemma clean_tail c s :
  clean_where_unmatched r r' (c :: s) → clean_where_unmatched r r' s.
Proof. intros H pre t ->. apply (H (c :: pre)). done. Qed.

Lemma sub_from_clean s skip :
  clean_where_unmatched r r' s → no_match r' (sub_from r repl skip s).
Proof.
  revert skip. induction s as [|c s IH]; intros skip Hs.
  - assert (Hnil : no_match r' []).
    { intros pre m post Heq Hm. symmetry in Heq.
      apply app_eq_nil in Heq as [_ Heq]. apply app_eq_nil in Heq as [-> _]. done. }
    simpl. destruct skip; [|done].
    destruct (match_at r []) as [n|] eqn:Hn; [|done].
    apply match_at_sound in Hn as [_ Hn]. rewrite take_nil in Hn. done.
  - pose proof (IH 0%nat (clean_tail _ _ Hs)) as IH0.
    cbn [sub_from]. destruct skip as [|k]; [|apply IH; by eapply clean_tail].
    destruct (match_at r (c :: s)) as [[|len]|] eqn:Hmatch.
    + apply match_at_sound in Hmatch as [_ Hmatch]. rewrite take_0 in Hmatch. done.
    + apply repl_clean, IH. by eapply clean_tail.
    + intros pre m post Heq Hm. destruct pre as [|p pre].
      * simpl in Heq.
        assert (Hpre : m `prefix_of` c :: s).
        { apply sub_from_prefix; [by apply match_without|].
          cbn [sub_from]. rewrite Hmatch, Heq. by exists post. }
        destruct Hpre as [rest Hrest].
        by apply (Hs [] (c :: s) eq_refl Hmatch m rest).
      * simpl in Heq. inversion Heq as [[Hp Heq']].
        by apply (IH0 _ _ _ Heq').
Qed.

End Substitution.

(** A text without a character that the pattern needs has no match. *)
Lemma no_match_without r it s :
  it ∈ r → (1 ≤ lo it)%nat → Forall (λ c, cls it c = false) s → no_match r s.
Proof.
  intros Hit Hlo Hs pre m post -> Hm.
  destruct (matches_required _ _ _ Hm Hit Hlo) as (c & Hc & Hcls).
  rewrite Forall_forall in Hs. rewrite Hs in Hcls; [done|]. set_solver.
Qed.

Lemma clean_same r s : clean_where_unmatched r r s.
Proof.
  intros pre t -> Hnone m rest -> Hm.
  destruct (match_at_complete r m rest Hm) as [n Hn]. congruence.
Qed.

Lemma clean_other r r' s : no_match r' s → clean_where_unmatched r r' s.
Proof.
  intros Hs pre t -> _ m rest -> Hm. by apply (Hs pre m rest).
Qed.

Lemma no_match_tail r c s : no_match r (c :: s) → no_match r s.
Proof. intros H pre m post ->. by apply (H (c :: pre) m post). Qed.

(** Where nothing matches, substitution changes nothing. *)
Lemma sub_from_unmatched r repl s : no_match r s → sub_from r repl 0 s = s.
Proof.
  induction s as [|c s IH]; intros Hs.
  - simpl. destruct (match_at r []) as [n|] eqn:Hn; [|done].
    apply match_at_sound in Hn as [_ Hn]. rewrite take_nil in Hn.
    exfalso. by apply (Hs [] [] []).
  - cbn [sub_from]. destruct (match_at r (c :: s)) as [n|] eqn:Hn.
    + apply match_at_sound in Hn as [_ Hn]. exfalso.
      apply (Hs [] (take n (c :: s)) (drop n (c :: s))); [|done].
      simpl. by rewrite take_drop.
    + f_equal. apply IH. by eapply no_match_tail.
Qed.

Lemma sub_from_skip r repl k s :
  (k ≤ length s)%nat → sub_from r repl k s = sub_from r repl 0 (drop k s).
Proof.
  revert k. induction s as [|c s IH]; intros k Hk.
  - simpl in Hk. by assert (k = 0)%nat as -> by lia.
  - destruct k as [|k]; [done|]. cbn [sub_from drop]. apply IH. simpl in Hk. lia.
Qed.

(** Substitution replaces matches, and nothing else. *)
Lemma sub_from_replaced r repl s : replaced r repl s (sub_from r repl 0 s).
Proof.
  remember (length s) as n eqn:Hn. revert s Hn.
  induction n as [n IH] using lt_wf_ind. intros s ->.
  destruct s as [|c s].
  - simpl. destruct (match_at r []) as [k|] eqn:Hk; [|constructor].
    apply match_at_sound in Hk as [_ Hk]. rewrite take_nil in Hk.
    pose proof (replaced_match r repl [] [] [] Hk (replaced_nil r repl)) as H.
    simpl in H. rewrite app_nil_r in H. exact H.
  - cbn [sub_from]. destruct (match_at r (c :: s)) as [[|len]|] eqn:Hk.
    + apply match_at_sound in Hk as [_ Hk]. rewrite take_0 in Hk.
      apply (replaced_match r repl [] (c :: s)); [done|].
      constructor. apply (IH (length s)); [simpl; lia|done].
    + apply match_at_sound in Hk as [Hlen Hk]. simpl in Hlen.
      rewrite sub_from_skip by lia.
      rewrite <- (take_drop (S len) (c :: s)) at 1.
      apply replaced_match; [done|]. simpl.
      apply (IH (length (drop len s))); [rewrite length_drop; simpl; lia|done].
    + constructor. apply (IH (length s)); [simpl; lia|done].
Qed.

(** *** The two patterns *)

Section Patterns.

Variables is_digit is_space is_word : N → bool.

(** Below 128 the Unicode tables are the ASCII ones. *)
Hypothesis digit_ascii : ∀ c, (c < 128)%N → is_digit c = ascii_digit c.
Hypothesis space_ascii : ∀ c, (c < 128)%N → is_space c = ascii_space c.
Hypothesis word_ascii : ∀ c, (c < 128)%N → is_word c = ascii_word c.

Abbreviation PHONE := (_PHONE_RE is_digit is_space).
Abbreviation EMAIL := (_EMAIL_RE is_word).

Lemma plain_outside_phone c it : plain c = true → it ∈ PHONE → cls it c = false.
Proof.
  unfold plain. rewrite !andb_true_iff, !negb_true_iff, N.ltb_lt, bool_decide_eq_false.
  intros ((((Hlt & Hd) & Hs) & Hw) & Hp) Hit.
  assert (Hchr : ∀ a, chr a ∈ chr <$> ["+"; "-"; "("; ")"; "."; "@"]%char → is_chr a c = false).
  { intros a Ha. apply bool_decide_eq_false. intros ->. done. }
  unfold _PHONE_RE in Hit. rewrite !elem_of_cons in Hit.
  destruct Hit as [->|[->|[->|[->|Hit]]]]; simpl.
  - apply Hchr. set_solver.
  - by rewrite digit_ascii.
  - unfold phone_class. rewrite digit_ascii, space_ascii, Hd, Hs by done.
    rewrite !Hchr by set_solver. done.
  - by rewrite digit_ascii.
  - by apply elem_of_nil in Hit.
Qed.

Lemma plain_outside_email c it : plain c = true → it ∈ EMAIL → cls it c = false.
Proof.
  unfold plain. rewrite !andb_true_iff, !negb_true_iff, N.ltb_lt, bool_decide_eq_false.
  intros ((((Hlt & Hd) & Hs) & Hw) & Hp) Hit.
  assert (Hchr : ∀ a, chr a ∈ chr <$> ["+"; "-"; "("; ")"; "."; "@"]%char → is_chr a c = false).
  { intros a Ha. apply bool_decide_eq_false. intros ->. done. }
  unfold _EMAIL_RE, exactly in Hit. rewrite !elem_of_cons in Hit.
  destruct Hit as [->|[->|[->|[->|[->|Hit]]]]]; simpl.
  - unfold local_class. rewrite word_ascii, Hw by done.
    rewrite !Hchr by set_solver. done.
  - apply Hchr. set_solver.
  - unfold domain_class. rewrite word_ascii, Hw by done.
    rewrite !Hchr by set_solver. done.
  - apply Hchr. set_solver.
  - by rewrite word_ascii.
  - by apply elem_of_nil in Hit.
Qed.

Lemma PHONE_nonempty : ¬ matches PHONE [].
Proof. intros H. apply matches_length in H. simpl in H. lia. Qed.

Lemma EMAIL_nonempty : ¬ matches EMAIL [].
Proof. intros H. apply matches_length in H. simpl in H. lia. Qed.

(** A text of ASCII characters without a digit has no phone match. *)
Lemma no_digit_no_phone s :
  forallb (λ c, (c <? 128)%N && negb (ascii_digit c)) s = true → no_match PHONE s.
Proof.
  intros Hs.
  apply (no_match_without _ {| cls := is_digit; lo := 1; hi := Some 1%nat |}).
  - unfold _PHONE_RE. set_solver.
  - simpl. lia.
  - apply Forall_forall. intros c Hc.
    rewrite forallb_forall in Hs. apply list_elem_of_In, Hs in Hc.
    apply andb_true_iff in Hc as [Hlt Hd].
    apply N.ltb_lt in Hlt. apply negb_true_iff in Hd. simpl. by rewrite digit_ascii.
Qed.

(** A text without ["@"] has no e-mail match. *)
Lemma no_at_no_email s :
  forallb (λ c, negb (is_chr "@" c)) s = true → no_match EMAIL s.
Proof.
  intros Hs. apply (no_match_without _ (exactly "@")).
  - unfold _EMAIL_RE. set_solver.
  - simpl. lia.
  - apply Forall_forall. intros c Hc.
    rewrite forallb_forall in Hs. apply list_elem_of_In, Hs in Hc.
    by apply negb_true_iff in Hc.
Qed.

(** What [_scrub_text] returns has no substring that either pattern
    matches. *)
Lemma scrub_text_clean text :
  no_match PHONE (_scrub_text is_digit is_space is_word text) ∧
  no_match EMAIL (_scrub_text is_digit is_space is_word text).
Proof.
  unfold _scrub_text, re_sub.
  set (s1 := sub_from PHONE (py "[REDACTED-PHONE]") 0 text).
  assert (H1 : no_match PHONE s1).
  { apply (sub_from_clean PHONE PHONE (chr "[") (chr "]") (py "REDACTED-PHONE")).
    - apply PHONE_nonempty.
    - apply PHONE_nonempty.
    - intros it. by apply plain_outside_phone.
    - intros it. by apply plain_outside_phone.
    - by apply no_digit_no_phone.
    - apply clean_same. }
  split.
  - apply (sub_from_clean EMAIL PHONE (chr "[") (chr "]") (py "REDACTED-EMAIL")).
    + apply EMAIL_nonempty.
    + apply PHONE_nonempty.
    + intros it. by apply plain_outside_phone.
    + intros it. by apply plain_outside_phone.
    + by apply no_digit_no_phone.
    + by apply clean_other.
  - apply (sub_from_clean EMAIL EMAIL (chr "[") (chr "]") (py "REDACTED-EMAIL")).
    + apply EMAIL_nonempty.
    + apply EMAIL_nonempty.
    + intros it. by apply plain_outside_email.
    + intros it. by apply plain_outside_email.
    + by apply no_at_no_email.
    + apply clean_same.
Qed.

(** Scrubbing twice is scrubbing once: a scrubbed text holds nothing
    that a second pass would replace. *)
Theorem scrub_text_idempotent text :
  _scrub_text is_digit is_space is_word (_scrub_text is_digit is_space is_word text)
  = _scrub_text is_digit is_space is_word text.
Proof.
  destruct (scrub_text_clean text) as [Hp He].
  set (out := _scrub_text is_digit is_space is_word text) in *.
  unfold _scrub_text at 1. unfold re_sub.
  by rewrite (sub_from_unmatched PHONE), (sub_from_unmatched EMAIL).
Qed.

(** A text without a digit and without ["@"] comes back as it is. *)
Theorem scrub_text_keeps_plain text :
  forallb (λ c, negb (is_digit c) && negb (is_chr "@" c)) text = true →
  _scrub_text is_digit is_space is_word text = text.
Proof using Type.
  clear digit_ascii space_ascii word_ascii.
  intros Hs. rewrite forallb_forall in Hs.
  assert (Hp : no_match PHONE text).
  { apply (no_match_without _ {| cls := is_digit; lo := 1; hi := Some 1%nat |}).
    - unfold _PHONE_RE. set_solver.
    - simpl. lia.
    - apply Forall_forall. intros c Hc. apply list_elem_of_In, Hs in Hc.
      apply andb_true_iff in Hc as [Hd _]. by apply negb_true_iff in Hd. }
  assert (He : no_match EMAIL text).
  { apply (no_match_without _ (exactly "@")).
    - unfold _EMAIL_RE. set_solver.
    - simpl. lia.
    - apply Forall_forall. intros c Hc. apply list_elem_of_In, Hs in Hc.
      apply andb_true_iff in Hc as [_ Ha]. by apply negb_true_iff in Ha. }
  unfold _scrub_text, re_sub.
  by rewrite (sub_from_unmatched PHONE), (sub_from_unmatched EMAIL).
Qed.

(** Scrubbing only replaces matches: the result is the text with some
    pieces that the phone pattern matches replaced by the phone marker,
    and then some pieces that the e-mail pattern matches replaced by the
    e-mail marker; every other character is kept, in place. *)
Theorem scrub_text_replaces_matches text :
  ∃ mid, replaced PHONE (py "[REDACTED-PHONE]") text mid ∧
         replaced EMAIL (py "[REDACTED-EMAIL]") mid
           (_scrub_text is_digit is_space is_word text).
Proof using Type.
  exists (sub_from PHONE (py "[REDACTED-PHONE]") 0 text).
  split; apply sub_from_replaced.
Qed.

(** *** The gate *)

Variable to_str : pyval → pystr.
Variable lower : pystr → pystr.

Abbreviation scrub_text := (_scrub_text is_digit is_space is_word).
Abbreviation is_clean := (clean is_digit is_space is_word).

Lemma scrub_inr v : is_string v = true →
  ∃ s, scrub is_digit is_space is_word v = inr (VStr s) ∧ is_clean s.
Proof.
  destruct v; try done. intros _. eexists. split; [reflexivity|].
  apply scrub_text_clean.
Qed.

(** One draft that the gate accepts. *)
Lemma safe_draft_ok d :
  draft_ok d = true →
  ∃ sd, safe_draft is_digit is_space is_word d = inr sd ∧
    ∃ kvs subject body score approved sent,
      d = VDict kvs ∧
      sd = VDict [(py "channel", default (VStr (py "unknown")) (dict_get (py "channel") kvs));
                  (py "subject", subject); (py "body", VStr body);
                  (py "score", score); (py "approved", approved); (py "sent", sent)] ∧
      is_clean body ∧
      (subject = VNone ∨ ∃ s, subject = VStr s ∧ is_clean s).
Proof.
  destruct d as [| | | | | |kvs]; try done. simpl.
  intros [Hsubj Hbody]%andb_true_iff.
  unfold safe_draft. cbn [method_get subscript]. unfold mbind, exn_bind.
  assert (Hb : ∃ b, scrub is_digit is_space is_word
                      (default (VStr (py "")) (dict_get (py "body") kvs)) = inr (VStr b)
                    ∧ is_clean b).
  { apply scrub_inr. by destruct (dict_get (py "body") kvs). }
  destruct Hb as (b & -> & Hb).
  destruct (dict_get (py "subject") kvs) as [v|] eqn:Hv; simpl.
  - destruct (truthy v) eqn:Ht.
    + simpl in Hsubj. destruct (scrub_inr v Hsubj) as (sj & -> & Hsj).
      eexists. split; [reflexivity|].
      eexists kvs, _, b, _, _, _. split_and!; [done|done|done|].
      right. by exists sj.
    + eexists. split; [reflexivity|].
      eexists kvs, _, b, _, _, _. split_and!; [done|done|done|]. by left.
  - eexists. split; [reflexivity|].
    eexists kvs, _, b, _, _, _. split_and!; [done|done|done|]. by left.
Qed.

Lemma keys_in_set k v d : k ∈ stored_keys → keys_in d → keys_in (dict_set k v d).
Proof.
  intros Hk Hd x Hx. apply dict_keys_set in Hx as [->|Hx]; [done | by apply Hd].
Qed.

Lemma keys_in_keep payload safe key :
  key ∈ stored_keys → keys_in safe →
  keys_in (keep_scrubbed is_digit is_space is_word to_str payload safe key).
Proof.
  intros Hk Hs. unfold keep_scrubbed.
  destruct (truthy _); [by apply keys_in_set | done].
Qed.

Lemma get_keep_ne payload safe key k :
  key ≠ k →
  dict_get k (keep_scrubbed is_digit is_space is_word to_str payload safe key)
  = dict_get k safe.
Proof.
  intros Hne. unfold keep_scrubbed.
  destruct (truthy _); [by apply dict_get_set_ne | done].
Qed.

Lemma keep_link_only raw acc kv :
  kv ∈ foldl (keep_link lower) acc raw →
  kv ∈ acc ∨ (kv ∈ raw ∧ lower kv.1 ∈ allowed_link_keys ∧ is_string kv.2 = true).
Proof.
  revert acc. induction raw as [|x raw IH]; intros acc Hin; simpl in Hin; [by left|].
  apply IH in Hin as [Hin|(Hin & Hrest)].
  - unfold keep_link in Hin.
    destruct (bool_decide (lower x.1 ∈ allowed_link_keys) && is_string x.2) eqn:Hc;
      [|by left].
    apply dict_set_elem in Hin as [->|Hin]; [|by left].
    right. apply andb_true_iff in Hc as [Hk Hv]. apply bool_decide_eq_true in Hk.
    destruct x. split_and!; [set_solver|done|done].
  - right. split; [set_solver|done].
Qed.

Ltac stored := apply (bool_decide_unpack _); vm_compute; exact I.
Ltac differ := vm_compute; discriminate.

(** C10.  On a payload on which it does not raise, the gate returns a
    dict whose keys are among the nine stored keys; its "links" entry holds
    only entries of the payload's links whose lower-cased key is an allowed
    public-profile key and whose value is a string; its "drafts" entry has
    one draft for each draft of the payload, in the same order and with the
    same channel, whose body is a string in which neither the phone nor the
    e-mail pattern matches any substring, and whose subject is [None] or
    such a string. *)
Theorem sanitize_for_storage_safe payload :
  payload_ok payload = true →
  ∃ safe links safe_drafts,
    sanitize_for_storage is_digit is_space is_word to_str lower payload = inr safe ∧
    (∀ k, k ∈ dict_keys safe → k ∈ stored_keys) ∧
    dict_get (py "links") safe = Some (VDict links) ∧
    (∀ k v, (k, v) ∈ links →
       (k, v) ∈ input_links payload ∧
       lower k ∈ allowed_link_keys ∧ is_string v = true) ∧
    dict_get (py "drafts") safe = Some (VList safe_drafts) ∧
    Forall2 (λ d sd, ∃ kvs subject body score approved sent,
               d = VDict kvs ∧
               sd = VDict [(py "channel",
                            default (VStr (py "unknown")) (dict_get (py "channel") kvs));
                           (py "subject", subject); (py "body", VStr body);
                           (py "score", score); (py "approved", approved);
                           (py "sent", sent)] ∧
               is_clean body ∧
               (subject = VNone ∨ ∃ s, subject = VStr s ∧ is_clean s))
      (input_drafts payload) safe_drafts.
Proof.
  unfold payload_ok. rewrite !andb_true_iff. intros [[Hlinks Hint] Hdrafts].
  unfold sanitize_for_storage, input_links, input_drafts.
  set (safe0 := foldl (keep_scrubbed is_digit is_space is_word to_str payload) [] _).
  assert (K0 : keys_in safe0).
  { unfold safe0. simpl. repeat apply keys_in_keep; try stored.
    intros k Hk. by apply elem_of_nil in Hk. }
  (* the links *)
  assert (Hl : ∃ raw, items (or_else (get_or_none (py "links") payload) (VDict []))
                      = inr raw ∧
                      raw ⊆ match get_or_none (py "links") payload with
                            | VDict kvs => kvs
                            | _ => []
                            end).
  { unfold or_else. destruct (truthy (get_or_none (py "links") payload)) eqn:Ht.
    - simpl in Hlinks. destruct (get_or_none (py "links") payload); try done.
      by eexists.
    - exists []. split; [done|]. set_solver. }
  destruct Hl as (raw & -> & Hraw). unfold mbind at 1, exn_bind at 1.
  set (links := foldl (keep_link lower) [] raw).
  set (safe1 := dict_set (py "links") (VDict links) safe0).
  assert (K1 : keys_in safe1) by (apply keys_in_set; [stored | done]).
  assert (G1 : dict_get (py "links") safe1 = Some (VDict links))
    by apply dict_get_set_eq.
  set (safe2 := if truthy (get_or_none (py "tone_json") payload) then _ else safe1).
  assert (K2 : keys_in safe2 ∧ dict_get (py "links") safe2 = Some (VDict links)).
  { unfold safe2. destruct (truthy (get_or_none (py "tone_json") payload)); [|by split]. split.
    - apply keys_in_set; [stored | done].
    - rewrite dict_get_set_ne by differ. done. }
  destruct K2 as [K2 G2].
  (* the interests *)
  assert (Hi : ∃ safe3,
    (if truthy (get_or_none (py "interests") payload)
     then xs ← iterate (get_or_none (py "interests") payload);
          inr (dict_set (py "interests") (VList ((λ i, VStr (to_str i)) <$> xs)) safe2)
     else inr safe2) = inr safe3 ∧
    keys_in safe3 ∧ dict_get (py "links") safe3 = Some (VDict links)).
  { destruct (truthy (get_or_none (py "interests") payload)).
    - simpl in Hint. destruct (iterate _) as [err|xs]; [done|].
      eexists. split; [reflexivity|]. split.
      + apply keys_in_set; [stored | done].
      + rewrite dict_get_set_ne by differ. done.
    - by exists safe2. }
  destruct Hi as (safe3 & -> & K3 & G3). unfold mbind at 1, exn_bind at 1.
  set (safe5 := keep_scrubbed _ _ _ _ payload (keep_scrubbed _ _ _ _ payload safe3 _) _).
  assert (K5 : keys_in safe5) by (unfold safe5; repeat apply keys_in_keep; try stored; done).
  assert (G5 : dict_get (py "links") safe5 = Some (VDict links)).
  { unfold safe5. rewrite !get_keep_ne by differ. done. }
  (* the drafts *)
  assert (Hd : ∃ ds, iterate (or_else (get_or_none (py "drafts") payload) (VList []))
                     = inr ds ∧
                     ds = match get_or_none (py "drafts") payload with
                          | VList ds => ds
                          | _ => []
                          end ∧
                     forallb draft_ok ds = true).
  { unfold or_else. destruct (truthy (get_or_none (py "drafts") payload)) eqn:Ht.
    - simpl in Hdrafts. destruct (get_or_none (py "drafts") payload); try done.
      by eexists.
    - exists []. split_and!; [done| |done].
      destruct (get_or_none (py "drafts") payload) as [| | | | |[|]|]; done. }
  destruct Hd as (ds & -> & <- & Hok). unfold mbind at 1, exn_bind at 1.
  destruct (mapM_total (safe_draft is_digit is_space is_word)
              (λ d sd, ∃ kvs subject body score approved sent,
                 d = VDict kvs ∧
                 sd = VDict [(py "channel",
                              default (VStr (py "unknown")) (dict_get (py "channel") kvs));
                             (py "subject", subject); (py "body", VStr body);
                             (py "score", score); (py "approved", approved);
                             (py "sent", sent)] ∧
                 is_clean body ∧
                 (subject = VNone ∨ ∃ s, subject = VStr s ∧ is_clean s)) ds)
    as (sds & Hsds & Hall).
  { apply Forall_forall. intros d Hin. apply safe_draft_ok.
    rewrite forallb_forall in Hok. by apply Hok, list_elem_of_In. }
  rewrite Hsds. unfold mbind, exn_bind.
  exists (dict_set (py "drafts") (VList sds) safe5), links, sds.
  split_and!.
  - done.
  - apply keys_in_set; [stored | done].
  - rewrite dict_get_set_ne by differ. done.
  - intros k v Hkv. apply keep_link_only in Hkv as [Hkv|(Hkv & Hk & Hv)].
    + by apply elem_of_nil in Hkv.
    + split_and!; [by apply Hraw | done | done].
  - apply dict_get_set_eq.
  - done.
Qed.

End Patterns.

(** *** What the gate stores, and when it raises *)

Section Stored.

Variables is_digit is_space is_word : N → bool.
Variable to_str : pyval → pystr.
Variable lower : pystr → pystr.

Abbreviation sanitize :=
  (sanitize_for_storage is_digit is_space is_word to_str lower).
Abbreviation keep := (keep_scrubbed is_digit is_space is_word to_str).

Lemma items_raises v e : items v = inl e → e = AttributeError.
Proof. destruct v; simpl; congruence. Qed.

Lemma iterate_raises v e : iterate v = inl e → e = TypeError.
Proof. destruct v; simpl; congruence. Qed.

Lemma scrub_raises v e :
  scrub is_digit is_space is_word v = inl e → e = TypeError.
Proof. destruct v; simpl; congruence. Qed.

Lemma scrub_returns v s :
  scrub is_digit is_space is_word v = inr s → is_string v = true.
Proof. by destruct v. Qed.

(** A draft raises [AttributeError] when it is no dict and [TypeError]
    when its subject or body is no string. *)
Lemma safe_draft_raises d e :
  safe_draft is_digit is_space is_word d = inl e →
  e = TypeError ∨ e = AttributeError.
Proof.
  destruct d as [| | | | | |kvs]; try (intros [= <-]; by right).
  unfold safe_draft. cbn [method_get subscript]. unfold mbind, exn_bind.
  destruct (truthy (default VNone (dict_get (py "subject") kvs))) eqn:Ht.
  - destruct (dict_get (py "subject") kvs) as [v|]; [|done]. simpl.
    destruct (scrub is_digit is_space is_word v) as [err|sj] eqn:Hv.
    { intros [= <-]. left. by eapply scrub_raises. }
    destruct (scrub is_digit is_space is_word
                (default (VStr (py "")) (dict_get (py "body") kvs))) as [err|b] eqn:Hb;
      [|done].
    intros [= <-]. left. by eapply scrub_raises.
  - destruct (scrub is_digit is_space is_word
                (default (VStr (py "")) (dict_get (py "body") kvs))) as [err|b] eqn:Hb;
      [|done].
    intros [= <-]. left. by eapply scrub_raises.
Qed.

Lemma safe_draft_returns d sd :
  safe_draft is_digit is_space is_word d = inr sd → draft_ok d = true.
Proof.
  destruct d as [| | | | | |kvs]; try done.
  unfold safe_draft, draft_ok. cbn [method_get subscript]. unfold mbind, exn_bind.
  intros H.
  assert (Hbody : is_string (default (VStr (py "")) (dict_get (py "body") kvs)) = true).
  { destruct (scrub is_digit is_space is_word
                (default (VStr (py "")) (dict_get (py "body") kvs))) as [err|b] eqn:Hb.
    - destruct (truthy _) in H; [|done].
      destruct (dict_get (py "subject") kvs); [|done]. simpl in H.
      by destruct (scrub is_digit is_space is_word p).
    - by eapply scrub_returns. }
  apply andb_true_iff. split.
  - destruct (dict_get (py "subject") kvs) as [v|]; [|done]. simpl in H.
    destruct (truthy v); [|done]. simpl.
    destruct (scrub is_digit is_space is_word v) as [err|sj] eqn:Hv; [done|].
    by eapply scrub_returns.
  - by destruct (dict_get (py "body") kvs).
Qed.

Lemma keep_get_ne payload safe key k :
  key ≠ k → dict_get k (keep payload safe key) = dict_get k safe.
Proof.
  intros Hne. unfold keep_scrubbed.
  destruct (truthy _); [by apply dict_get_set_ne | done].
Qed.

Lemma keep_get_eq payload safe key :
  dict_get key (keep payload safe key)
  = if truthy (get_or_none key payload)
    then Some (VStr (_scrub_text is_digit is_space is_word
                       (to_str (get_or_none key payload))))
    else dict_get key safe.
Proof.
  unfold keep_scrubbed.
  destruct (truthy (get_or_none key payload)); [apply dict_get_set_eq | done].
Qed.

(** With distinct keys the comprehension over the links is a filter. *)
Lemma keep_link_filter raw : ∀ acc,
  NoDup (dict_keys acc ++ dict_keys raw) →
  foldl (keep_link lower) acc raw = acc ++ List.filter (public_link lower) raw.
Proof.
  unfold dict_keys. induction raw as [|[k v] raw IH]; intros acc Hnd; simpl.
  - by rewrite app_nil_r.
  - simpl in Hnd. apply NoDup_app in Hnd as (Hacc & Hdis & Hraw).
    apply NoDup_cons in Hraw as [Hk Hraw].
    unfold keep_link at 2. unfold public_link. simpl.
    destruct (bool_decide (lower k ∈ allowed_link_keys) && is_string v).
    + rewrite dict_set_fresh by (unfold dict_keys; set_solver).
      rewrite IH.
      * by rewrite <- app_assoc.
      * rewrite fmap_app. simpl. apply NoDup_app. split_and!.
        -- apply NoDup_app. split_and!; [done|set_solver|apply NoDup_singleton].
        -- set_solver.
        -- done.
    + apply IH. apply NoDup_app. split_and!; [done|set_solver|done].
Qed.

Lemma items_links payload raw :
  items (or_else (get_or_none (py "links") payload) (VDict [])) = inr raw →
  raw = input_links payload.
Proof.
  unfold or_else, input_links.
  destruct (truthy (get_or_none (py "links") payload)) eqn:Ht.
  - destruct (get_or_none (py "links") payload); simpl; congruence.
  - intros [= <-].
    by destruct (get_or_none (py "links") payload) as [| | | | | |[|]].
Qed.

(** What a returned dict is made of. *)
Lemma sanitize_inr payload safe :
  sanitize payload = inr safe →
  ∃ raw safe3 sds,
    items (or_else (get_or_none (py "links") payload) (VDict [])) = inr raw ∧
    (∀ k, k ≠ py "interests" → k ≠ py "tone_json" →
       dict_get k safe3
       = dict_get k (dict_set (py "links") (VDict (foldl (keep_link lower) [] raw))
                       (foldl (keep payload) []
                          [py "company"; py "role"; py "industry"]))) ∧
    safe = dict_set (py "drafts") (VList sds)
             (keep payload (keep payload safe3 (py "recent_activity"))
                (py "communication_style")).
Proof.
  unfold sanitize_for_storage.
  destruct (items _) as [err|raw]; [done|]. unfold mbind at 1, exn_bind at 1.
  set (safe1 := dict_set (py "links") _ _).
  set (safe2 := if truthy (get_or_none (py "tone_json") payload) then _ else safe1).
  assert (H2 : ∀ k, k ≠ py "tone_json" → dict_get k safe2 = dict_get k safe1).
  { intros k Hk. unfold safe2.
    destruct (truthy (get_or_none (py "tone_json") payload)); [|done].
    by apply dict_get_set_ne. }
  destruct (truthy (get_or_none (py "interests") payload)).
  - destruct (iterate (get_or_none (py "interests") payload)) as [err|xs]; [done|].
    unfold mbind at 1 2, exn_bind at 1 2.
    destruct (iterate (or_else _ _)) as [err|ds]; [done|].
    unfold mbind at 1, exn_bind at 1.
    destruct (mapM _ ds) as [err|sds]; [done|].
    unfold mbind, exn_bind. intros [= <-].
    eexists raw, _, sds. split_and!; [done| |done].
    intros k Hi Ht. rewrite dict_get_set_ne by done. by apply H2.
  - unfold mbind at 1, exn_bind at 1.
    destruct (iterate (or_else _ _)) as [err|ds]; [done|].
    unfold mbind at 1, exn_bind at 1.
    destruct (mapM _ ds) as [err|sds]; [done|].
    unfold mbind, exn_bind. intros [= <-].
    eexists raw, _, sds. split_and!; [done| |done].
    intros k Hi Ht. by apply H2.
Qed.

Ltac differs := vm_compute; discriminate.

(** The gate raises on every payload outside [payload_ok], and what it
    raises is a [TypeError] or an [AttributeError]: the links are no dict,
    the interests or the drafts cannot be iterated over, a draft is no dict,
    or a subject or body is no string.  It never raises a [KeyError]. *)
Theorem sanitize_for_storage_raises payload :
  payload_ok payload = false →
  ∃ err, sanitize payload = inl err ∧ (err = TypeError ∨ err = AttributeError).
Proof.
  intros Hbad. unfold sanitize_for_storage.
  destruct (items _) as [err|raw] eqn:Hitems.
  { exists err. split; [done|]. right. by eapply items_raises. }
  unfold mbind at 1, exn_bind at 1.
  set (safe2 := if truthy (get_or_none (py "tone_json") payload) then _ else _).
  clearbody safe2.
  assert (HA : negb (truthy (get_or_none (py "links") payload))
               || match get_or_none (py "links") payload with
                  | VDict _ => true
                  | _ => false
                  end = true).
  { unfold or_else in Hitems.
    destruct (truthy (get_or_none (py "links") payload)); [|done].
    by destruct (get_or_none (py "links") payload). }
  destruct (if truthy (get_or_none (py "interests") payload) then _ else inr safe2)
    as [err|safe3] eqn:Hint.
  { exists err. split; [done|]. left.
    destruct (truthy (get_or_none (py "interests") payload)); [|done].
    unfold mbind, exn_bind in Hint.
    destruct (iterate (get_or_none (py "interests") payload)) as [err'|xs] eqn:Hxs;
      [|done].
    inversion Hint; subst. by eapply iterate_raises. }
  assert (HB : negb (truthy (get_or_none (py "interests") payload))
               || match iterate (get_or_none (py "interests") payload) with
                  | inr _ => true
                  | inl _ => false
                  end = true).
  { destruct (truthy (get_or_none (py "interests") payload)); [|done].
    unfold mbind, exn_bind in Hint.
    by destruct (iterate (get_or_none (py "interests") payload)). }
  unfold mbind at 1, exn_bind at 1.
  destruct (iterate (or_else _ _)) as [err|ds] eqn:Hds.
  { exists err. split; [done|]. left. by eapply iterate_raises. }
  unfold mbind at 1, exn_bind at 1.
  destruct (mapM (safe_draft is_digit is_space is_word) ds) as [err|sds] eqn:Hsds.
  { exists err. split; [done|].
    apply mapM_inl in Hsds as (d & _ & Hd). by eapply safe_draft_raises. }
  exfalso. apply mapM_inr in Hsds.
  assert (HC : negb (truthy (get_or_none (py "drafts") payload))
               || match get_or_none (py "drafts") payload with
                  | VList ds => forallb draft_ok ds
                  | _ => false
                  end = true).
  { unfold or_else in Hds.
    destruct (truthy (get_or_none (py "drafts") payload)) eqn:Ht; [|done].
    destruct (get_or_none (py "drafts") payload) as [| | | |[|c str]|l|[|kv kvs]];
      try done; simpl in Hds; inversion Hds; subst ds.
    - by inversion Hsds.
    - simpl. apply forallb_forall. intros d Hd.
      apply list_elem_of_In, list_elem_of_lookup in Hd as [i Hi].
      destruct (Forall2_lookup_l _ _ _ _ _ Hsds Hi) as (sd & _ & Hsd).
      by eapply safe_draft_returns.
    - by inversion Hsds. }
  unfold payload_ok in Hbad. by rewrite HA, HB, HC in Hbad.
Qed.

(** The links that are stored.  The keys of a dict are distinct, and
    then the stored links are the entries of the payload's links whose
    lower-cased key is an allowed public-profile key and whose value is a
    string: all of them, in their order. *)
Theorem public_links_kept payload safe :
  NoDup (dict_keys (input_links payload)) →
  sanitize payload = inr safe →
  dict_get (py "links") safe
  = Some (VDict (List.filter (public_link lower) (input_links payload))).
Proof.
  intros Hnd Hsafe.
  apply sanitize_inr in Hsafe as (raw & safe3 & sds & Hraw & H3 & ->).
  apply items_links in Hraw as ->.
  rewrite dict_get_set_ne by differs.
  rewrite !keep_get_ne by differs.
  rewrite H3 by differs. rewrite dict_get_set_eq.
  by rewrite keep_link_filter.
Qed.

(** What is stored of a free-text field: when the payload's value is
    empty or missing, nothing; otherwise [str] of the value, scrubbed. *)
Lemma scalar_field_stored payload safe key :
  key ∈ scrubbed_keys →
  sanitize payload = inr safe →
  dict_get key safe
  = if truthy (get_or_none key payload)
    then Some (VStr (_scrub_text is_digit is_space is_word
                       (to_str (get_or_none key payload))))
    else None.
Proof.
  intros Hkey Hsafe.
  apply sanitize_inr in Hsafe as (raw & safe3 & sds & _ & H3 & ->).
  unfold scrubbed_keys in Hkey. rewrite !elem_of_cons in Hkey.
  destruct Hkey as [->|[->|[->|[->|[->|Hkey]]]]]; [..|by apply elem_of_nil in Hkey];
    rewrite dict_get_set_ne by differs.
  - rewrite !keep_get_ne by differs. rewrite H3 by differs.
    rewrite dict_get_set_ne by differs. cbn [foldl].
    rewrite !keep_get_ne by differs. rewrite keep_get_eq.
    by destruct (truthy _).
  - rewrite !keep_get_ne by differs. rewrite H3 by differs.
    rewrite dict_get_set_ne by differs. cbn [foldl].
    rewrite keep_get_ne by differs. rewrite keep_get_eq.
    destruct (truthy _); [done|]. by rewrite keep_get_ne by differs.
  - rewrite !keep_get_ne by differs. rewrite H3 by differs.
    rewrite dict_get_set_ne by differs. cbn [foldl].
    rewrite keep_get_eq. destruct (truthy _); [done|].
    by rewrite !keep_get_ne by differs.
  - rewrite keep_get_ne by differs. rewrite keep_get_eq.
    destruct (truthy _); [done|]. rewrite H3 by differs.
    rewrite dict_get_set_ne by differs. cbn [foldl].
    by rewrite !keep_get_ne by differs.
  - rewrite keep_get_eq. destruct (truthy _); [done|].
    rewrite keep_get_ne by differs. rewrite H3 by differs.
    rewrite dict_get_set_ne by differs. cbn [foldl].
    by rewrite !keep_get_ne by differs.
Qed.

(** What is stored without scrubbing.  The tone is stored as it is, and
    the interests as the list of the [str] of each: neither passes through
    [_scrub_text], so a phone number or an address in them is stored. *)
Theorem tone_and_interests_unscrubbed payload safe :
  sanitize payload = inr safe →
  dict_get (py "tone_json") safe
  = (if truthy (get_or_none (py "tone_json") payload)
     then Some (get_or_none (py "tone_json") payload)
     else None) ∧
  if truthy (get_or_none (py "interests") payload)
  then ∃ xs, iterate (get_or_none (py "interests") payload) = inr xs ∧
             dict_get (py "interests") safe
             = Some (VList ((λ i, VStr (to_str i)) <$> xs))
  else dict_get (py "interests") safe = None.
Proof.
  unfold sanitize_for_storage.
  destruct (items _) as [err|raw]; [done|]. unfold mbind at 1, exn_bind at 1.
  set (safe1 := dict_set (py "links") _ _).
  assert (H1 : dict_get (py "tone_json") safe1 = None ∧
               dict_get (py "interests") safe1 = None).
  { unfold safe1. cbn [foldl].
    rewrite !dict_get_set_ne by differs. by rewrite !keep_get_ne by differs. }
  destruct H1 as [Ht1 Hi1].
  set (safe2 := if truthy (get_or_none (py "tone_json") payload) then _ else safe1).
  assert (H2 : dict_get (py "tone_json") safe2
               = (if truthy (get_or_none (py "tone_json") payload)
                  then Some (get_or_none (py "tone_json") payload)
                  else None) ∧
               dict_get (py "interests") safe2 = None).
  { unfold safe2. destruct (truthy (get_or_none (py "tone_json") payload)); [|done].
    split; [apply dict_get_set_eq|]. by rewrite dict_get_set_ne by differs. }
  destruct H2 as [Ht2 Hi2]. clearbody safe2.
  destruct (truthy (get_or_none (py "interests") payload)).
  - destruct (iterate (get_or_none (py "interests") payload)) as [err|xs]; [done|].
    unfold mbind at 1 2, exn_bind at 1 2.
    destruct (iterate (or_else _ _)) as [err|ds]; [done|].
    unfold mbind at 1, exn_bind at 1.
    destruct (mapM _ ds) as [err|sds]; [done|].
    unfold mbind, exn_bind. intros [= <-].
    rewrite !dict_get_set_ne by differs. rewrite !keep_get_ne by differs.
    split.
    + by rewrite dict_get_set_ne by differs.
    + exists xs. split; [done|]. apply dict_get_set_eq.
  - unfold mbind at 1, exn_bind at 1.
    destruct (iterate (or_else _ _)) as [err|ds]; [done|].
    unfold mbind at 1, exn_bind at 1.
    destruct (mapM _ ds) as [err|sds]; [done|].
    unfold mbind, exn_bind. intros [= <-].
    rewrite !dict_get_set_ne by differs. by rewrite !keep_get_ne by differs.
Qed.

End Stored.

Lemma tone_and_interests_unscrubbed_witness :
  ∃ safe,
    sanitize_for_storage ascii_digit ascii_space ascii_word sample_str ascii_lower
      sample_profile_payload = inr safe ∧
    dict_get (py "tone_json") safe
    = (if truthy (get_or_none (py "tone_json") sample_profile_payload)
       then Some (get_or_none (py "tone_json") sample_profile_payload)
       else None) ∧
    if truthy (get_or_none (py "interests") sample_profile_payload)
    then ∃ xs, iterate (get_or_none (py "interests") sample_profile_payload) = inr xs ∧
               dict_get (py "interests") safe
               = Some (VList ((λ i, VStr (sample_str i)) <$> xs))
    else dict_get (py "interests") safe = None.
Proof.
  eexists. split; [vm_compute; reflexivity|].
  apply (tone_and_interests_unscrubbed ascii_digit ascii_space ascii_word sample_str
           ascii_lower sample_profile_payload).
  vm_compute. reflexivity.
Defined.

(** What the gate stores of a payload with contact details in its tone
    and interests: both, as they are. *)
Example sample_profile_stored :
  sanitize_for_storage ascii_digit ascii_space ascii_word sample_str ascii_lower
    sample_profile_payload
  = inr [ (py "links", VDict []);
          (py "tone_json", VDict [(py "contact", VStr (py "jo@acme.io"))]);
          (py "interests", VList [VStr (py "calls at +1 (555) 123-4567")]);
          (py "drafts", VList []) ].
Proof. vm_compute. reflexivity. Qed.

(** The free-text fields are stored scrubbed.  Of "company", "role",
    "industry", "recent_activity" and "communication_style" the gate stores
    nothing when the payload's value is empty or missing, and otherwise
    [str] of the value after scrubbing: a string in which neither the phone
    nor the e-mail pattern matches any substring. *)
Theorem scalar_fields_scrubbed is_digit is_space is_word to_str lower payload safe key :
  (∀ c, (c < 128)%N → is_digit c = ascii_digit c) →
  (∀ c, (c < 128)%N → is_space c = ascii_space c) →
  (∀ c, (c < 128)%N → is_word c = ascii_word c) →
  key ∈ scrubbed_keys →
  sanitize_for_storage is_digit is_space is_word to_str lower payload = inr safe →
  dict_get key safe
  = (if truthy (get_or_none key payload)
     then Some (VStr (_scrub_text is_digit is_space is_word
                        (to_str (get_or_none key payload))))
     else None) ∧
  ∀ v, dict_get key safe = Some v →
       ∃ s, v = VStr s ∧ clean is_digit is_space is_word s.
Proof.
  intros Hd Hs Hw Hkey Hsafe.
  pose proof (scalar_field_stored _ _ _ _ _ _ _ _ Hkey Hsafe) as Hget.
  split; [done|]. intros v Hv. rewrite Hget in Hv.
  destruct (truthy (get_or_none key payload)); [|done].
  inversion Hv; subst. eexists. split; [done|]. by apply scrub_text_clean.
Qed.

Lemma sanitize_for_storage_raises_witness :
  ∃ err, sanitize_for_storage ascii_digit ascii_space ascii_word sample_str ascii_lower
           sample_bad_payload = inl err ∧
         (err = TypeError ∨ err = AttributeError).
Proof.
  apply (sanitize_for_storage_raises ascii_digit ascii_space ascii_word
           sample_str ascii_lower sample_bad_payload).
  vm_compute. reflexivity.
Defined.

Lemma public_links_kept_witness :
  dict_get (py "links")
    [ (py "company", VStr (py "Acme"));
      (py "links", VDict [(py "LinkedIn", VStr (py "https://linkedin.com/in/jo"))]);
      (py "drafts",
       VList [ VDict [(py "channel", VStr (py "email"));
                      (py "subject", VStr (py "Hello"));
                      (py "body", VStr (py "Call [REDACTED-PHONE] or [REDACTED-EMAIL]"));
                      (py "score", VNone); (py "approved", VBool false);
                      (py "sent", VBool false)];
               VDict [(py "channel", VStr (py "sms"));
                      (py "subject", VNone);
                      (py "body", VStr (py "Hi"));
                      (py "score", VNone); (py "approved", VBool false);
                      (py "sent", VBool false)] ]) ]
  = Some (VDict (List.filter (public_link ascii_lower) (input_links sample_payload))).
Proof.
  apply (public_links_kept ascii_digit ascii_space ascii_word sample_str ascii_lower
           sample_payload).
  - apply (bool_decide_unpack _). vm_compute. exact I.
  - vm_compute. reflexivity.
Defined.

Lemma scalar_fields_scrubbed_witness :
  ∃ safe,
    sanitize_for_storage ascii_digit ascii_space ascii_word sample_str ascii_lower
      sample_payload = inr safe ∧
    dict_get (py "company") safe
    = (if truthy (get_or_none (py "company") sample_payload)
       then Some (VStr (_scrub_text ascii_digit ascii_space ascii_word
                          (sample_str (get_or_none (py "company") sample_payload))))
       else None) ∧
    ∀ v, dict_get (py "company") safe = Some v →
         ∃ s, v = VStr s ∧ clean ascii_digit ascii_space ascii_word s.
Proof.
  eexists. split; [vm_compute; reflexivity|].
  apply (scalar_fields_scrubbed ascii_digit ascii_space ascii_word sample_str
           ascii_lower sample_payload _ (py "company")
           (λ _ _, eq_refl) (λ _ _, eq_refl) (λ _ _, eq_refl)).
  - apply (bool_decide_unpack _). vm_compute. exact I.
  - vm_compute. reflexivity.
Defined.

Lemma scrub_text_idempotent_witness :
  _scrub_text ascii_digit ascii_space ascii_word
    (_scrub_text ascii_digit ascii_space ascii_word
       (py "Call +1 (555) 123-4567 or jo@acme.io"))
  = _scrub_text ascii_digit ascii_space ascii_word
      (py "Call +1 (555) 123-4567 or jo@acme.io").
Proof.
  apply (scrub_text_idempotent ascii_digit ascii_space ascii_word
           (λ _ _, eq_refl) (λ _ _, eq_refl) (λ _ _, eq_refl)).
Defined.

Lemma scrub_text_keeps_plain_witness :
  _scrub_text ascii_digit ascii_space ascii_word (py "Dear team, shall we talk?")
  = py "Dear team, shall we talk?".
Proof.
  apply (scrub_text_keeps_plain ascii_digit ascii_space ascii_word).
  vm_compute. reflexivity.
Defined.

Lemma sanitize_for_storage_safe_witness :
  ∃ safe links safe_drafts,
    sanitize_for_storage ascii_digit ascii_space ascii_word sample_str ascii_lower
      sample_payload = inr safe ∧
    (∀ k, k ∈ dict_keys safe → k ∈ stored_keys) ∧
    dict_get (py "links") safe = Some (VDict links) ∧
    (∀ k v, (k, v) ∈ links →
       (k, v) ∈ input_links sample_payload ∧
       ascii_lower k ∈ allowed_link_keys ∧ is_string v = true) ∧
    dict_get (py "drafts") safe = Some (VList safe_drafts) ∧
    Forall2 (λ d sd, ∃ kvs subject body score approved sent,
               d = VDict kvs ∧
               sd = VDict [(py "channel",
                            default (VStr (py "unknown")) (dict_get (py "channel") kvs));
                           (py "subject", subject); (py "body", VStr body);
                           (py "score", score); (py "approved", approved);
                           (py "sent", sent)] ∧
               clean ascii_digit ascii_space ascii_word body ∧
               (subject = VNone ∨
                ∃ s, subject = VStr s ∧ clean ascii_digit ascii_space ascii_word s))
      (input_drafts sample_payload) safe_drafts.
Proof.
  apply (sanitize_for_storage_safe ascii_digit ascii_space ascii_word
           (λ _ _, eq_refl) (λ _ _, eq_refl) (λ _ _, eq_refl)
           sample_str ascii_lower sample_payload).
  vm_compute. reflexivity.
Defined.

(** What the gate stores of the sample payload. *)
Example sample_payload_stored :
  sanitize_for_storage ascii_digit ascii_space ascii_word sample_str ascii_lower
    sample_payload
  = inr [ (py "company", VStr (py "Acme"));
          (py "links", VDict [(py "LinkedIn", VStr (py "https://linkedin.com/in/jo"))]);
          (py "drafts",
           VList [ VDict [(py "channel", VStr (py "email"));
                          (py "subject", VStr (py "Hello"));
                          (py "body", VStr (py "Call [REDACTED-PHONE] or [REDACTED-EMAIL]"));
                          (py "score", VNone); (py "approved", VBool false);
                          (py "sent", VBool false)];
                   VDict [(py "channel", VStr (py "sms"));
                          (py "subject", VNone);
                          (py "body", VStr (py "Hi"));
                          (py "score", VNone); (py "approved", VBool false);
                          (py "sent", VBool false)] ]) ].
Proof. vm_compute. reflexivity. Qed.

(** Greedy matching with backtracking: the phone pattern gives back the
    space after the number, the e-mail pattern the last label of the
    domain when it is a single letter. *)
Example match_lengths :
  match_at (_PHONE_RE ascii_digit ascii_space) (py "+1 (555) 123-4567 or") = Some 17%nat ∧
  match_at (_EMAIL_RE ascii_word) (py "a@b.cd.e") = Some 6%nat ∧
  match_at (_EMAIL_RE ascii_word) (py "a@b.c") = None.
Proof. vm_compute. done. Qed.

End SanitizerFacts.
